(** * join_csv_to_shp: linking the consolidated CSV to the municipal shapefile

    A shallow embedding of [geoprocessamento/join_csv_to_shp.py] together
    with the part of pandas the script calls, and the properties of the
    reconciliation logic proved (or refuted) on it.

    Conventions of the embedding.
    - A Python [str] is a [string] whose characters are the code points
      U+0000..U+00FF (Latin-1).  Every text the properties below mention
      lives in that range.
    - A table cell is missing ([NA], pandas NaN/None), an integer, a float
      or a text.  A float is carried as the rational it stands for.  The
      two places where the script computes with floats, the sum and the
      mean of a group, are the operations of the class [Float64], of which
      only the exactness on small integers is assumed; an [int64] sum wraps
      around.  How Python prints a float ([str(x)]) is the parameter
      [repr_float].
    - A [DataFrame] is column-major, like pandas: labelled, typed columns of
      equal length ([int64], [float64] or [object], as [read_csv] makes
      them; the geometry of a feature is one more [object] column).  The
      row index is always the default one and is kept as its length.  Joins
      and group-bys compute row indexers and take from the columns.
    - A result [None] stands for an exception: the KeyError on a missing
      column, the TypeError on the mean of an [object] column, the
      ValueError of [int] on a text that is not a number.
    - [print] is not modelled, except for the counts the properties are
      about, which the functions return. *)

From Stdlib Require Import Bool List String Ascii Arith ZArith NArith QArith Lia.
From Stdlib Require Import DecimalString SetoidList Sorted Permutation.
Import ListNotations.
Local Close Scope Q_scope.
Local Open Scope string_scope.
Local Open Scope list_scope.

(** ** Python strings *)

Module Py.

Definition ord (c : ascii) : N := N_of_ascii c.
Definition chr (n : N) : ascii := ascii_of_N n.

Definition between (lo hi n : N) : bool := (lo <=? n)%N && (n <=? hi)%N.

(** [\d] of the [re] module on a [str] pattern: the decimal digits.  Below
    U+0100 these are exactly 0-9. *)
Definition is_digit (c : ascii) : bool := between 48 57 (ord c).

(** [str.isspace] below U+0100: TAB..CR, FS..US, SPACE, NEL, NBSP. *)
Definition is_space (c : ascii) : bool :=
  between 9 13 (ord c) || between 28 32 (ord c)
  || (ord c =? 133)%N || (ord c =? 160)%N.

Definition is_ascii_upper (c : ascii) : bool := between 65 90 (ord c).
Definition is_ascii_lower (c : ascii) : bool := between 97 122 (ord c).

(** [str.lower] on one Latin-1 character: A-Z and the accented capitals
    U+00C0..U+00DE (but not the multiplication sign U+00D7) move by 32. *)
Definition lower_char (c : ascii) : ascii :=
  if is_ascii_upper c
     || (between 192 222 (ord c) && negb (ord c =? 215)%N)
  then chr (ord c + 32) else c.

Definition upper_ascii_char (c : ascii) : ascii :=
  if is_ascii_lower c then chr (ord c - 32) else c.

Fixpoint map_string (f : ascii -> ascii) (s : string) : string :=
  match s with
  | EmptyString => EmptyString
  | String c r => String (f c) (map_string f r)
  end.

Fixpoint filter_string (f : ascii -> bool) (s : string) : string :=
  match s with
  | EmptyString => EmptyString
  | String c r => if f c then String c (filter_string f r) else filter_string f r
  end.

Fixpoint forall_string (f : ascii -> bool) (s : string) : bool :=
  match s with
  | EmptyString => true
  | String c r => f c && forall_string f r
  end.

(** [s.lower()] *)
Definition lower (s : string) : string := map_string lower_char s.

(** [sub in s] *)
Fixpoint contains (sub s : string) : bool :=
  prefix sub s
  || match s with
     | EmptyString => false
     | String _ r => contains sub r
     end.

(** [s[:n]] *)
Fixpoint take (n : nat) (s : string) : string :=
  match n, s with
  | S k, String c r => String c (take k r)
  | _, _ => EmptyString
  end.

Fixpoint zeros (n : nat) : string :=
  match n with
  | O => EmptyString
  | S k => String "0" (zeros k)
  end.

(** [s.zfill(width)].  Python moves a leading sign in front of the padding;
    the script only pads digit strings, which have none, and on those every
    pandas version pads on the left with zeros. *)
Definition zfill (width : nat) (s : string) : string :=
  match s with
  | String c r =>
      if (ord c =? 43)%N || (ord c =? 45)%N
      then String c (zeros (width - String.length s) ++ r)
      else zeros (width - String.length s) ++ s
  | EmptyString => zeros width
  end.

(** [s.split()]: cut at runs of white space, no empty pieces. *)
Fixpoint split_from (cur : string) (s : string) : list string :=
  match s with
  | EmptyString => if (String.length cur =? 0)%nat then [] else [cur]
  | String c r =>
      if is_space c
      then (if (String.length cur =? 0)%nat then split_from "" r
            else cur :: split_from "" r)
      else split_from (cur ++ String c "") r
  end.

Definition split (s : string) : list string := split_from "" s.

(** [sep.join(parts)] *)
Fixpoint join (sep : string) (parts : list string) : string :=
  match parts with
  | [] => ""
  | [p] => p
  | p :: r => p ++ sep ++ join sep r
  end.

(** [s.title()]: a cased character is upper-cased after an uncased one and
    lower-cased after a cased one.  Only ASCII text reaches it in the script
    (see [encode_ascii_ignore]), so the cased characters are the letters. *)
Fixpoint title_from (previous_is_cased : bool) (s : string) : string :=
  match s with
  | EmptyString => EmptyString
  | String c r =>
      String (if previous_is_cased then lower_char c else upper_ascii_char c)
             (title_from (is_ascii_upper c || is_ascii_lower c) r)
  end.

Definition title (s : string) : string := title_from false s.

(** [unicodedata.normalize("NFKD", c)] for one Latin-1 character, as a list of
    code points (Unicode 14 decomposition mappings of U+00A0..U+00FF; the
    characters below U+0080 have none).  Canonical reordering only permutes
    combining marks, none of which is ASCII. *)
Definition accent_of (k : N) : N :=
  (* grave, acute, circumflex, tilde, diaeresis, ring *)
  nth (N.to_nat k) [768; 769; 770; 771; 776; 778]%N 0%N.

Definition nfkd_char (c : ascii) : list N :=
  let n := ord c in
  let lettered (base first : N) := [base; accent_of (n - first)]%N in
  if (n <? 160)%N then [n]
  else if (n =? 160)%N then [32]%N
  else if (n =? 168)%N then [32; 776]%N
  else if (n =? 170)%N then [97]%N
  else if (n =? 175)%N then [32; 772]%N
  else if (n =? 178)%N then [50]%N
  else if (n =? 179)%N then [51]%N
  else if (n =? 180)%N then [32; 769]%N
  else if (n =? 181)%N then [956]%N
  else if (n =? 184)%N then [32; 807]%N
  else if (n =? 185)%N then [49]%N
  else if (n =? 186)%N then [111]%N
  else if (n =? 188)%N then [49; 8260; 52]%N
  else if (n =? 189)%N then [49; 8260; 50]%N
  else if (n =? 190)%N then [51; 8260; 52]%N
  else if between 192 197 n then lettered 65%N 192%N
  else if (n =? 199)%N then [67; 807]%N
  else if between 200 202 n then lettered 69%N 200%N
  else if (n =? 203)%N then [69; 776]%N
  else if between 204 206 n then lettered 73%N 204%N
  else if (n =? 207)%N then [73; 776]%N
  else if (n =? 209)%N then [78; 771]%N
  else if between 210 214 n then lettered 79%N 210%N
  else if between 217 219 n then lettered 85%N 217%N
  else if (n =? 220)%N then [85; 776]%N
  else if (n =? 221)%N then [89; 769]%N
  else if between 224 229 n then lettered 97%N 224%N
  else if (n =? 231)%N then [99; 807]%N
  else if between 232 234 n then lettered 101%N 232%N
  else if (n =? 235)%N then [101; 776]%N
  else if between 236 238 n then lettered 105%N 236%N
  else if (n =? 239)%N then [105; 776]%N
  else if (n =? 241)%N then [110; 771]%N
  else if between 242 246 n then lettered 111%N 242%N
  else if between 249 251 n then lettered 117%N 249%N
  else if (n =? 252)%N then [117; 776]%N
  else if (n =? 253)%N then [121; 769]%N
  else if (n =? 255)%N then [121; 776]%N
  else [n].

Fixpoint nfkd (s : string) : list N :=
  match s with
  | EmptyString => []
  | String c r => nfkd_char c ++ nfkd r
  end.

(** [.encode("ASCII", "ignore").decode("utf-8")]: keep the code points below
    U+0080. *)
Fixpoint encode_ascii_ignore (l : list N) : string :=
  match l with
  | [] => EmptyString
  | n :: r => if (n <? 128)%N then String (chr n) (encode_ascii_ignore r)
              else encode_ascii_ignore r
  end.

(** [str(z)] for an [int]. *)
Definition str_int (z : Z) : string := NilZero.string_of_int (Z.to_int z).

(** The white space [int] strips from a [str] below U+0100: TAB..CR, SPACE,
    NEL, NBSP (not FS..US, which [str.isspace] accepts). *)
Definition is_int_space (c : ascii) : bool :=
  between 9 13 (ord c) || (ord c =? 32)%N || (ord c =? 133)%N || (ord c =? 160)%N.

Fixpoint drop_while (p : ascii -> bool) (l : list ascii) : list ascii :=
  match l with
  | c :: r => if p c then drop_while p r else l
  | [] => []
  end.

(** Decimal digits, single underscores allowed between two digits. *)
Fixpoint digits_value (acc : Z) (after_digit : bool) (l : list ascii) : option Z :=
  match l with
  | [] => if after_digit then Some acc else None
  | c :: r =>
      if is_digit c then digits_value (10 * acc + Z.of_N (ord c - 48)) true r
      else if (ord c =? 95)%N && after_digit then digits_value acc false r
      else None
  end.

(** [int(s)] for a [str]: white space around, an optional sign, decimal
    digits.  [None] is the ValueError.  (Python 3.11 and later also refuse
    texts of more than 4300 digits; these are left out.) *)
Definition int_of_str (s : string) : option Z :=
  let l := rev (drop_while is_int_space
                  (rev (drop_while is_int_space (list_ascii_of_string s)))) in
  match l with
  | c :: r =>
      if (ord c =? 43)%N then digits_value 0 false r
      else if (ord c =? 45)%N then option_map Z.opp (digits_value 0 false r)
      else digits_value 0 false l
  | [] => None
  end.

(** [str.upper] on one Latin-1 character, as code points: a-z and the
    accented small letters U+00E0..U+00FE (but not the division sign U+00F7)
    move by 32; the sharp s becomes SS; the micro sign and the y with
    diaeresis leave Latin-1. *)
Definition upper_char (c : ascii) : list N :=
  let n := ord c in
  if is_ascii_lower c
     || (between 224 254 n && negb (n =? 247)%N)
  then [n - 32]%N
  else if (n =? 181)%N then [924%N]
  else if (n =? 223)%N then [83%N; 83%N]
  else if (n =? 255)%N then [376%N]
  else [n].

(** [s.upper()], as code points. *)
Fixpoint upper (s : string) : list N :=
  match s with
  | EmptyString => []
  | String c r => upper_char c ++ upper r
  end.

(** The code points of a string. *)
Fixpoint points (s : string) : list N :=
  match s with
  | EmptyString => []
  | String c r => ord c :: points r
  end.

End Py.

(** ** The part of pandas the script uses *)

Module Pd.

Inductive cell : Type :=
| NA
| Int (z : Z)
| Flt (q : Q)
| Txt (s : string).

Inductive dtype : Type := int64 | float64 | object.

Record Series : Type := mkSeries { dtype_of : dtype; values : list cell }.

(** Columns in their order, each with its label; [nrows] is the length of
    the index. *)
Record DataFrame : Type := mkDF { nrows : nat; series : list (string * Series) }.

Definition columns (df : DataFrame) : list string := map fst (series df).

(** [len(df)] *)
Definition len (df : DataFrame) : nat := nrows df.

(** [label in labels] *)
Definition mem (label : string) (labels : list string) : bool :=
  existsb (String.eqb label) labels.

(** The cells a column of each dtype can hold. *)
Definition cell_has_dtype (d : dtype) (c : cell) : bool :=
  match d, c with
  | int64, Int _ => true
  | float64, (Flt _ | NA) => true
  | object, (Txt _ | NA) => true
  | _, _ => false
  end.

Definition series_ok (n : nat) (s : Series) : Prop :=
  List.length (values s) = n
  /\ forallb (cell_has_dtype (dtype_of s)) (values s) = true.

(** The invariant of a frame: distinct labels, columns as long as the index,
    cells of the column's dtype. *)
Definition wf (df : DataFrame) : Prop :=
  NoDup (columns df) /\ Forall (fun ls => series_ok (nrows df) (snd ls)) (series df).

(** Every column is as long as the index. *)
Definition rect (df : DataFrame) : Prop :=
  Forall (fun ls => List.length (values (snd ls)) = nrows df) (series df).

Definition isna (c : cell) : bool := match c with NA => true | _ => false end.
Definition notna (c : cell) : bool := negb (isna c).

(** The number a numeric cell stands for. *)
Definition num (c : cell) : option Q :=
  match c with
  | Int z => Some (inject_Z z)
  | Flt q => Some q
  | _ => None
  end.

(** Equality of join and grouping keys: numbers by value, texts by content,
    a missing key equals a missing key. *)
Definition cell_eqb (a b : cell) : bool :=
  match a, b with
  | NA, NA => true
  | Txt s, Txt t => String.eqb s t
  | (Int _ | Flt _), (Int _ | Flt _) =>
      match num a, num b with
      | Some x, Some y => Qeq_bool x y
      | _, _ => false
      end
  | _, _ => false
  end.

Definition cell_eq (a b : cell) : Prop := cell_eqb a b = true.

(** [df[label]] *)
Fixpoint lookup (label : string) (l : list (string * Series)) : option Series :=
  match l with
  | [] => None
  | (l0, s) :: r => if String.eqb l0 label then Some s else lookup label r
  end.

Definition getitem (df : DataFrame) (label : string) : option Series :=
  lookup label (series df).

(** [df[label]] where the column is known to exist. *)
Definition column (df : DataFrame) (label : string) : Series :=
  match getitem df label with
  | Some s => s
  | None => mkSeries object []
  end.

(** [df[label] = s]: an existing column is replaced where it stands, a new
    one goes last. *)
Fixpoint assign (label : string) (s : Series) (l : list (string * Series))
  : list (string * Series) :=
  match l with
  | [] => [(label, s)]
  | (l0, s0) :: r =>
      if String.eqb l0 label then (label, s) :: r else (l0, s0) :: assign label s r
  end.

Definition setitem (df : DataFrame) (label : string) (s : Series) : DataFrame :=
  mkDF (nrows df) (assign label s (series df)).

(** [df.drop(columns=label)] for a label that is present *)
Definition drop (label : string) (df : DataFrame) : DataFrame :=
  mkDF (nrows df) (filter (fun ls => negb (String.eqb (fst ls) label)) (series df)).

(** [if label in df.columns: df.drop(columns=label, inplace=True)] *)
Definition drop_present (df : DataFrame) (label : string) : DataFrame :=
  if mem label (columns df) then drop label df else df.

(** [s.notna().sum()] *)
Definition count_notna (s : Series) : nat :=
  List.length (filter notna (values s)).

(** The cell of row [i] in column [label]. *)
Definition cell_at (df : DataFrame) (label : string) (i : nat) : option cell :=
  match getitem df label with
  | Some s => nth_error (values s) i
  | None => None
  end.

(** *** Element-wise operations on a column *)

Section Astype.
Variable repr_float : Q -> string.

(** [str(x)] of one value; NaN prints as [nan]. *)
Definition to_str (c : cell) : string :=
  match c with
  | NA => "nan"
  | Int z => Py.str_int z
  | Flt q => repr_float q
  | Txt s => s
  end.

(** [s.astype(str)] *)
Definition astype_str (s : Series) : Series :=
  mkSeries object (map (fun c => Txt (to_str c)) (values s)).

End Astype.

(** The [.str] accessor leaves a missing value missing. *)
Definition str_map (f : string -> string) (s : Series) : Series :=
  mkSeries object
    (map (fun c => match c with Txt t => Txt (f t) | _ => NA end) (values s)).

(** [s.str.replace(r"\D", "", regex=True)] *)
Definition str_replace_non_digits : Series -> Series :=
  str_map (Py.filter_string Py.is_digit).

(** [s.str.zfill(width)] *)
Definition str_zfill (width : nat) : Series -> Series := str_map (Py.zfill width).

(** [s.str[:n]] *)
Definition str_slice_to (n : nat) : Series -> Series := str_map (Py.take n).

(** [s.fillna("")] *)
Definition fillna_empty (s : Series) : Series :=
  mkSeries (dtype_of s)
    (map (fun c => match c with NA => Txt "" | _ => c end) (values s)).

(** [s.apply(f)] with a function that returns text *)
Definition apply_str (f : cell -> string) (s : Series) : Series :=
  mkSeries object (map (fun c => Txt (f c)) (values s)).

(** *** Left merge on one key column *)

(** Positions of the elements that satisfy [p], in order. *)
Definition positions {A : Type} (p : A -> bool) (l : list A) : list nat :=
  map fst (filter (fun ic => p (snd ic)) (combine (seq 0 (List.length l)) l)).

(** The row indexer of [how="left"]: the left rows in their order, each once
    per right row with an equal key (in the right order), or once with no
    right row when there is none. *)
Definition left_rows (rk : list cell) (ik : nat * cell) : list (nat * option nat) :=
  match positions (cell_eqb (snd ik)) rk with
  | [] => [(fst ik, None)]
  | js => map (fun j => (fst ik, Some j)) js
  end.

Definition left_join_indexer (lk rk : list cell) : list (nat * option nat) :=
  flat_map (left_rows rk) (combine (seq 0 (List.length lk)) lk).

Definition take_left (idx : list (nat * option nat)) (s : Series) : Series :=
  mkSeries (dtype_of s) (map (fun ij => nth (fst ij) (values s) NA) idx).

(** An integer column that receives a missing value becomes a float one. *)
Definition upcast (s : Series) : Series :=
  match dtype_of s with
  | int64 =>
      mkSeries float64
        (map (fun c => match c with Int z => Flt (inject_Z z) | _ => c end) (values s))
  | _ => s
  end.

Definition unmatched (ij : nat * option nat) : bool :=
  match snd ij with None => true | Some _ => false end.

Definition take_right (idx : list (nat * option nat)) (s : Series) : Series :=
  let s' := if existsb unmatched idx then upcast s else s in
  mkSeries (dtype_of s')
    (map (fun ij => match snd ij with
                    | Some j => nth j (values s') NA
                    | None => NA
                    end) idx).

(** Labels present on both sides get the suffixes [_x] and [_y]. *)
Definition suffixed (overlap : string -> bool) (suffix label : string) : string :=
  if overlap label then label ++ suffix else label.

(** [left.merge(right, left_on=..., right_on=..., how="left")]; with
    [left_on = right_on] this is [on=...]: the key column appears once, filled
    from the left.  [None] is the KeyError of a missing key column. *)
Definition merge_left (left right : DataFrame) (left_on right_on : string)
  : option DataFrame :=
  match getitem left left_on, getitem right right_on with
  | Some lk, Some rk =>
      let idx := left_join_indexer (values lk) (values rk) in
      let same := String.eqb left_on right_on in
      let overlap l :=
        mem l (columns left) && mem l (columns right)
        && negb (same && String.eqb l left_on) in
      let rcols :=
        if same
        then filter (fun ls => negb (String.eqb (fst ls) right_on)) (series right)
        else series right in
      Some (mkDF (List.length idx)
              (map (fun ls => (suffixed overlap "_x" (fst ls), take_left idx (snd ls)))
                   (series left)
               ++ map (fun ls => (suffixed overlap "_y" (fst ls), take_right idx (snd ls)))
                      rcols))
  | _, _ => None
  end.

(** *** Order, distinct values, sorting *)

(** Numbers by value, texts by code point, numbers before texts, missing
    values last.  A typed column only ever compares like with like. *)
Definition cell_compare (a b : cell) : comparison :=
  match a, b with
  | NA, NA => Eq
  | NA, _ => Gt
  | _, NA => Lt
  | Txt s, Txt t => String.compare s t
  | Txt _, _ => Gt
  | _, Txt _ => Lt
  | _, _ =>
      match num a, num b with
      | Some x, Some y => Qcompare x y
      | _, _ => Eq
      end
  end.

Definition cell_leb (a b : cell) : bool :=
  match cell_compare a b with Gt => false | _ => true end.

(** The key tuple of a single column. *)
Definition single (c : cell) : list cell := [c].

(** Tuples of cells (keys of several columns), compared place by place. *)
Fixpoint keys_eqb (a b : list cell) : bool :=
  match a, b with
  | [], [] => true
  | x :: a', y :: b' => cell_eqb x y && keys_eqb a' b'
  | _, _ => false
  end.

Fixpoint keys_compare (a b : list cell) : comparison :=
  match a, b with
  | [], [] => Eq
  | [], _ :: _ => Lt
  | _ :: _, [] => Gt
  | x :: a', y :: b' =>
      match cell_compare x y with
      | Eq => keys_compare a' b'
      | c => c
      end
  end.

Definition keys_leb (a b : list cell) : bool :=
  match keys_compare a b with Gt => false | _ => true end.

Section Lists.
Context {A : Type}.

(** [unique()]: the distinct values in order of first appearance. *)
Fixpoint unique (eqb : A -> A -> bool) (l : list A) : list A :=
  match l with
  | [] => []
  | x :: r => x :: filter (fun y => negb (eqb x y)) (unique eqb r)
  end.

Fixpoint insert (leb : A -> A -> bool) (x : A) (l : list A) : list A :=
  match l with
  | [] => [x]
  | h :: t => if leb x h then x :: l else h :: insert leb x t
  end.

(** A stable sort. *)
Definition sort (leb : A -> A -> bool) (l : list A) : list A :=
  fold_right (insert leb) [] l.

(** All results, or [None] as soon as one step fails. *)
Fixpoint all_some (l : list (option A)) : option (list A) :=
  match l with
  | [] => Some []
  | Some x :: r => option_map (cons x) (all_some r)
  | None :: _ => None
  end.

End Lists.

(** [sorted(s.dropna().unique())] *)
Definition sorted_unique_notna (s : Series) : list cell :=
  sort cell_leb (unique cell_eqb (filter notna (values s))).

(** *** Rows *)

(** The cells of row [i] in the given columns. *)
Definition row (ss : list Series) (i : nat) : list cell :=
  map (fun s => nth i (values s) NA) ss.

(** [df.take(idx)] *)
Definition take_rows (idx : list nat) (df : DataFrame) : DataFrame :=
  mkDF (List.length idx)
    (map (fun ls => (fst ls,
                     mkSeries (dtype_of (snd ls))
                       (map (fun i => nth i (values (snd ls)) NA) idx)))
         (series df)).

(** [df[df[label] == v]]: a missing value equals nothing. *)
Definition filter_eq (df : DataFrame) (label : string) (v : cell) : option DataFrame :=
  match getitem df label with
  | Some s => Some (take_rows (positions (fun c => notna c && cell_eqb c v) (values s)) df)
  | None => None
  end.

(** Positions of the first appearance of each value. *)
Fixpoint first_occurrences (seen : list cell) (i : nat) (l : list cell) : list nat :=
  match l with
  | [] => []
  | c :: r =>
      if existsb (cell_eqb c) seen then first_occurrences seen (S i) r
      else i :: first_occurrences (c :: seen) (S i) r
  end.

(** [df.drop_duplicates(subset=[label])] *)
Definition drop_duplicates (df : DataFrame) (label : string) : option DataFrame :=
  match getitem df label with
  | Some s => Some (take_rows (first_occurrences [] 0 (values s)) df)
  | None => None
  end.

(** *** Group-by and aggregation *)

Inductive aggfunc : Type := Sum | Mean | First.

Definition sum_Z (l : list cell) : Z :=
  fold_right (fun c acc => match c with Int z => (z + acc)%Z | _ => acc end) 0%Z l.

(** An [int64] sum wraps around. *)
Definition wrap64 (z : Z) : Z :=
  ((z + 2 ^ 63) mod 2 ^ 64 - 2 ^ 63)%Z.

(** The numbers of a group, the missing values skipped. *)
Definition nums (l : list cell) : list Q :=
  flat_map (fun c => match num c with Some q => [q] | None => [] end) l.

(** The texts of a group, the missing values skipped. *)
Definition texts (l : list cell) : list string :=
  flat_map (fun c => match c with Txt s => [s] | _ => [] end) l.

(** The sum of the absolute values of integers: a bound on every partial
    sum, in whatever order they are added. *)
Definition abs_sum (zs : list Z) : Z := fold_right (fun z acc => Z.abs z + acc)%Z 0%Z zs.

(** The [float64] arithmetic of the reducers: the sum and the mean pandas
    computes, in floating point, of the numbers of a group that is not
    empty.  The summation order and the rounding are left open.  What is
    fixed is where IEEE 754 leaves no choice: integers that add up to at
    most 2^53 in absolute value are summed without error, and their mean is
    exact when it is an integer. *)
Class Float64 : Type := {
  float_sum : list Q -> Q;
  float_mean : list Q -> Q;
  float_sum_integers : forall zs : list Z,
    (abs_sum zs <= 2 ^ 53)%Z ->
    float_sum (map inject_Z zs) = inject_Z (fold_right Z.add 0%Z zs);
  float_mean_integers : forall (zs : list Z) (k : Z),
    zs <> [] -> (abs_sum zs <= 2 ^ 53)%Z ->
    fold_right Z.add 0%Z zs = (k * Z.of_nat (List.length zs))%Z ->
    float_mean (map inject_Z zs) = inject_Z k
}.

Definition bind {A B : Type} (o : option A) (f : A -> option B) : option B :=
  match o with
  | Some a => f a
  | None => None
  end.

Notation "'do' x <- e ; k" := (bind e (fun x => k))
  (at level 10, x name, e at level 100, k at level 200).

Section Reducers.

Context {fp : Float64}.

(** One group of one column reduced.  Missing values are skipped: the sum of
    none is 0, the mean of none is missing, [first] is the first value that
    is not missing.  An [int64] sum is computed in [int64]; a [float64] sum
    and every mean are computed in [float64]; the sum of an object column
    joins its texts.  [None]: the mean of an object column is a TypeError. *)
Definition reduce (f : aggfunc) (d : dtype) (l : list cell) : option cell :=
  match f, d with
  | First, _ => Some (hd NA (filter notna l))
  | Sum, int64 => Some (Int (wrap64 (sum_Z l)))
  | Sum, float64 =>
      match nums l with
      | [] => Some (Flt 0)
      | xs => Some (Flt (float_sum xs))
      end
  | Sum, object =>
      match texts l with
      | [] => Some (Int 0)
      | xs => Some (Txt (String.concat "" xs))
      end
  | Mean, object => None
  | Mean, _ =>
      match filter notna l with
      | [] => Some NA
      | xs => Some (Flt (float_mean (nums xs)))
      end
  end.

Definition reduce_or_na (f : aggfunc) (d : dtype) (l : list cell) : cell :=
  match reduce f d l with
  | Some c => c
  | None => NA
  end.

Definition result_dtype (f : aggfunc) (d : dtype) : dtype :=
  match f with Mean => float64 | _ => d end.

(** The keys of the groups: rows with a missing key are left out
    ([dropna=True]), the keys come out sorted ([sort=True]). *)
Definition group_keys (ks : list Series) (n : nat) : list (list cell) :=
  sort keys_leb
    (unique keys_eqb
       (filter (fun k => negb (existsb isna k)) (map (row ks) (seq 0 n)))).

Definition group_rows (ks : list Series) (n : nat) (key : list cell) : list nat :=
  filter (fun i => keys_eqb (row ks i) key) (seq 0 n).

Definition agg_column (ks : list Series) (n : nat) (keys : list (list cell))
    (f : aggfunc) (s : Series) : option Series :=
  option_map (mkSeries (result_dtype f (dtype_of s)))
    (all_some
       (map (fun key =>
               reduce f (dtype_of s)
                 (map (fun i => nth i (values s) NA) (group_rows ks n key)))
            keys)).

(** [agg_column] when no reduction fails. *)
Definition agg_total (ks : list Series) (n : nat) (keys : list (list cell))
    (f : aggfunc) (s : Series) : Series :=
  mkSeries (result_dtype f (dtype_of s))
    (map (fun key =>
            reduce_or_na f (dtype_of s)
              (map (fun i => nth i (values s) NA) (group_rows ks n key)))
         keys).

(** Column [j] of a list of key tuples. *)
Definition key_column (keys : list (list cell)) (j : nat) : list cell :=
  map (fun k => nth j k NA) keys.

(** The key columns of a grouped frame. *)
Definition key_columns (by_ : list string) (ks : list Series) (keys : list (list cell))
  : list (string * Series) :=
  map (fun jls => (fst (snd jls),
                   mkSeries (dtype_of (snd (snd jls))) (key_column keys (fst jls))))
      (combine (seq 0 (List.length by_)) (combine by_ ks)).

(** [df.groupby(by, as_index=False).agg(aggs)]: the key columns, then the
    aggregated columns in the order of the dictionary. *)
Definition groupby_agg (df : DataFrame) (by_ : list string)
    (aggs : list (string * aggfunc)) : option DataFrame :=
  match all_some (map (getitem df) by_) with
  | None => None
  | Some ks =>
      let keys := group_keys ks (nrows df) in
      match all_some
              (map (fun lf =>
                      match getitem df (fst lf) with
                      | Some s =>
                          option_map (pair (fst lf))
                            (agg_column ks (nrows df) keys (snd lf) s)
                      | None => None
                      end) aggs) with
      | None => None
      | Some agg_cols =>
          Some (mkDF (List.length keys) (key_columns by_ ks keys ++ agg_cols))
      end
  end.

(** *** Pivot table *)

(** A frame whose rows are indexed by key tuples and whose columns are
    labelled by pairs (value column, key of the pivoted column). *)
Record Pivot : Type := mkPivot {
  index_names : list (string * dtype);
  index : list (list cell);
  pcolumns : list ((string * cell) * Series)
}.

(** [l[idx]] *)
Definition select {A : Type} (d : A) (idx : list nat) (l : list A) : list A :=
  map (fun i => nth i l d) idx.

(** [df.dropna(how="all")] over the given columns: keep the rows with at
    least one value. *)
Definition rows_with_value (vs : list Series) (n : nat) : list nat :=
  filter (fun i => existsb notna (row vs i)) (seq 0 n).

(** The row of the grouped frame that carries the index key [k] and the
    pivoted key [y], if there is one. *)
Definition found (keys : list (list cell)) (k : list cell) (y : cell) : option nat :=
  hd_error (positions (fun key => keys_eqb key (k ++ [y])) keys).

(** Does every index key occur with every pivoted key? *)
Definition complete (keys idx : list (list cell)) (years : list cell) : bool :=
  forallb (fun k => forallb (fun y => match found keys k y with
                                      | Some _ => true
                                      | None => false
                                      end) years) idx.

(** One column of [unstack]: for each index key the value of the row that
    carries this key and the pivoted key [y]; a combination that does not
    occur is missing.  When some combination is missing, the integer columns
    become float ones. *)
Definition unstack_column (keys idx : list (list cell)) (years : list cell)
    (y : cell) (s : Series) : Series :=
  let s' := if complete keys idx years then s else upcast s in
  mkSeries (dtype_of s')
    (map (fun k => match found keys k y with
                   | Some i => nth i (values s') NA
                   | None => NA
                   end) idx).

Definition pcolumn_key (c : (string * cell) * Series) : list cell :=
  [Txt (fst (fst c)); snd (fst c)].

(** Level 1 first, then level 0. *)
Definition pcolumn_key_level1 (c : (string * cell) * Series) : list cell :=
  [snd (fst c); Txt (fst (fst c))].

(** [df.pivot_table(index=index_cols, columns=col, values=values_,
    aggfunc="first")] with the default [dropna=True]:
    group by index and column keys taking the first value; drop the rows with
    no value at all; unstack the column key; sort the columns; drop the
    columns with no value at all. *)
Definition pivot_table_first (df : DataFrame) (index_cols : list string)
    (col : string) (values_ : list string) : option Pivot :=
  do ks <- all_some (map (getitem df) (index_cols ++ [col]));
  do vs <- all_some (map (getitem df) values_);
  let w := List.length index_cols in
  (* groupby(index_cols + [col]).agg("first") *)
  let keys := group_keys ks (nrows df) in
  do agged <- all_some (map (agg_column ks (nrows df) keys First) vs);
  (* dropna(how="all") *)
  let keep := rows_with_value agged (List.length keys) in
  let keys := select [] keep keys in
  let agged := map (fun s => mkSeries (dtype_of s) (select NA keep (values s))) agged in
  (* unstack(col) *)
  let idx := sort keys_leb (unique keys_eqb (map (firstn w) keys)) in
  let years := sort cell_leb (unique cell_eqb (map (fun k => nth w k NA) keys)) in
  let unstacked :=
    flat_map (fun vs => map (fun y => ((fst vs, y),
                                       unstack_column keys idx years y (snd vs)))
                            years)
             (combine values_ agged) in
  (* sort_index(axis=1), dropna(how="all", axis=1) *)
  let sorted_cols :=
    sort (fun a b => keys_leb (pcolumn_key a) (pcolumn_key b)) unstacked in
  Some (mkPivot (combine index_cols (map dtype_of (firstn w ks))) idx
          (filter (fun c => existsb notna (values (snd c))) sorted_cols)).

(** [p.sort_index(axis=1, level=1)]: by level 1, the remaining level after. *)
Definition sort_columns_level1 (p : Pivot) : Pivot :=
  mkPivot (index_names p) (index p)
    (sort (fun a b => keys_leb (pcolumn_key_level1 a) (pcolumn_key_level1 b))
          (pcolumns p)).

(** [p.columns = labels] followed by [p.reset_index()]: the index levels
    become the first columns. *)
Definition reset_index (p : Pivot) (labels : list string) : DataFrame :=
  mkDF (List.length (index p))
    (map (fun jn => (fst (snd jn),
                     mkSeries (snd (snd jn)) (key_column (index p) (fst jn))))
         (combine (seq 0 (List.length (index_names p))) (index_names p))
     ++ combine labels (map snd (pcolumns p))).

End Reducers.

(** [int(x)]: a float is truncated towards zero, a text is parsed.  [None]
    is the ValueError for a missing value or a text that is no integer. *)
Definition int_of (c : cell) : option Z :=
  match c with
  | Int z => Some z
  | Flt q => Some (Z.quot (Qnum q) (Zpos (Qden q)))
  | Txt s => Py.int_of_str s
  | NA => None
  end.

Definition is_numeric_dtype (s : Series) : bool :=
  match dtype_of s with
  | object => false
  | _ => true
  end.

End Pd.

(** ** The script *)

Import Pd.

Inductive outcome (A : Type) : Type :=
| Ok (a : A)          (* ran to the end *)
| Exit (code : Z)     (* [sys.exit(code)] *)
| Raised.             (* an exception escaped *)
Arguments Ok {A} a.
Arguments Exit {A} code.
Arguments Raised {A}.

Definition lift {A : Type} (o : option A) : outcome A :=
  match o with
  | Some a => Ok a
  | None => Raised
  end.

Definition YEAR_COLUMN : string := "ano".
Definition METRIC_COLUMNS : list string :=
  ["total_violencia_domestica"; "feminicidios"; "taxa_feminicidio"].
Definition METRIC_MEAN : list string := ["taxa_feminicidio"].

(** The ranked keywords of the two detectors. *)
Definition code_candidatos : list string :=
  ["municipio_cod"; "codigo_ibge"; "cod_ibge"; "cod_mun"; "cd_mun"; "cd_municip";
   "cd_ibge"; "codigo"; "ibge"; "cod"].

Definition name_candidatos : list string :=
  ["municipio_nome"; "nome"; "municipio"; "nm_mun"; "nm_municip"; "name"].

(** The inner loop: the first column whose lower-cased name contains [alvo]. *)
Fixpoint first_with (alvo : string) (colunas nomes : list string) : option string :=
  match colunas, nomes with
  | c :: cs, nome :: ns => if Py.contains alvo nome then Some c else first_with alvo cs ns
  | _, _ => None
  end.

(** The outer loop over the candidates, in rank order. *)
Fixpoint detect (candidatos colunas : list string) : option string :=
  match candidatos with
  | [] => None
  | alvo :: rest =>
      match first_with alvo colunas (map Py.lower colunas) with
      | Some c => Some c
      | None => detect rest colunas
      end
  end.

Definition detect_code_column (colunas : list string) : option string :=
  detect code_candidatos colunas.

Definition detect_name_column (colunas : list string) : option string :=
  detect name_candidatos colunas.

(** Truth value of [None] or a string. *)
Definition truthy (o : option string) : bool :=
  match o with
  | Some s => negb (String.eqb s "")
  | None => false
  end.

Definition agg_of (metric : string) : aggfunc :=
  if mem metric METRIC_MEAN then Mean else Sum.

(** What [main] hands to the shapefile writer. *)
Record Exports : Type := mkExports {
  combined : DataFrame;
  total : nat;
  with_data : nat;
  by_year : list (Z * DataFrame)
}.

Section Script.

(** [str(x)] of a float. *)
Variable repr_float : Q -> string.

Context {fp : Float64}.

Definition normalizar_nome (valor : cell) : string :=
  if isna valor then ""
  else
    let valor := to_str repr_float valor in
    let valor := Py.encode_ascii_ignore (Py.nfkd valor) in
    Py.join " " (map Py.title (Py.split valor)).

(** The chain of lines 174-180 and 183-189. *)
Definition code_digits (width : nat) (s : Series) : Series :=
  str_zfill width (fillna_empty (str_replace_non_digits (astype_str repr_float s))).

(** The comparison key of one raw code, in the words of the specification:
    strip the non-digits, left-pad with zeros to the width of the side, take
    the first six characters.  [code6_series] relates it to [code_digits]. *)
Definition code6 (width : nat) (c : cell) : string :=
  let digits := Py.filter_string Py.is_digit (to_str repr_float c) in
  Py.take 6 (Py.zeros (width - String.length digits) ++ digits).

(** Lines 122-146: group, aggregate, pivot, sort and rename the columns. *)
Definition pivot_wide (df : DataFrame) (index_cols metrics : list string)
  : option (DataFrame * option (list cell)) :=
  let agg_dict := map (fun metric => (metric, agg_of metric)) metrics in
  do agrupado <- groupby_agg df (index_cols ++ [YEAR_COLUMN]) agg_dict;
  do pivot <- pivot_table_first agrupado index_cols YEAR_COLUMN metrics;
  let pivot := sort_columns_level1 pivot in
  do labels <-
    all_some
      (map (fun c => option_map (fun year => (fst (fst c) ++ "_" ++ Py.str_int year)%string)
                                (int_of (snd (fst c))))
           (pcolumns pivot));
  do ys <- getitem df YEAR_COLUMN;
  Some (reset_index pivot labels, Some (sorted_unique_notna ys)).

Definition pivotar_dados_por_ano (df : DataFrame)
  : option (DataFrame * option (list cell)) :=
  if negb (mem YEAR_COLUMN (columns df)) || negb (mem "municipio_cod" (columns df))
  then
    if mem YEAR_COLUMN (columns df)
    then do ys <- getitem df YEAR_COLUMN; Some (df, Some (sorted_unique_notna ys))
    else Some (df, None)
  else
    let metrics := filter (fun col => mem col (columns df)) METRIC_COLUMNS in
    match metrics with
    | [] => do ys <- getitem df YEAR_COLUMN; Some (df, Some (sorted_unique_notna ys))
    | _ :: _ =>
        let index_cols :=
          "municipio_cod"
            :: (if mem "municipio_nome" (columns df) then ["municipio_nome"] else []) in
        pivot_wide df index_cols metrics
    end.

(** The dictionary built by the loop of lines 155-162. *)
Definition agg_dict_of (df : DataFrame) (csv_code_col : string)
  : list (string * aggfunc) :=
  flat_map
    (fun ls =>
       let col := fst ls in
       if String.eqb col csv_code_col || String.eqb col YEAR_COLUMN then []
       else if String.eqb col "municipio_nome" then [(col, First)]
       else if is_numeric_dtype (snd ls) then [(col, agg_of col)]
       else [])
    (series df).

Definition agrupar_por_municipio (df : DataFrame) (csv_code_col : string)
  : option DataFrame :=
  if negb (mem csv_code_col (columns df)) then Some df
  else
    match agg_dict_of df csv_code_col with
    | [] => drop_duplicates df csv_code_col
    | agg_dict => groupby_agg df [csv_code_col] agg_dict
    end.

(** [merged[col].notna().sum() if col in merged.columns else 0] *)
Definition count_with_data (merged : DataFrame) : nat :=
  match getitem merged "total_violencia_domestica" with
  | Some s => count_notna s
  | None => 0
  end.

Definition transient_columns : list string :=
  ["__shp_code_digits"; "__shp_code6"; "__csv_code_digits"; "__csv_code6"].

(** The frame with the two helper columns of one side. *)
Definition with_codes (df : DataFrame) (code_col : string) (width : nat)
    (digits_label code6_label : string) : option DataFrame :=
  do raw <- getitem df code_col;
  let df := setitem df digits_label (code_digits width raw) in
  do digits <- getitem df digits_label;
  Some (setitem df code6_label (str_slice_to 6 digits)).

(** Returns the merged frame and the number of matches it prints. *)
Definition preparar_codigos (gdf df : DataFrame) (shp_code_col csv_code_col : string)
  : option (DataFrame * nat) :=
  do gdf <- with_codes gdf shp_code_col 7 "__shp_code_digits" "__shp_code6";
  do df <- with_codes df csv_code_col 6 "__csv_code_digits" "__csv_code6";
  do merged <- merge_left gdf df "__shp_code6" "__csv_code6";
  let matches := count_with_data merged in
  let merged :=
    fold_left drop_present transient_columns merged in
  Some (merged, matches).

Definition with_nome_norm (df : DataFrame) (name_col : string) : option DataFrame :=
  do nomes <- getitem df name_col;
  Some (setitem df "__nome_norm" (apply_str normalizar_nome nomes)).

Definition merge_por_nome (gdf df : DataFrame) (shp_name_col : string)
  : option DataFrame :=
  do gdf_aux <- with_nome_norm gdf shp_name_col;
  do df_aux <- with_nome_norm df "municipio_nome";
  do merged <- merge_left gdf_aux df_aux "__nome_norm" "__nome_norm";
  Some (drop_present merged "__nome_norm").

(** The loop of lines 272-280 over the years. *)
Fixpoint export_years (gdf df_raw : DataFrame) (shp_code_col csv_code_col : string)
    (anos : list cell) : option (list (Z * DataFrame)) :=
  match anos with
  | [] => Some []
  | ano :: rest =>
      do df_ano <- filter_eq df_raw YEAR_COLUMN ano;
      if (nrows df_ano =? 0)%nat || (List.length (series df_ano) =? 0)%nat
      then export_years gdf df_raw shp_code_col csv_code_col rest
      else
        do df_ano_agg <- agrupar_por_municipio df_ano csv_code_col;
        do merged_year <- preparar_codigos gdf df_ano_agg shp_code_col csv_code_col;
        do year <- int_of ano;
        do others <- export_years gdf df_raw shp_code_col csv_code_col rest;
        Some ((year, fst merged_year) :: others)
  end.

(** [main] from line 227 on, the two inputs already read. *)
Definition main (gdf df_raw : DataFrame) : outcome Exports :=
  match pivotar_dados_por_ano df_raw with
  | None => Raised
  | Some (df, anos_disponiveis) =>
      let shp_code_col := detect_code_column (columns gdf) in
      let csv_code_col :=
        if mem "municipio_cod" (columns df) then Some "municipio_cod"
        else detect_code_column (columns df) in
      let by_code :=
        match shp_code_col, csv_code_col with
        | Some shp, Some csv =>
            if truthy shp_code_col && truthy csv_code_col
            then Some (option_map fst (preparar_codigos gdf df shp csv))
            else None
        | _, _ => None
        end in
      let merged :=
        match by_code with
        | Some r => lift r
        | None =>
            match detect_name_column (columns gdf) with
            | Some shp_name_col =>
                if mem "municipio_nome" (columns df)
                then lift (merge_por_nome gdf df shp_name_col)
                else Exit 1
            | None => Exit 1
            end
        end in
      match merged with
      | Ok merged =>
          let years :=
            match anos_disponiveis, shp_code_col, csv_code_col with
            | Some (ano :: anos), Some shp, Some csv =>
                if truthy shp_code_col && truthy csv_code_col
                   && mem YEAR_COLUMN (columns df_raw)
                then export_years gdf df_raw shp csv (ano :: anos)
                else Some []
            | _, _, _ => Some []
            end in
          match years with
          | Some ys => Ok (mkExports merged (len merged) (count_with_data merged) ys)
          | None => Raised
          end
      | Exit code => Exit code
      | Raised => Raised
      end
  end.

End Script.

(** The number of rows in which the column [label] is present and not
    missing, counted row by row. *)
Definition rows_with (label : string) (df : DataFrame) : nat :=
  List.length
    (filter (fun i => match cell_at df label i with
                      | Some c => notna c
                      | None => false
                      end)
            (seq 0 (nrows df))).

(** ** The vocabulary of the joins *)

(** The last character of a text. *)
Fixpoint last_char (s : string) : option ascii :=
  match s with
  | EmptyString => None
  | String c EmptyString => Some c
  | String _ r => last_char r
  end.

(** A label as the merge leaves it: unchanged, or with the suffix of its
    side. *)
Definition relabelled (suffix l l' : string) : Prop :=
  l' = l \/ l' = (l ++ suffix)%string.

(** [merged] is the frame of a left join of [left] and [right] through the
    row indexer [idx]: it has one row per entry of the indexer, and every
    column of either input, the [dropped] ones apart, is in it, taken
    through the indexer: row [r] holds the cells of the feature and of the
    record that entry [r] of the indexer names, and missing values in the
    columns of the table when it names no record. *)
Definition joins_through (idx : list (nat * option nat)) (left right merged : DataFrame)
    (dropped : list string) : Prop :=
  nrows merged = List.length idx
  /\ (forall l s, In (l, s) (series left) -> ~ In l dropped ->
        exists l', relabelled "_x" l l' /\ In (l', take_left idx s) (series merged))
  /\ (forall l s, In (l, s) (series right) -> ~ In l dropped ->
        exists l', relabelled "_y" l l' /\ In (l', take_right idx s) (series merged)).

(** Row [r] of [merged] holds feature [i] of [left] and record [j] of
    [right]: in every column that comes from [left] the cell of row [i], in
    every column that comes from [right] the cell of row [j] (an integer
    possibly as the float of the same value).  The columns [dropped] are
    left out. *)
Definition row_pairs (left right merged : DataFrame) (dropped : list string)
    (r i j : nat) : Prop :=
  r < nrows merged
  /\ (forall l s, In (l, s) (series left) -> ~ In l dropped ->
        exists l' s', relabelled "_x" l l' /\ In (l', s') (series merged)
                      /\ nth r (values s') NA = nth i (values s) NA)
  /\ (forall l s, In (l, s) (series right) -> ~ In l dropped ->
        exists l' s', relabelled "_y" l l' /\ In (l', s') (series merged)
                      /\ cell_eq (nth r (values s') NA) (nth j (values s) NA)).

(** A label of both frames: the merge gives it a suffix on either side. *)
Definition overlapping (left right : DataFrame) (l : string) : bool :=
  mem l (columns left) && mem l (columns right).

(** The frame of a left join on key columns that are not kept: the left
    columns, then the right ones, all taken through the row indexer, the
    labels of both sides suffixed. *)
Definition joined_suffixed (idx : list (nat * option nat)) (left right : DataFrame)
  : DataFrame :=
  mkDF (List.length idx)
    (map (fun ls => (suffixed (overlapping left right) "_x" (fst ls),
                     take_left idx (snd ls))) (series left)
     ++ map (fun ls => (suffixed (overlapping left right) "_y" (fst ls),
                        take_right idx (snd ls))) (series right)).

(** An entry of the indexer with a record whose cell in [s] is not
    missing. *)
Definition matched_with (s : Series) (ij : nat * option nat) : bool :=
  match snd ij with
  | Some j => notna (nth j (values s) NA)
  | None => false
  end.

(** The number of rows in which one of the columns [labels] is present and
    not missing. *)
Definition rows_with_any (labels : list string) (df : DataFrame) : nat :=
  List.length
    (filter (fun i => existsb (fun label => match cell_at df label i with
                                            | Some c => notna c
                                            | None => false
                                            end) labels)
            (seq 0 (nrows df))).

(** The values of a column in the records whose code is [k]. *)
Definition group_cells (codes : list cell) (k : cell) (vals : list cell) : list cell :=
  map snd (filter (fun cv => cell_eqb (fst cv) k) (combine codes vals)).

(** A column reduced code by code. *)
Definition aggregated {fp : Float64} (codes_in codes : list cell) (f : aggfunc) (s : Series)
  : Series :=
  mkSeries (result_dtype f (dtype_of s))
    (map (fun k => reduce_or_na f (dtype_of s) (group_cells codes_in k (values s))) codes).

Definition keys_eq (a b : list cell) : Prop := keys_eqb a b = true.

(** A column without missing values. *)
Definition all_notna (s : Series) : Prop := forallb notna (values s) = true.

(** A column of [n] values, none missing. *)
Definition good_values (n : nat) (s : Series) : Prop :=
  all_notna s /\ List.length (values s) = n.

(** The name [metric_year] of a pivoted column. *)
Definition column_label (metric : string) (year : cell) : string :=
  (metric ++ "_" ++ Py.str_int (match int_of year with Some z => z | None => 0%Z end))%string.

(** The order of the renamed columns: by year, then by metric. *)
Definition level1_leb (a b : string * cell) : bool :=
  keys_leb [snd a; Txt (fst a)] [snd b; Txt (fst b)].

(** Raw codes without a digit, missing ones among them. *)
Definition no_digits (repr_float : Q -> string) (c : cell) : Prop :=
  Py.filter_string Py.is_digit (to_str repr_float c) = "".

(** A printer for the floats with an integral value (of less than seventeen
    digits, which Python prints as [<integer>.0]); it instantiates
    [repr_float] in the examples. *)
Definition repr_integral_float (q : Q) : string :=
  (Py.str_int (Z.quot (Qnum q) (Zpos (Qden q))) ++ ".0")%string.

(** The three spellings of the specification; U+00E3 is a-tilde, U+00C3 is
    A-tilde. *)
Definition a_tilde : string := String (Py.chr 227) "".
Definition A_tilde : string := String (Py.chr 195) "".
Definition nome_acentuado : string :=
  ("S" ++ a_tilde ++ "o Jo" ++ a_tilde ++ "o del-Rei")%string.
Definition nome_minusculo : string := "sao joao del rei".
Definition nome_maiusculo : string :=
  ("S" ++ A_tilde ++ "O JO" ++ A_tilde ++ "O DEL REI")%string.

(** ** Example inputs *)

(** Two features, with the seven-digit codes of the end-to-end scenario. *)
Definition gdf_exemplo : DataFrame :=
  mkDF 2 [("CD_MUN", mkSeries object [Txt "3106200"; Txt "3170206"]);
          ("NM_MUN", mkSeries object [Txt "Belo Horizonte"; Txt "Uberaba"]);
          ("geometry", mkSeries object [Txt "POLYGON 1"; Txt "POLYGON 2"])].

(** A long table: Belo Horizonte in two years, Uberaba in one. *)
Definition df_longo : DataFrame :=
  mkDF 3 [("municipio_cod", mkSeries int64 [Int 310620; Int 310620; Int 317020]);
          ("municipio_nome",
           mkSeries object [Txt "BELO HORIZONTE"; Txt "BELO HORIZONTE"; Txt "UBERABA"]);
          ("ano", mkSeries int64 [Int 2022; Int 2023; Int 2022]);
          ("total_violencia_domestica", mkSeries int64 [Int 10; Int 15; Int 4])].

(** The long table without its year column, and without year and code
    columns: [main] joins these as they are. *)
Definition df_sem_ano : DataFrame :=
  mkDF 3 [("municipio_cod", mkSeries int64 [Int 310620; Int 310620; Int 317020]);
          ("municipio_nome",
           mkSeries object [Txt "BELO HORIZONTE"; Txt "BELO HORIZONTE"; Txt "UBERABA"]);
          ("total_violencia_domestica", mkSeries int64 [Int 10; Int 15; Int 4])].

Definition df_sem_ano_sem_codigo : DataFrame :=
  mkDF 3 [("municipio_nome",
           mkSeries object [Txt "BELO HORIZONTE"; Txt "BELO HORIZONTE"; Txt "UBERABA"]);
          ("total_violencia_domestica", mkSeries int64 [Int 10; Int 15; Int 4])].

(** One feature and one record, neither with a code or a name. *)
Definition gdf_sem_id : DataFrame :=
  mkDF 1 [("CD_MUN", mkSeries object [NA]);
          ("NM_MUN", mkSeries object [NA]);
          ("geometry", mkSeries object [Txt "POLYGON 1"])].

Definition df_sem_id : DataFrame :=
  mkDF 1 [("municipio_cod", mkSeries float64 [NA]);
          ("municipio_nome", mkSeries object [NA]);
          ("total_violencia_domestica", mkSeries int64 [Int 7])].

(** The table of one year: one record per municipality. *)
Definition df_um_ano : DataFrame :=
  mkDF 2 [("municipio_cod", mkSeries int64 [Int 310620; Int 317020]);
          ("municipio_nome", mkSeries object [Txt "BELO HORIZONTE"; Txt "UBERABA"]);
          ("total_violencia_domestica", mkSeries int64 [Int 10; Int 4])].

(** A shapefile and a table that only share names. *)
Definition gdf_so_nome : DataFrame :=
  mkDF 2 [("NM_MUN", mkSeries object [Txt "Belo Horizonte"; Txt "Uberaba"]);
          ("geometry", mkSeries object [Txt "POLYGON 1"; Txt "POLYGON 2"])].

Definition df_so_nome : DataFrame :=
  mkDF 1 [("municipio_nome", mkSeries object [Txt "UBERABA"]);
          ("total_violencia_domestica", mkSeries int64 [Int 4])].

(** A table without the code column, its two rows equal. *)
Definition df_sem_codigo : DataFrame :=
  mkDF 2 [("municipio_nome", mkSeries object [Txt "Uberaba"; Txt "Uberaba"]);
          ("feminicidios", mkSeries int64 [Int 1; Int 1])].

(** Two records of one municipality in one year, with a rate, a count and
    a text column. *)
Definition df_mesmo_municipio : DataFrame :=
  mkDF 2 [("municipio_cod", mkSeries int64 [Int 310620; Int 310620]);
          ("ano", mkSeries int64 [Int 2022; Int 2022]);
          ("taxa_feminicidio", mkSeries float64 [Flt (Qmake 2 1); Flt (Qmake 4 1)]);
          ("total_violencia_domestica", mkSeries int64 [Int 10; Int 15]);
          ("fonte", mkSeries object [Txt "SSP"; Txt "SSP"])].

(** A table with nothing to aggregate: code and year only. *)
Definition df_codigo_ano : DataFrame :=
  mkDF 2 [("municipio_cod", mkSeries int64 [Int 310620; Int 310620]);
          ("ano", mkSeries int64 [Int 2022; Int 2022])].

(** The records of municipality X of the specification. *)
Definition df_X : DataFrame :=
  mkDF 2 [("municipio_cod", mkSeries int64 [Int 310620; Int 310620]);
          ("ano", mkSeries int64 [Int 2022; Int 2023]);
          ("feminicidios", mkSeries int64 [Int 3; Int 5])].

(** One municipality, two metrics, two years, and two spellings of its
    name. *)
Definition df_dois_nomes : DataFrame :=
  mkDF 2 [("municipio_cod", mkSeries int64 [Int 310620; Int 310620]);
          ("municipio_nome", mkSeries object [Txt "Belo Horizonte"; Txt "BELO HORIZONTE"]);
          ("ano", mkSeries int64 [Int 2022; Int 2023]);
          ("total_violencia_domestica", mkSeries int64 [Int 10; Int 20]);
          ("feminicidios", mkSeries int64 [Int 3; Int 5])].

(** The column order in the words of the specification: one group per
    metric, the years in order within each group. *)
Definition metric_major (metrics : list string) (years : list cell) : list string :=
  flat_map (fun m => map (column_label m) years) metrics.

(** A table with year and code but no metric. *)
Definition df_sem_metricas : DataFrame :=
  mkDF 3 [("municipio_cod", mkSeries int64 [Int 310620; Int 310620; Int 317020]);
          ("ano", mkSeries int64 [Int 2023; Int 2022; Int 2023]);
          ("populacao", mkSeries int64 [Int 100; Int 101; Int 50])].

(** A table of one year with the metric [feminicidios] only. *)
Definition df_so_feminicidios : DataFrame :=
  mkDF 2 [("municipio_cod", mkSeries int64 [Int 310620; Int 317020]);
          ("feminicidios", mkSeries int64 [Int 3; Int 1])].

(** A table of one year that has a column with the label of a helper
    column of the code join. *)
Definition df_rotulo_auxiliar : DataFrame :=
  mkDF 2 [("municipio_cod", mkSeries int64 [Int 310620; Int 317020]);
          ("__shp_code6", mkSeries object [Txt "a"; Txt "b"]);
          ("total_violencia_domestica", mkSeries int64 [Int 10; Int 4])].

(** ** Loading the shapefile *)

Definition ESTADO_SIGLA : string := "MG".

(** [df[mask]] for the mask [p] over the column [label] *)
Definition filter_mask (df : DataFrame) (label : string) (p : cell -> bool)
  : option DataFrame :=
  match getitem df label with
  | Some s => Some (take_rows (positions p (values s)) df)
  | None => None
  end.

Section Loader.

Variable repr_float : Q -> string.

Context {fp : Float64}.

(** [str(x).upper() == ESTADO_SIGLA] *)
Definition is_estado (c : cell) : bool :=
  if list_eq_dec N.eq_dec (Py.upper (to_str repr_float c)) (Py.points ESTADO_SIGLA)
  then true else false.

(** [mg] and [br] are the contents of the two shapefiles, [None] for a file
    that does not exist. *)
Definition carregar_shapefile (mg br : option DataFrame) : outcome DataFrame :=
  match mg with
  | Some gdf => Ok gdf
  | None =>
      match br with
      | None => Exit 1
      | Some gdf_brasil =>
          if negb (mem "SIGLA" (columns gdf_brasil)) then Exit 1
          else lift (filter_mask gdf_brasil "SIGLA" is_estado)
      end
  end.

(** The whole of [main]: lines 219-225 on the contents of the three files
    ([None] for a file that does not exist), then [main] on the two inputs. *)
Definition main_from_files (csv mg br : option DataFrame) : outcome Exports :=
  match csv with
  | None => Exit 1
  | Some df_raw =>
      match carregar_shapefile mg br with
      | Ok gdf => main repr_float gdf df_raw
      | Exit code => Exit code
      | Raised => Raised
      end
  end.

End Loader.

(** ** Vocabulary of the further properties *)

(** Characters and words, for the name normalizer. *)
Definition is_ascii (c : ascii) : bool := (Py.ord c <? 128)%N.
Definition not_space (c : ascii) : bool := negb (Py.is_space c).
Definition is_cased (c : ascii) : bool := Py.is_ascii_upper c || Py.is_ascii_lower c.

(** One step of [Py.title_from]. *)
Definition title_char (previous_is_cased : bool) (c : ascii) : ascii :=
  if previous_is_cased then Py.lower_char c else Py.upper_ascii_char c.

(** A piece of [split]: not empty, no white space. *)
Definition is_word (w : string) : bool :=
  negb (String.length w =? 0)%nat && Py.forall_string not_space w.

(** A text of exactly six decimal digits. *)
Definition six_digits (c : cell) : Prop :=
  exists k, c = Txt k /\ String.length k = 6
            /\ Py.forall_string Py.is_digit k = true.

(** The first right row with the key [k], if any. *)
Definition match_of (rk : list cell) (k : cell) : option nat :=
  hd_error (positions (cell_eqb k) rk).

(** The frame of a left join without a shared label: the left columns, then
    the right ones, both taken through the row indexer. *)
Definition joined (idx : list (nat * option nat)) (left right : list (string * Series))
  : DataFrame :=
  mkDF (List.length idx)
    (map (fun ls => (fst ls, take_left idx (snd ls))) left
     ++ map (fun ls => (fst ls, take_right idx (snd ls))) right).

(** No label of [a] is a label of [b]. *)
Definition disjoint (a b : list string) : bool :=
  forallb (fun l => negb (mem l b)) a.

(** The table-side code column [main] uses (line 230). *)
Definition csv_code_column (df : DataFrame) : option string :=
  if mem "municipio_cod" (columns df) then Some "municipio_cod"
  else detect_code_column (columns df).

(** What [main] hands on after the join (lines 249-280), given the joined
    frame and the per-year frames. *)
Definition finish (merged : option DataFrame) (years : option (list (Z * DataFrame)))
  : outcome Exports :=
  match merged, years with
  | Some merged, Some ys => Ok (mkExports merged (len merged) (count_with_data merged) ys)
  | _, _ => Raised
  end.

(** Not equal to any value seen so far. *)
Definition unseen (seen : list cell) (c : cell) : bool := negb (existsb (cell_eqb c) seen).

(** The number of rows a left join gives a feature with the key [k]: one per
    record with that key, and one when there is none. *)
Definition rows_for (key : cell -> string) (records : list cell) (k : string) : nat :=
  Nat.max 1 (List.length (filter (fun t => String.eqb k (key t)) records)).

Section Indexers.

Variable repr_float : Q -> string.

(** The row indexers of the two joins, from the raw key columns. *)
Definition code_indexer (s_g s_d : Series) : list (nat * option nat) :=
  left_join_indexer (map (fun c => Txt (code6 repr_float 7 c)) (values s_g))
                    (map (fun c => Txt (code6 repr_float 6 c)) (values s_d)).

Definition name_indexer (s_g s_d : Series) : list (nat * option nat) :=
  left_join_indexer (map (fun c => Txt (normalizar_nome repr_float c)) (values s_g))
                    (map (fun c => Txt (normalizar_nome repr_float c)) (values s_d)).

(** The position of the record a feature is joined to, by code and by name. *)
Definition code_match (s_d : Series) (g : cell) : option nat :=
  match_of (map (fun c => Txt (code6 repr_float 6 c)) (values s_d))
           (Txt (code6 repr_float 7 g)).

Definition name_match (s_d : Series) (g : cell) : option nat :=
  match_of (map (fun c => Txt (normalizar_nome repr_float c)) (values s_d))
           (Txt (normalizar_nome repr_float g)).

End Indexers.

(** A shapefile of the whole country: two features of Minas Gerais, in two
    spellings of the state, and one of another state. *)
Definition gdf_brasil_exemplo : DataFrame :=
  mkDF 3 [("SIGLA", mkSeries object [Txt "MG"; Txt "SP"; Txt "mg"]);
          ("NM_MUN", mkSeries object [Txt "Uberaba"; Txt "Santos"; Txt "Betim"])].

(** * Properties *)

Section Arithmetic.

Context {fp : Float64}.

(** ** Strings *)

Lemma append_empty_r (s : string) : (s ++ "")%string = s.
Proof. induction s as [|c s IH]; simpl; [reflexivity | now rewrite IH]. Qed.

Lemma length_append (s t : string) :
  String.length (s ++ t) = String.length s + String.length t.
Proof. induction s as [|c s IH]; simpl; [reflexivity | now rewrite IH]. Qed.

Lemma length_zeros (n : nat) : String.length (Py.zeros n) = n.
Proof. induction n as [|n IH]; simpl; [reflexivity | now rewrite IH]. Qed.

Lemma take_append (n : nat) (s t : string) :
  n <= String.length s -> Py.take n (s ++ t) = Py.take n s.
Proof.
  revert s; induction n as [|n IH]; intros [|c s] H; simpl in *; try reflexivity; try lia.
  rewrite IH by lia. reflexivity.
Qed.

Lemma filter_string_digits (s : string) :
  Py.forall_string Py.is_digit (Py.filter_string Py.is_digit s) = true.
Proof.
  induction s as [|c s IH]; simpl; [reflexivity|].
  destruct (Py.is_digit c) eqn:E; simpl; [rewrite E|]; exact IH.
Qed.

(** A digit is no sign, so [zfill] pads a digit string on the left. *)
Lemma zfill_digits (w : nat) (s : string) :
  Py.forall_string Py.is_digit s = true ->
  Py.zfill w s = (Py.zeros (w - String.length s) ++ s)%string.
Proof.
  destruct s as [|c s]; simpl.
  - intros _. rewrite Nat.sub_0_r, append_empty_r. reflexivity.
  - intros H. apply andb_true_iff in H as [Hc _].
    unfold Py.is_digit, Py.between in Hc. apply andb_true_iff in Hc as [H1 H2].
    apply N.leb_le in H1.
    replace (Py.ord c =? 43)%N with false by (symmetry; apply N.eqb_neq; lia).
    replace (Py.ord c =? 45)%N with false by (symmetry; apply N.eqb_neq; lia).
    reflexivity.
Qed.

(** ** Columns of a frame *)

Lemma mem_true_iff l ls : mem l ls = true <-> In l ls.
Proof.
  unfold mem. rewrite existsb_exists. split.
  - intros [x [Hx He]]. apply String.eqb_eq in He. now subst.
  - intros H. exists l. split; [assumption | apply String.eqb_refl].
Qed.

Lemma lookup_In l xs s : lookup l xs = Some s -> In (l, s) xs.
Proof.
  induction xs as [|[l0 s0] xs IH]; simpl; [discriminate|].
  destruct (String.eqb l0 l) eqn:E.
  - apply String.eqb_eq in E. intros [= <-]. left. now subst.
  - intros H. right. now apply IH.
Qed.

Lemma lookup_mem l (xs : list (string * Series)) : mem l (map fst xs) = true -> exists s, lookup l xs = Some s.
Proof.
  induction xs as [|[l0 s0] xs IH]; simpl; [discriminate|].
  rewrite String.eqb_sym.
  destruct (String.eqb l0 l) eqn:E; simpl; [eauto | exact IH].
Qed.

Lemma lookup_Some_mem l xs s : lookup l xs = Some s -> mem l (map fst xs) = true.
Proof.
  intros H. apply mem_true_iff. apply lookup_In in H.
  change l with (fst (l, s)). now apply in_map.
Qed.

Lemma lookup_assign_same l s xs : lookup l (assign l s xs) = Some s.
Proof.
  induction xs as [|[l0 s0] xs IH]; simpl.
  - now rewrite String.eqb_refl.
  - destruct (String.eqb l0 l) eqn:E; simpl.
    + now rewrite String.eqb_refl.
    + now rewrite E.
Qed.

Lemma lookup_assign_other l l' s xs :
  l' <> l -> lookup l' (assign l s xs) = lookup l' xs.
Proof.
  intros Hne. induction xs as [|[l0 s0] xs IH]; simpl.
  - apply String.eqb_neq in Hne. rewrite String.eqb_sym in Hne. now rewrite Hne.
  - destruct (String.eqb l0 l) eqn:E; simpl.
    + apply String.eqb_eq in E. subst l0.
      assert (String.eqb l l' = false) as -> by (apply String.eqb_neq; congruence).
      reflexivity.
    + destruct (String.eqb l0 l'); [reflexivity | exact IH].
Qed.

Lemma lookup_filter_other l col xs :
  l <> col ->
  lookup l (filter (fun ls => negb (String.eqb (fst ls) col)) xs) = lookup l xs.
Proof.
  intros Hne. induction xs as [|[l0 s0] xs IH]; simpl; [reflexivity|].
  destruct (String.eqb l0 col) eqn:E; simpl.
  - apply String.eqb_eq in E. subst l0.
    assert (String.eqb col l = false) as -> by (apply String.eqb_neq; congruence).
    exact IH.
  - destruct (String.eqb l0 l); [reflexivity | exact IH].
Qed.

Lemma mem_filter_same col (xs : list (string * Series)) :
  mem col (map fst (filter (fun ls => negb (String.eqb (fst ls) col)) xs)) = false.
Proof.
  induction xs as [|[l0 s0] xs IH]; simpl; [reflexivity|].
  destruct (String.eqb l0 col) eqn:E; simpl; [exact IH|].
  rewrite String.eqb_sym, E. exact IH.
Qed.

Lemma mem_filter_absent l col (xs : list (string * Series)) :
  mem l (map fst xs) = false ->
  mem l (map fst (filter (fun ls => negb (String.eqb (fst ls) col)) xs)) = false.
Proof.
  induction xs as [|[l0 s0] xs IH]; simpl; [reflexivity|].
  intros H. apply orb_false_iff in H as [H1 H2].
  destruct (String.eqb l0 col); simpl; [now apply IH|].
  rewrite H1. now apply IH.
Qed.

(** Equality of keys is an equivalence. *)
Lemma cell_eqb_refl c : cell_eqb c c = true.
Proof.
  destruct c; simpl; try reflexivity.
  - apply Qeq_bool_iff. reflexivity.
  - apply Qeq_bool_iff. reflexivity.
  - apply String.eqb_refl.
Qed.

Lemma cell_eqb_sym a b : cell_eqb a b = cell_eqb b a.
Proof.
  destruct a, b; simpl; try reflexivity;
    try (apply eq_true_iff_eq; rewrite !Qeq_bool_iff; split; intros H; now symmetry).
  apply String.eqb_sym.
Qed.

Lemma cell_eqb_trans a b c :
  cell_eqb a b = true -> cell_eqb b c = true -> cell_eqb a c = true.
Proof.
  destruct a, b, c; simpl; try discriminate; try reflexivity;
    try (rewrite !Qeq_bool_iff; intros H1 H2; now rewrite H1).
  rewrite !String.eqb_eq. congruence.
Qed.

(** ** The left join *)

Lemma In_combine_seq {A} (l : list A) a i x :
  nth_error l i = Some x -> In (a + i, x) (combine (seq a (List.length l)) l).
Proof.
  revert a i. induction l as [|h t IH]; intros a [|i] H; simpl in *; try discriminate.
  - injection H as ->. left. f_equal. lia.
  - right. replace (a + S i) with (S a + i) by lia. now apply IH.
Qed.

Lemma length_combine_seq {A} (l : list A) a :
  List.length (combine (seq a (List.length l)) l) = List.length l.
Proof. rewrite length_combine, length_seq. lia. Qed.

Lemma positions_from_length {A} (p : A -> bool) (l : list A) a :
  List.length (map fst (filter (fun ic => p (snd ic)) (combine (seq a (List.length l)) l)))
  = List.length (filter p l).
Proof.
  revert a. induction l as [|h t IH]; intros a; simpl; [reflexivity|].
  destruct (p h); simpl; now rewrite IH.
Qed.

Lemma length_positions {A} (p : A -> bool) (l : list A) :
  List.length (positions p l) = List.length (filter p l).
Proof. apply positions_from_length. Qed.

Lemma In_positions {A} (p : A -> bool) (l : list A) j c :
  nth_error l j = Some c -> p c = true -> In j (positions p l).
Proof.
  intros Hn Hp. unfold positions.
  change j with (fst (j, c)). apply in_map. apply filter_In. split; [|exact Hp].
  apply (In_combine_seq l 0 j c Hn).
Qed.

Lemma length_left_rows_ge rk ik : 1 <= List.length (left_rows rk ik).
Proof.
  unfold left_rows. destruct (positions _ rk); simpl; [lia|]. lia.
Qed.

Lemma length_left_rows_one rk ik :
  List.length (filter (cell_eqb (snd ik)) rk) <= 1 -> List.length (left_rows rk ik) = 1.
Proof.
  unfold left_rows. rewrite <- length_positions.
  destruct (positions _ rk) as [|j [|j' js]]; simpl; intros H; try reflexivity. lia.
Qed.

Lemma length_flat_map_ge {A B} (f : A -> list B) l :
  (forall x, 1 <= List.length (f x)) -> List.length l <= List.length (flat_map f l).
Proof.
  intros H. induction l as [|x l IH]; simpl; [lia|].
  rewrite length_app. specialize (H x). lia.
Qed.

Lemma length_flat_map_one {A B} (f : A -> list B) l :
  (forall x, In x l -> List.length (f x) = 1) -> List.length (flat_map f l) = List.length l.
Proof.
  intros H. induction l as [|x l IH]; simpl; [reflexivity|].
  rewrite length_app, H by now left. rewrite IH; [reflexivity|].
  intros y Hy. apply H. now right.
Qed.

(** No feature is dropped. *)
Lemma length_left_join_indexer_ge lk rk :
  List.length lk <= List.length (left_join_indexer lk rk).
Proof.
  unfold left_join_indexer.
  rewrite <- (length_combine_seq lk 0) at 1.
  apply length_flat_map_ge. intros x. apply length_left_rows_ge.
Qed.

Lemma filter_eqb_unique k rk :
  NoDupA cell_eq rk -> List.length (filter (cell_eqb k) rk) <= 1.
Proof.
  induction 1 as [|h t Hnin Hnd IH]; simpl; [lia|].
  destruct (cell_eqb k h) eqn:E; [|exact IH].
  simpl. enough (filter (cell_eqb k) t = []) as -> by (simpl; lia).
  destruct (filter (cell_eqb k) t) as [|x xs] eqn:F; [reflexivity|].
  exfalso. apply Hnin.
  assert (In x (filter (cell_eqb k) t)) as Hx by (rewrite F; now left).
  apply filter_In in Hx as [Hx1 Hx2].
  apply InA_alt. exists x. split; [|exact Hx1].
  unfold cell_eq. apply cell_eqb_trans with k; [|exact Hx2].
  now rewrite cell_eqb_sym.
Qed.

(** With distinct keys on the right no feature is duplicated. *)
Lemma length_left_join_indexer_unique lk rk :
  NoDupA cell_eq rk -> List.length (left_join_indexer lk rk) = List.length lk.
Proof.
  intros H. unfold left_join_indexer.
  rewrite length_flat_map_one; [apply length_combine_seq|].
  intros x _. apply length_left_rows_one. now apply filter_eqb_unique.
Qed.

Lemma NoDupA_Txt (l : list string) : NoDup l -> NoDupA cell_eq (map Txt l).
Proof.
  induction 1 as [|x l Hnin Hnd IH]; simpl; constructor; [|exact IH].
  intros H. apply InA_alt in H as [y [Hxy Hy]].
  apply in_map_iff in Hy as [z [<- Hz]].
  unfold cell_eq in Hxy. simpl in Hxy. apply String.eqb_eq in Hxy. now subst.
Qed.

(** Rows with equal keys are paired. *)
Lemma left_join_indexer_pairs lk rk i j a b :
  nth_error lk i = Some a -> nth_error rk j = Some b -> cell_eqb a b = true ->
  In (i, Some j) (left_join_indexer lk rk).
Proof.
  intros Hi Hj E. unfold left_join_indexer. apply in_flat_map.
  exists (i, a). split; [apply (In_combine_seq lk 0 i a Hi)|].
  unfold left_rows. simpl.
  pose proof (In_positions (cell_eqb a) rk j b Hj E) as Hin.
  destruct (positions (cell_eqb a) rk) as [|j0 js]; [destruct Hin|].
  exact (in_map (fun j => (i, Some j)) (j0 :: js) j Hin).
Qed.

(** ** Dropping columns, merging, counting *)

Lemma wf_length df l s : wf df -> getitem df l = Some s -> List.length (values s) = nrows df.
Proof.
  intros [_ H] Hl. apply lookup_In in Hl.
  rewrite Forall_forall in H. apply (H (l, s) Hl).
Qed.

Lemma getitem_setitem_same df l s : getitem (setitem df l s) l = Some s.
Proof. apply lookup_assign_same. Qed.

Lemma getitem_setitem_other df l l' s :
  l' <> l -> getitem (setitem df l s) l' = getitem df l'.
Proof. apply lookup_assign_other. Qed.

Lemma getitem_drop_other df l col : l <> col -> getitem (drop col df) l = getitem df l.
Proof. apply lookup_filter_other. Qed.

Lemma mem_drop_same df col : mem col (columns (drop col df)) = false.
Proof. apply mem_filter_same. Qed.

Lemma mem_drop_absent df l col :
  mem l (columns df) = false -> mem l (columns (drop col df)) = false.
Proof. apply mem_filter_absent. Qed.

Lemma drop_present_nrows m col : nrows (drop_present m col) = nrows m.
Proof. unfold drop_present. destruct (mem col (columns m)); reflexivity. Qed.

Lemma drop_present_absent m col : mem col (columns (drop_present m col)) = false.
Proof.
  unfold drop_present. destruct (mem col (columns m)) eqn:E; [apply mem_drop_same | exact E].
Qed.

Lemma drop_present_keeps_absent m l col :
  mem l (columns m) = false -> mem l (columns (drop_present m col)) = false.
Proof.
  unfold drop_present. destruct (mem col (columns m)); [apply mem_drop_absent | trivial].
Qed.

Lemma drop_present_getitem m l col :
  l <> col -> getitem (drop_present m col) l = getitem m l.
Proof.
  unfold drop_present. destruct (mem col (columns m)); [apply getitem_drop_other | reflexivity].
Qed.

Lemma fold_drop_nrows cols m : nrows (fold_left drop_present cols m) = nrows m.
Proof.
  revert m. induction cols as [|c cs IH]; intros m; simpl; [reflexivity|].
  now rewrite IH, drop_present_nrows.
Qed.

Lemma fold_drop_keeps_absent cols m l :
  mem l (columns m) = false -> mem l (columns (fold_left drop_present cols m)) = false.
Proof.
  revert m. induction cols as [|c cs IH]; intros m H; simpl; [exact H|].
  apply IH. now apply drop_present_keeps_absent.
Qed.

Lemma fold_drop_absent cols m :
  Forall (fun col => mem col (columns (fold_left drop_present cols m)) = false) cols.
Proof.
  revert m. induction cols as [|c cs IH]; intros m; simpl; constructor; [|apply IH].
  apply fold_drop_keeps_absent, drop_present_absent.
Qed.

Lemma fold_drop_getitem cols m l :
  ~ In l cols -> getitem (fold_left drop_present cols m) l = getitem m l.
Proof.
  revert m. induction cols as [|c cs IH]; intros m H; simpl; [reflexivity|].
  rewrite IH by (intros F; apply H; now right).
  apply drop_present_getitem. intros ->. apply H. now left.
Qed.

(** A merged frame has one row per entry of the indexer, in every column. *)
Lemma merge_left_Some left right lo ro lk rk :
  getitem left lo = Some lk -> getitem right ro = Some rk ->
  exists m, merge_left left right lo ro = Some m
    /\ nrows m = List.length (left_join_indexer (values lk) (values rk))
    /\ rect m.
Proof.
  intros Hl Hr. unfold merge_left. rewrite Hl, Hr.
  eexists. split; [reflexivity|]. split; [reflexivity|].
  unfold rect. simpl. apply Forall_app. split; apply Forall_map, Forall_forall;
    intros ls _; simpl; now rewrite length_map.
Qed.

Lemma rect_drop_present m col : rect m -> rect (drop_present m col).
Proof.
  unfold rect, drop_present. intros H. destruct (mem col (columns m)); [|exact H].
  simpl. apply Forall_forall. intros ls Hls. apply filter_In in Hls as [Hls _].
  rewrite Forall_forall in H. now apply H.
Qed.

Lemma rect_fold_drop cols m : rect m -> rect (fold_left drop_present cols m).
Proof.
  revert m. induction cols as [|c cs IH]; intros m H; simpl; [exact H|].
  apply IH. now apply rect_drop_present.
Qed.

Lemma rect_length m l s : rect m -> getitem m l = Some s -> List.length (values s) = nrows m.
Proof.
  intros H Hl. apply lookup_In in Hl. unfold rect in H.
  rewrite Forall_forall in H. apply (H (l, s) Hl).
Qed.

Lemma count_notna_rows (l : list cell) a :
  List.length (filter notna l)
  = List.length (filter (fun i => match nth_error l (i - a) with
                                  | Some c => notna c
                                  | None => false
                                  end) (seq a (List.length l))).
Proof.
  revert a. induction l as [|c l IH]; intros a; simpl; [reflexivity|].
  replace (a - a) with 0 by lia. simpl.
  assert (E : filter (fun i => match nth_error (c :: l) (i - a) with
                               | Some c0 => notna c0 | None => false end)
                     (seq (S a) (List.length l))
              = filter (fun i => match nth_error l (i - S a) with
                                 | Some c0 => notna c0 | None => false end)
                       (seq (S a) (List.length l))).
  { apply filter_ext_in. intros i Hi. apply in_seq in Hi.
    replace (i - a) with (S (i - S a)) by lia. reflexivity. }
  rewrite E. destruct (notna c); simpl; now rewrite <- IH.
Qed.

Lemma count_with_data_rows m : rect m -> count_with_data m = rows_with "total_violencia_domestica" m.
Proof.
  intros H. unfold count_with_data, rows_with, cell_at.
  destruct (getitem m "total_violencia_domestica") as [s|] eqn:E.
  - unfold count_notna. rewrite (count_notna_rows (values s) 0), (rect_length _ _ _ H E).
    f_equal. apply filter_ext. intros i. now rewrite Nat.sub_0_r.
  - induction (seq 0 (nrows m)) as [|i l IH]; simpl; [reflexivity | exact IH].
Qed.

(** ** Sorting and distinct values *)

Section ListFacts.
Context {A : Type}.
Variable eqb : A -> A -> bool.
Variable leb : A -> A -> bool.
Let eqA (a b : A) : Prop := eqb a b = true.
Let leA (a b : A) : Prop := leb a b = true.

Lemma insert_perm x l : Permutation (insert leb x l) (x :: l).
Proof.
  induction l as [|h t IH]; simpl; [reflexivity|].
  destruct (leb x h); [reflexivity|].
  rewrite IH. apply perm_swap.
Qed.

Lemma sort_perm l : Permutation (sort leb l) l.
Proof.
  induction l as [|x l IH]; simpl; [reflexivity|].
  unfold sort in *. simpl. rewrite insert_perm. now constructor.
Qed.

Hypothesis leb_total : forall a b, leb a b = true \/ leb b a = true.

Lemma insert_sorted x l : Sorted leA l -> Sorted leA (insert leb x l).
Proof.
  induction 1 as [|h t Hs IH Hh]; simpl; [repeat constructor|].
  destruct (leb x h) eqn:E.
  - constructor; [now constructor | now constructor].
  - constructor; [exact IH|].
    destruct t as [|h' t']; simpl.
    + constructor. destruct (leb_total x h) as [F|F]; [congruence | exact F].
    + destruct (leb x h'); constructor.
      * destruct (leb_total x h) as [F|F]; [congruence | exact F].
      * now inversion Hh.
Qed.

Lemma sort_sorted l : Sorted leA (sort leb l).
Proof.
  induction l as [|x l IH]; simpl; [constructor|].
  unfold sort in *. simpl. now apply insert_sorted.
Qed.

Lemma insert_head x l : Sorted leA (x :: l) -> insert leb x l = x :: l.
Proof.
  intros H. destruct l as [|h t]; simpl; [reflexivity|].
  inversion H as [|? ? _ Hh]; subst. inversion Hh; subst.
  unfold leA in *. now rewrite H1.
Qed.

(** Sorting a sorted list changes nothing. *)
Lemma sort_id l : Sorted leA l -> sort leb l = l.
Proof.
  induction l as [|x l IH]; intros H; [reflexivity|].
  unfold sort in *. simpl. rewrite IH by now inversion H.
  now apply insert_head.
Qed.

Lemma InA_filter (f : A -> bool) x l : InA eqA x (filter f l) -> InA eqA x l.
Proof.
  rewrite !InA_alt. intros [y [E Hy]]. apply filter_In in Hy as [Hy _]. eauto.
Qed.

Lemma NoDupA_filter (f : A -> bool) l : NoDupA eqA l -> NoDupA eqA (filter f l).
Proof.
  induction 1 as [|x l Hn Hd IH]; simpl; [constructor|].
  destruct (f x); [|exact IH].
  constructor; [|exact IH]. intros H. apply Hn. now apply InA_filter in H.
Qed.

Lemma unique_NoDupA l : NoDupA eqA (unique eqb l).
Proof.
  induction l as [|x l IH]; simpl; constructor.
  - intros H. apply InA_alt in H as [y [E Hy]].
    apply filter_In in Hy as [_ Hy]. unfold eqA in E. rewrite E in Hy. discriminate.
  - now apply NoDupA_filter.
Qed.

Lemma unique_incl x l : In x (unique eqb l) -> In x l.
Proof.
  revert x. induction l as [|h t IH]; simpl; intros x H; [exact H|].
  destruct H as [H|H]; [now left|]. right. apply IH.
  now apply filter_In in H as [H _].
Qed.

Hypothesis eqb_sym : forall a b, eqb a b = eqb b a.
Hypothesis eqb_trans : forall a b c, eqb a b = true -> eqb b c = true -> eqb a c = true.

Lemma unique_InA x l : InA eqA x (unique eqb l) <-> InA eqA x l.
Proof.
  split.
  - rewrite !InA_alt. intros [y [E Hy]]. exists y. split; [exact E|].
    now apply unique_incl.
  - induction l as [|h t IH]; simpl; intros H; [inversion H|].
    destruct (eqb x h) eqn:E; [now constructor|].
    inversion H as [? ? F|? ? F]; subst; [unfold eqA in F; congruence|].
    apply IH in F. apply InA_alt in F as [y [Exy Hy]].
    apply InA_cons_tl. apply InA_alt. exists y. split; [exact Exy|].
    apply filter_In. split; [exact Hy|].
    destruct (eqb h y) eqn:Ehy; [|reflexivity].
    exfalso. rewrite eqb_sym in Ehy. unfold eqA in Exy.
    rewrite (eqb_trans _ _ _ Exy Ehy) in E. discriminate.
Qed.

(** A list without repetitions is its own [unique]. *)
Lemma unique_id l : NoDupA eqA l -> unique eqb l = l.
Proof.
  induction 1 as [|x l Hn Hd IH]; simpl; [reflexivity|].
  rewrite IH. f_equal.
  apply forallb_filter_id. apply forallb_forall. intros y Hy.
  destruct (eqb x y) eqn:E; [|reflexivity].
  exfalso. apply Hn. apply InA_alt. exists y. split; assumption.
Qed.

End ListFacts.

Lemma NoDupA_perm {A} (eqA : A -> A -> Prop) l l' :
  (forall a b, eqA a b -> eqA b a) ->
  Permutation l l' -> NoDupA eqA l -> NoDupA eqA l'.
Proof.
  intros Hsym.
  induction 1 as [|x l l' P IH|x y l|l l' l'' P1 IH1 P2 IH2]; intros H.
  - exact H.
  - inversion H as [|? ? Hn Hd]; subst. constructor; [|now apply IH].
    intros F. apply Hn. apply InA_alt in F as [z [E Hz]].
    apply InA_alt. exists z. split; [exact E|]. now apply (Permutation_in _ (Permutation_sym P)).
  - inversion H as [|? ? Hn Hd]; subst. inversion Hd as [|? ? Hn' Hd']; subst.
    constructor; [|constructor].
    + intros F. inversion F as [? ? E|? ? F']; subst; [|contradiction].
      apply Hn. constructor. now apply Hsym.
    + intros F. apply Hn. now apply InA_cons_tl.
    + exact Hd'.
  - auto.
Qed.

Lemma InA_perm {A} (eqA : A -> A -> Prop) l l' x :
  Permutation l l' -> InA eqA x l -> InA eqA x l'.
Proof.
  intros P. rewrite !InA_alt. intros [y [E Hy]]. exists y. split; [exact E|].
  now apply (Permutation_in _ P).
Qed.

(** ** Keys: order and equality *)

Lemma cell_compare_antisym a b : cell_compare a b = CompOpp (cell_compare b a).
Proof.
  destruct a, b; simpl; try reflexivity;
    try (symmetry; apply Qcompare_antisym).
  apply String.compare_antisym.
Qed.

Lemma cell_leb_total a b : cell_leb a b = true \/ cell_leb b a = true.
Proof.
  unfold cell_leb. rewrite (cell_compare_antisym b a).
  destruct (cell_compare a b); simpl; auto.
Qed.

Lemma keys_compare_antisym a b : keys_compare a b = CompOpp (keys_compare b a).
Proof.
  revert b. induction a as [|x a IH]; intros [|y b]; simpl; try reflexivity.
  rewrite (cell_compare_antisym y x).
  destruct (cell_compare x y); simpl; [apply IH | reflexivity | reflexivity].
Qed.

Lemma keys_leb_total a b : keys_leb a b = true \/ keys_leb b a = true.
Proof.
  unfold keys_leb. rewrite (keys_compare_antisym b a).
  destruct (keys_compare a b); simpl; auto.
Qed.

Lemma keys_eqb_refl a : keys_eqb a a = true.
Proof. induction a as [|x a IH]; simpl; [reflexivity|]. now rewrite cell_eqb_refl. Qed.

Lemma keys_eqb_sym a b : keys_eqb a b = keys_eqb b a.
Proof.
  revert b. induction a as [|x a IH]; intros [|y b]; simpl; try reflexivity.
  now rewrite cell_eqb_sym, IH.
Qed.

Lemma keys_eqb_trans a b c :
  keys_eqb a b = true -> keys_eqb b c = true -> keys_eqb a c = true.
Proof.
  revert b c. induction a as [|x a IH]; intros [|y b] [|z c]; simpl; try discriminate; auto.
  rewrite !andb_true_iff. intros [H1 H2] [H3 H4]. split.
  - now apply cell_eqb_trans with y.
  - now apply IH with b.
Qed.

Lemma cell_eqb_notna a b : cell_eqb a b = true -> notna a = notna b.
Proof. destruct a, b; simpl; try discriminate; reflexivity. Qed.

(** [sorted(s.dropna().unique())]: in order, without repetition, holding the
    values of the column that are not missing. *)
Lemma sorted_unique_notna_spec (s : Series) :
  Sorted (fun a b => cell_leb a b = true) (sorted_unique_notna s)
  /\ NoDupA cell_eq (sorted_unique_notna s)
  /\ (forall c, InA cell_eq c (sorted_unique_notna s)
                <-> notna c = true /\ InA cell_eq c (values s)).
Proof.
  unfold sorted_unique_notna. split; [|split].
  - apply sort_sorted. exact cell_leb_total.
  - apply NoDupA_perm with (l := unique cell_eqb (filter notna (values s))).
    + unfold cell_eq. intros a b H. now rewrite cell_eqb_sym.
    + symmetry. apply sort_perm.
    + apply (unique_NoDupA cell_eqb).
  - intros c. split.
    + intros H. apply (InA_perm _ _ _ _ (sort_perm cell_leb _)) in H.
      apply (proj1 (unique_InA cell_eqb cell_eqb_sym cell_eqb_trans _ _)) in H.
      apply InA_alt in H as [y [E Hy]]. apply filter_In in Hy as [Hy Ny].
      split; [now rewrite (cell_eqb_notna _ _ E)|].
      apply InA_alt. eauto.
    + intros [Nc H]. apply (InA_perm _ _ _ _ (Permutation_sym (sort_perm cell_leb _))).
      apply (proj2 (unique_InA cell_eqb cell_eqb_sym cell_eqb_trans _ _)).
      apply InA_alt in H as [y [E Hy]]. apply InA_alt. exists y. split; [exact E|].
      apply filter_In. split; [exact Hy|]. now rewrite <- (cell_eqb_notna _ _ E).
Qed.

Lemma getitem_mem df l : mem l (columns df) = true -> exists s, getitem df l = Some s.
Proof. apply lookup_mem. Qed.

(** ** The detectors *)

Lemma first_with_In alvo colunas nomes c :
  first_with alvo colunas nomes = Some c -> In c colunas.
Proof.
  revert nomes. induction colunas as [|c0 cs IH]; intros [|n ns]; simpl; try discriminate.
  destruct (Py.contains alvo n); [intros [= <-]; now left|].
  intros H. right. now apply IH with ns.
Qed.

Lemma detect_In candidatos colunas c : detect candidatos colunas = Some c -> In c colunas.
Proof.
  induction candidatos as [|alvo rest IH]; simpl; [discriminate|].
  destruct (first_with alvo colunas (map Py.lower colunas)) eqn:E.
  - intros [= <-]. now apply first_with_In in E.
  - exact IH.
Qed.

(** ** Group-by *)

Lemma all_some_map {A B} (f : A -> option B) (g : A -> B) l :
  (forall x, In x l -> f x = Some (g x)) -> all_some (map f l) = Some (map g l).
Proof.
  induction l as [|x l IH]; intros H; simpl; [reflexivity|].
  rewrite (H x) by now left. rewrite IH; [reflexivity|].
  intros y Hy. apply H. now right.
Qed.

Section MapFacts.
Context {A B : Type}.
Variable f : A -> B.

Lemma unique_map (eqa : A -> A -> bool) (eqb : B -> B -> bool) l :
  (forall x y, eqb (f x) (f y) = eqa x y) ->
  unique eqb (map f l) = map f (unique eqa l).
Proof.
  intros H. induction l as [|x l IH]; simpl; [reflexivity|].
  rewrite IH. f_equal. clear IH.
  induction (unique eqa l) as [|y u IHu]; simpl; [reflexivity|].
  rewrite H. destruct (eqa x y); simpl; now rewrite IHu.
Qed.

Lemma insert_map (lea : A -> A -> bool) (leb : B -> B -> bool) x l :
  (forall x y, leb (f x) (f y) = lea x y) ->
  insert leb (f x) (map f l) = map f (insert lea x l).
Proof.
  intros H. induction l as [|y l IH]; simpl; [reflexivity|].
  rewrite H. destruct (lea x y); simpl; [reflexivity | now rewrite IH].
Qed.

Lemma sort_map (lea : A -> A -> bool) (leb : B -> B -> bool) l :
  (forall x y, leb (f x) (f y) = lea x y) ->
  sort leb (map f l) = map f (sort lea l).
Proof.
  intros H. induction l as [|x l IH]; [reflexivity|].
  unfold sort in *. simpl. rewrite IH. now apply insert_map.
Qed.

Lemma filter_map_comm (p : B -> bool) l : filter p (map f l) = map f (filter (fun x => p (f x)) l).
Proof.
  induction l as [|x l IH]; simpl; [reflexivity|].
  destruct (p (f x)); simpl; now rewrite IH.
Qed.

End MapFacts.

Lemma map_nth_seq {A} (l : list A) d : map (fun i => nth i l d) (seq 0 (List.length l)) = l.
Proof.
  induction l as [|x l IH]; simpl; [reflexivity|].
  f_equal. rewrite <- seq_shift, map_map. exact IH.
Qed.

Lemma keys_leb_single a b : keys_leb (single a) (single b) = cell_leb a b.
Proof.
  unfold keys_leb, cell_leb, single. simpl. now destruct (cell_compare a b).
Qed.

Lemma keys_eqb_single a b : keys_eqb (single a) (single b) = cell_eqb a b.
Proof. unfold single. simpl. apply andb_true_r. Qed.

(** Grouping by one column: the groups are the values of the column that
    are not missing, each once, in order. *)
Lemma group_keys_single (s : Series) n :
  List.length (values s) = n ->
  group_keys [s] n = map single (sorted_unique_notna s).
Proof.
  intros <-. unfold group_keys, sorted_unique_notna.
  assert (E : map (row [s]) (seq 0 (List.length (values s))) = map single (values s)).
  { rewrite <- (map_nth_seq (values s) NA) at 2. rewrite map_map. reflexivity. }
  rewrite E, filter_map_comm.
  rewrite (unique_map single cell_eqb keys_eqb) by apply keys_eqb_single.
  rewrite (sort_map single cell_leb keys_leb) by apply keys_leb_single.
  do 3 f_equal. apply filter_ext. intros c. unfold single. simpl. now rewrite orb_false_r.
Qed.

Lemma filter_seq_cells (p : cell -> bool) (codes vals : list cell) a :
  List.length codes = List.length vals ->
  map (fun i => nth (i - a) vals NA)
      (filter (fun i => p (nth (i - a) codes NA)) (seq a (List.length codes)))
  = map snd (filter (fun cv => p (fst cv)) (combine codes vals)).
Proof.
  revert vals a. induction codes as [|c codes IH]; intros [|v vals] a H;
    try discriminate; [reflexivity|].
  injection H as H.
  cbn [List.length seq filter combine fst].
  rewrite Nat.sub_diag. change (nth 0 (c :: codes) NA) with c.
  assert (E : map (fun i => nth (i - a) (v :: vals) NA)
                  (filter (fun i => p (nth (i - a) (c :: codes) NA))
                          (seq (S a) (List.length codes)))
              = map snd (filter (fun cv => p (fst cv)) (combine codes vals))).
  { rewrite <- (IH vals (S a) H).
    rewrite (filter_ext_in
               (fun i => p (nth (i - a) (c :: codes) NA))
               (fun i => p (nth (i - S a) codes NA))).
    - apply map_ext_in. intros i Hi. apply filter_In in Hi as [Hi _]. apply in_seq in Hi.
      replace (i - a) with (S (i - S a)) by lia. reflexivity.
    - intros i Hi. apply in_seq in Hi.
      replace (i - a) with (S (i - S a)) by lia. reflexivity. }
  destruct (p c); cbn [map snd]; [rewrite Nat.sub_diag|]; now rewrite E.
Qed.

Lemma group_rows_single (code_s s : Series) n k :
  List.length (values code_s) = n -> List.length (values s) = n ->
  map (fun i => nth i (values s) NA) (group_rows [code_s] n (single k))
  = group_cells (values code_s) k (values s).
Proof.
  intros H1 H2. unfold group_rows, group_cells. subst n.
  rewrite <- (filter_seq_cells (fun c => cell_eqb c k) (values code_s) (values s) 0)
    by congruence.
  rewrite (filter_ext (fun i => keys_eqb (row [code_s] i) (single k))
                      (fun i => cell_eqb (nth (i - 0) (values code_s) NA) k)).
  - apply map_ext. intros i. now rewrite Nat.sub_0_r.
  - intros i. rewrite Nat.sub_0_r. unfold row, single. simpl. apply andb_true_r.
Qed.

Lemma lookup_NoDup l s (xs : list (string * Series)) :
  NoDup (map fst xs) -> In (l, s) xs -> lookup l xs = Some s.
Proof.
  induction xs as [|[l0 s0] xs IH]; simpl; intros Hnd Hin; [destruct Hin|].
  inversion Hnd as [|? ? Hn Hd]; subst.
  destruct Hin as [E|Hin].
  - injection E as -> ->. now rewrite String.eqb_refl.
  - destruct (String.eqb l0 l) eqn:E; [|now apply IH].
    apply String.eqb_eq in E. subst l0. exfalso. apply Hn.
    change l with (fst (l, s)). now apply in_map.
Qed.

Lemma getitem_Some_mem df l s : getitem df l = Some s -> mem l (columns df) = true.
Proof. apply lookup_Some_mem. Qed.

Lemma wf_getitem df l s : wf df -> In (l, s) (series df) -> getitem df l = Some s.
Proof. intros [H _]. now apply lookup_NoDup. Qed.

Lemma reduce_Some f d l :
  (f = Mean -> d <> object) -> reduce f d l = Some (reduce_or_na f d l).
Proof.
  unfold reduce_or_na. intros H.
  destruct f, d; try (now destruct (H eq_refl)); cbn [reduce]; try reflexivity;
    try (destruct (nums l); reflexivity); try (destruct (texts l); reflexivity);
    destruct (filter notna l); reflexivity.
Qed.

Lemma first_or_numeric (f : aggfunc) (d : dtype) :
  f = First \/ d <> object -> f = Mean -> d <> object.
Proof. intros [-> | H] E; [discriminate | exact H]. Qed.

Lemma agg_column_Some ks n keys f s :
  (f = Mean -> dtype_of s <> object) ->
  agg_column ks n keys f s = Some (agg_total ks n keys f s).
Proof.
  intros H. unfold agg_column, agg_total.
  rewrite (all_some_map _ (fun key => reduce_or_na f (dtype_of s)
                               (map (fun i => nth i (values s) NA) (group_rows ks n key)))).
  - reflexivity.
  - intros key _. now apply reduce_Some.
Qed.

(** Grouping by one column and aggregating: the distinct codes, and each
    aggregated column reduced code by code. *)
Lemma groupby_agg_single df code code_s aggs :
  getitem df code = Some code_s ->
  List.length (values code_s) = nrows df ->
  (forall l f, In (l, f) aggs ->
     exists s, getitem df l = Some s
               /\ (f = First \/ dtype_of s <> object)
               /\ List.length (values s) = nrows df) ->
  groupby_agg df [code] aggs
  = Some (mkDF (List.length (sorted_unique_notna code_s))
            ((code, mkSeries (dtype_of code_s) (sorted_unique_notna code_s))
             :: map (fun lf => (fst lf,
                                aggregated (values code_s) (sorted_unique_notna code_s)
                                  (snd lf) (column df (fst lf))))
                    aggs)).
Proof.
  intros Hc Hn Haggs. unfold groupby_agg, key_columns. cbn [map all_some]. rewrite Hc.
  cbn [option_map all_some List.length seq combine map fst snd app].
  rewrite (group_keys_single code_s (nrows df) Hn).
  rewrite (all_some_map _
             (fun lf => (fst lf,
                         aggregated (values code_s) (sorted_unique_notna code_s)
                           (snd lf) (column df (fst lf))))).
  - rewrite length_map. unfold key_column. rewrite map_map.
    cbn [single nth]. rewrite map_id. reflexivity.
  - intros [l f] Hin. destruct (Haggs l f Hin) as (s & Hs & Hf & Hl).
    cbn [fst snd]. unfold column.
    rewrite Hs, (agg_column_Some _ _ _ _ _ (first_or_numeric _ _ Hf)).
    cbn [option_map]. unfold aggregated, agg_total. do 3 f_equal.
    rewrite map_map. apply map_ext. intros k. f_equal.
    now apply group_rows_single.
Qed.

Lemma columns_take_rows idx df : columns (take_rows idx df) = columns df.
Proof. unfold columns, take_rows. simpl. rewrite map_map. reflexivity. Qed.

Lemma agg_dict_of_In df code l f :
  In (l, f) (agg_dict_of df code)
  <-> exists s, In (l, s) (series df)
                /\ l <> code /\ l <> YEAR_COLUMN
                /\ f = (if String.eqb l "municipio_nome" then First else agg_of l)
                /\ (l = "municipio_nome" \/ is_numeric_dtype s = true).
Proof.
  unfold agg_dict_of. rewrite in_flat_map. split.
  - intros [[l0 s] [Hin H]]. cbn [fst snd] in H.
    destruct (String.eqb l0 code) eqn:E1; [destruct H|].
    destruct (String.eqb l0 YEAR_COLUMN) eqn:E2; [destruct H|].
    cbn [orb] in H. apply String.eqb_neq in E1, E2.
    destruct (String.eqb l0 "municipio_nome") eqn:E3.
    + destruct H as [H|[]]. injection H as <- <-. exists s. rewrite E3.
      apply String.eqb_eq in E3. auto 10.
    + destruct (is_numeric_dtype s) eqn:E4; [|destruct H].
      destruct H as [H|[]]. injection H as <- <-. exists s. rewrite E3. auto 10.
  - intros (s & Hin & N1 & N2 & Hf & Hk). exists (l, s). split; [exact Hin|].
    cbn [fst snd]. apply String.eqb_neq in N1, N2. rewrite N1, N2. cbn [orb].
    destruct (String.eqb l "municipio_nome") eqn:E3; [subst f; now left|].
    destruct Hk as [->|Hk]; [discriminate|]. rewrite Hk. subst f. now left.
Qed.

(** ** Grouped frames *)

(** ** Looking columns up in a frame built from two lists *)

Lemma lookup_app_l l (xs ys : list (string * Series)) s :
  lookup l xs = Some s -> lookup l (xs ++ ys) = Some s.
Proof.
  induction xs as [|[l0 s0] xs IH]; simpl; [discriminate|].
  destruct (String.eqb l0 l); [trivial | exact IH].
Qed.

Lemma lookup_app_r l (xs ys : list (string * Series)) :
  mem l (map fst xs) = false -> lookup l (xs ++ ys) = lookup l ys.
Proof.
  induction xs as [|[l0 s0] xs IH]; simpl; [reflexivity|].
  rewrite String.eqb_sym. intros H. apply orb_false_iff in H as [-> H]. now apply IH.
Qed.

Lemma all_some_lookup_l (xs rest : list (string * Series)) :
  NoDup (map fst xs) ->
  all_some (map (fun l => lookup l (xs ++ rest)) (map fst xs)) = Some (map snd xs).
Proof.
  intros Hnd. rewrite map_map.
  apply all_some_map. intros [l s] Hin. cbn [fst snd].
  apply lookup_app_l. now apply lookup_NoDup.
Qed.

Lemma all_some_lookup_r (xs ys : list (string * Series)) :
  NoDup (map fst ys) ->
  (forall l, In l (map fst ys) -> mem l (map fst xs) = false) ->
  all_some (map (fun l => lookup l (xs ++ ys)) (map fst ys)) = Some (map snd ys).
Proof.
  intros Hnd Hdis. rewrite map_map.
  apply all_some_map. intros [l s] Hin. cbn [fst snd].
  rewrite lookup_app_r.
  - now apply lookup_NoDup.
  - apply Hdis. change l with (fst (l, s)). now apply in_map.
Qed.

(** ** Key columns *)

Lemma map_fst_combine {A B} (a : list A) (b : list B) :
  List.length a <= List.length b -> map fst (combine a b) = a.
Proof.
  revert b. induction a as [|x a IH]; intros [|y b] H; simpl in *; try reflexivity; try lia.
  f_equal. apply IH. lia.
Qed.

Lemma map_snd_combine {A B} (a : list A) (b : list B) :
  List.length b <= List.length a -> map snd (combine a b) = b.
Proof.
  revert b. induction a as [|x a IH]; intros [|y b] H; simpl in *; try reflexivity; try lia.
  f_equal. apply IH. lia.
Qed.

Lemma key_columns_labels by_ ks keys :
  List.length by_ = List.length ks -> map fst (key_columns by_ ks keys) = by_.
Proof.
  intros H. unfold key_columns. rewrite map_map. cbn [fst].
  rewrite <- (map_map snd fst), map_snd_combine, map_fst_combine; try reflexivity; try lia.
  rewrite length_combine, length_seq. lia.
Qed.

Lemma key_columns_dtypes by_ ks keys :
  List.length by_ = List.length ks ->
  map dtype_of (map snd (key_columns by_ ks keys)) = map dtype_of ks.
Proof.
  intros H. unfold key_columns. rewrite !map_map. cbn [snd dtype_of].
  rewrite <- (map_map snd (fun x => dtype_of (snd x))), map_snd_combine.
  - rewrite <- (map_map snd dtype_of), map_snd_combine; [reflexivity | lia].
  - rewrite length_combine, length_seq. lia.
Qed.

Lemma nth_nil {A} j (d : A) : nth j [] d = d.
Proof. now destruct j. Qed.

(** Row [i] of the key columns is the key of group [i]. *)
Lemma key_columns_row by_ ks keys i :
  List.length by_ = List.length ks ->
  List.length (nth i keys []) = List.length by_ ->
  row (map snd (key_columns by_ ks keys)) i = nth i keys [].
Proof.
  intros H Hw. unfold row, key_columns, key_column. rewrite !map_map. cbn [snd values].
  rewrite (map_ext _ (fun jls => nth (fst jls) (nth i keys []) NA)).
  - rewrite <- (map_map fst (fun j => nth j (nth i keys []) NA)), map_fst_combine.
    + rewrite <- Hw. apply map_nth_seq.
    + rewrite length_combine, length_seq. lia.
  - intros [j ls]. cbn [fst].
    rewrite <- (nth_nil j NA) at 1.
    apply (map_nth (fun k => nth j k NA)).
Qed.

Lemma key_columns_rows by_ ks keys :
  List.length by_ = List.length ks ->
  Forall (fun k => List.length k = List.length by_) keys ->
  map (row (map snd (key_columns by_ ks keys))) (seq 0 (List.length keys)) = keys.
Proof.
  intros H Hw. rewrite <- (map_nth_seq keys []) at 3.
  apply map_ext_in. intros i Hi. apply in_seq in Hi.
  apply key_columns_row; [exact H|].
  rewrite Forall_forall in Hw. apply Hw. apply nth_In. lia.
Qed.

(** ** The keys of the groups *)

Lemma keys_eq_sym a b : keys_eq a b -> keys_eq b a.
Proof. unfold keys_eq. now rewrite keys_eqb_sym. Qed.

Lemma length_row ks i : List.length (row ks i) = List.length ks.
Proof. unfold row. apply length_map. Qed.

Lemma group_keys_In ks n k :
  In k (group_keys ks n) -> exists i, i < n /\ k = row ks i /\ existsb isna k = false.
Proof.
  unfold group_keys. intros H.
  apply (Permutation_in _ (sort_perm keys_leb _)) in H.
  apply unique_incl in H. apply filter_In in H as [H N].
  apply in_map_iff in H as [i [<- Hi]]. apply in_seq in Hi.
  exists i. split; [lia|]. split; [reflexivity|].
  now apply negb_true_iff in N.
Qed.

Lemma group_keys_InA ks n i :
  i < n -> existsb isna (row ks i) = false -> InA keys_eq (row ks i) (group_keys ks n).
Proof.
  intros Hi N. unfold group_keys.
  apply (InA_perm _ _ _ _ (Permutation_sym (sort_perm keys_leb _))).
  apply (proj2 (unique_InA keys_eqb keys_eqb_sym keys_eqb_trans _ _)).
  apply InA_alt. exists (row ks i). split; [apply keys_eqb_refl|].
  apply filter_In. split; [|now rewrite N].
  apply in_map. apply in_seq. lia.
Qed.

Lemma group_keys_sorted ks n : Sorted (fun a b => keys_leb a b = true) (group_keys ks n).
Proof. apply sort_sorted. exact keys_leb_total. Qed.

Lemma group_keys_NoDupA ks n : NoDupA keys_eq (group_keys ks n).
Proof.
  unfold group_keys.
  apply NoDupA_perm with (l := unique keys_eqb
                                 (filter (fun k => negb (existsb isna k))
                                         (map (row ks) (seq 0 n)))).
  - exact keys_eq_sym.
  - symmetry. apply sort_perm.
  - apply (unique_NoDupA keys_eqb).
Qed.

Lemma group_keys_width ks n :
  Forall (fun k => List.length k = List.length ks) (group_keys ks n).
Proof.
  apply Forall_forall. intros k Hk.
  apply group_keys_In in Hk as (i & _ & -> & _). apply length_row.
Qed.

Lemma group_keys_notna ks n :
  Forall (fun k => existsb isna k = false) (group_keys ks n).
Proof.
  apply Forall_forall. intros k Hk. now apply group_keys_In in Hk as (i & _ & _ & H).
Qed.

(** Grouping a grouped frame by its keys gives the same groups. *)
Lemma group_keys_idem by_ ks n :
  List.length by_ = List.length ks ->
  group_keys (map snd (key_columns by_ ks (group_keys ks n)))
             (List.length (group_keys ks n))
  = group_keys ks n.
Proof.
  intros H. unfold group_keys at 1.
  rewrite key_columns_rows; [|exact H|rewrite H; apply group_keys_width].
  rewrite forallb_filter_id.
  - rewrite (unique_id keys_eqb) by apply group_keys_NoDupA.
    apply sort_id. apply group_keys_sorted.
  - apply forallb_forall. intros k Hk.
    pose proof (group_keys_notna ks n) as F. rewrite Forall_forall in F.
    now rewrite (F k Hk).
Qed.

Lemma all_some_length {A} (l : list (option A)) r :
  all_some l = Some r -> List.length r = List.length l.
Proof.
  revert r. induction l as [|[x|] l IH]; simpl; intros r H; try discriminate.
  - now injection H as <-.
  - destruct (all_some l) as [r'|]; [|discriminate]. injection H as <-.
    simpl. now rewrite (IH r' eq_refl).
Qed.

Lemma all_some_getitem df ls :
  (forall l, In l ls -> mem l (columns df) = true) ->
  all_some (map (getitem df) ls) = Some (map (column df) ls).
Proof.
  intros H. apply all_some_map. intros l Hl.
  destruct (getitem_mem df l (H l Hl)) as [s E]. unfold column. now rewrite E.
Qed.

(** The frame a group-by returns when no reduction fails. *)
Lemma groupby_agg_shape df by_ aggs ks :
  all_some (map (getitem df) by_) = Some ks ->
  (forall l f, In (l, f) aggs ->
     exists s, getitem df l = Some s /\ (f = Mean -> dtype_of s <> object)) ->
  groupby_agg df by_ aggs
  = Some (mkDF (List.length (group_keys ks (nrows df)))
            (key_columns by_ ks (group_keys ks (nrows df))
             ++ map (fun lf => (fst lf,
                                agg_total ks (nrows df) (group_keys ks (nrows df))
                                  (snd lf) (column df (fst lf))))
                    aggs)).
Proof.
  intros Hk Haggs. unfold groupby_agg. rewrite Hk.
  rewrite (all_some_map _
             (fun lf => (fst lf,
                         agg_total ks (nrows df) (group_keys ks (nrows df))
                           (snd lf) (column df (fst lf))))).
  - reflexivity.
  - intros [l f] Hin. destruct (Haggs l f Hin) as (s & Hs & Hf).
    cbn [fst snd]. unfold column. rewrite Hs, (agg_column_Some _ _ _ _ _ Hf). reflexivity.
Qed.

(** ** Positions *)

Lemma In_combine_seq_inv {A} (l : list A) a i x :
  In (i, x) (combine (seq a (List.length l)) l) -> a <= i /\ nth_error l (i - a) = Some x.
Proof.
  revert a. induction l as [|h t IH]; intros a H; simpl in *; [destruct H|].
  destruct H as [E|H].
  - injection E as <- <-. split; [lia|]. now rewrite Nat.sub_diag.
  - apply IH in H as [H1 H2]. split; [lia|].
    replace (i - a) with (S (i - S a)) by lia. exact H2.
Qed.

Lemma In_positions_inv {A} (p : A -> bool) (l : list A) j :
  In j (positions p l) -> exists c, nth_error l j = Some c /\ p c = true.
Proof.
  unfold positions. intros H. apply in_map_iff in H as [[i c] [E H]].
  cbn [fst] in E. subst i. apply filter_In in H as [H Hp].
  apply In_combine_seq_inv in H as [_ H]. rewrite Nat.sub_0_r in H. eauto.
Qed.

Lemma hd_error_In {A} (l : list A) x : hd_error l = Some x -> In x l.
Proof. destruct l; simpl; [discriminate|]. intros [= ->]. now left. Qed.

Lemma found_Some keys k y key :
  In key keys -> keys_eqb key (k ++ [y]) = true ->
  exists r, found keys k y = Some r /\ r < List.length keys.
Proof.
  intros Hin E. unfold found.
  destruct (In_nth_error _ _ Hin) as [j Hj].
  pose proof (In_positions (fun key' => keys_eqb key' (k ++ [y])) keys j key Hj E) as Hp.
  destruct (positions _ keys) as [|r rs] eqn:P; [destruct Hp|].
  exists r. split; [reflexivity|].
  assert (Hr : In r (positions (fun key' => keys_eqb key' (k ++ [y])) keys))
    by (rewrite P; now left).
  apply In_positions_inv in Hr as (c & Hc & _).
  apply nth_error_Some. congruence.
Qed.

(** ** Keys cut in index part and pivoted part *)

Lemma keys_eqb_firstn w a b : keys_eqb a b = true -> keys_eqb (firstn w a) (firstn w b) = true.
Proof.
  revert a b. induction w as [|w IH]; intros [|x a] [|y b]; simpl; try discriminate; auto.
  rewrite !andb_true_iff. intros [H1 H2]. split; [exact H1 | now apply IH].
Qed.

Lemma keys_eqb_nth j a b :
  keys_eqb a b = true -> cell_eqb (nth j a NA) (nth j b NA) = true.
Proof.
  revert a b. induction j as [|j IH]; intros [|x a] [|y b]; simpl; try discriminate; auto;
    rewrite andb_true_iff; intros [H1 H2]; [exact H1 | now apply IH].
Qed.

Lemma keys_eqb_app a b y :
  keys_eqb a b = true -> keys_eqb (a ++ [y]) (b ++ [y]) = true.
Proof.
  revert b. induction a as [|x a IH]; intros [|z b]; simpl; try discriminate.
  - intros _. now rewrite cell_eqb_refl.
  - rewrite !andb_true_iff. intros [H1 H2]. split; [exact H1 | now apply IH].
Qed.

Lemma firstn_nth_last (w : nat) (k : list cell) :
  List.length k = S w -> k = firstn w k ++ [nth w k NA].
Proof.
  revert k. induction w as [|w IH]; intros [|x k] H; simpl in *; try discriminate.
  - destruct k; [reflexivity | discriminate].
  - f_equal. apply IH. lia.
Qed.

Lemma upcast_values_notna s i :
  notna (nth i (values (upcast s)) NA) = notna (nth i (values s) NA).
Proof.
  unfold upcast. destruct (dtype_of s); try reflexivity. cbn [values].
  set (f := fun c => match c with Int z => Flt (inject_Z z) | _ => c end).
  transitivity (notna (f (nth i (values s) NA))).
  - f_equal. exact (map_nth f (values s) NA i).
  - now destruct (nth i (values s) NA).
Qed.

Lemma all_notna_nth s i : all_notna s -> i < List.length (values s) -> notna (nth i (values s) NA) = true.
Proof.
  unfold all_notna. rewrite forallb_forall. intros H Hi. apply H. now apply nth_In.
Qed.

(** A column of [unstack] has a value as soon as its pivoted key occurs in
    a group whose index key is in the index. *)
Lemma unstack_has_value keys idx years y s k key :
  all_notna s -> List.length (values s) = List.length keys ->
  In k idx -> In key keys -> keys_eqb key (k ++ [y]) = true ->
  existsb notna (values (unstack_column keys idx years y s)) = true.
Proof.
  intros Hs Hl Hk Hkey E. unfold unstack_column. cbn [values].
  apply existsb_exists.
  destruct (found_Some keys k y key Hkey E) as (r & Hf & Hr).
  exists (nth r (values (if complete keys idx years then s else upcast s)) NA). split.
  - apply in_map_iff. exists k. split; [now rewrite Hf | exact Hk].
  - destruct (complete keys idx years); [|rewrite upcast_values_notna];
      apply all_notna_nth; (exact Hs || lia).
Qed.

(** ** The pivot table of a grouped frame *)

Lemma all_some_getitem_l n (xs rest : list (string * Series)) ls :
  map fst xs = ls -> NoDup ls ->
  all_some (map (getitem (mkDF n (xs ++ rest))) ls) = Some (map snd xs).
Proof. intros <- H. now apply all_some_lookup_l. Qed.

Lemma all_some_getitem_r n (xs ys : list (string * Series)) ls :
  map fst ys = ls -> NoDup ls ->
  (forall l, In l ls -> mem l (map fst xs) = false) ->
  all_some (map (getitem (mkDF n (xs ++ ys))) ls) = Some (map snd ys).
Proof. intros <- H1 H2. now apply all_some_lookup_r. Qed.

Lemma select_all {A} (d : A) l : select d (seq 0 (List.length l)) l = l.
Proof. apply map_nth_seq. Qed.

(** Taking the first value of each group of a grouped frame leaves no
    missing value when the frame has none. *)
Lemma agg_first_good by_ ks n s :
  List.length by_ = List.length ks ->
  good_values (List.length (group_keys ks n)) s ->
  good_values (List.length (group_keys ks n))
    (agg_total (map snd (key_columns by_ ks (group_keys ks n)))
       (List.length (group_keys ks n)) (group_keys ks n) First s).
Proof.
  intros H [Hs Hl]. split; [|unfold agg_total; cbn [values]; apply length_map].
  unfold all_notna, agg_total. cbn [values]. apply forallb_forall.
  intros c Hc. apply in_map_iff in Hc as [key [<- Hkey]].
  unfold reduce_or_na, reduce.
  set (rows := group_rows _ _ key).
  assert (Hrows : forall r, In r rows -> r < List.length (group_keys ks n)).
  { intros r Hr. apply filter_In in Hr as [Hr _]. apply in_seq in Hr. lia. }
  assert (Hne : rows <> []).
  { destruct (In_nth _ _ [] Hkey) as (j & Hj & Ej).
    assert (In j rows) as Hin.
    { apply filter_In. split; [apply in_seq; lia|].
      rewrite key_columns_row; [rewrite Ej; apply keys_eqb_refl | exact H |].
      pose proof (group_keys_width ks n) as W. rewrite Forall_forall in W.
      rewrite H. apply W. apply nth_In. exact Hj. }
    intros E. rewrite E in Hin. destruct Hin. }
  rewrite forallb_filter_id.
  - destruct rows as [|r rs]; [contradiction|]. cbn [map hd].
    apply all_notna_nth; [exact Hs|]. rewrite Hl. apply Hrows. now left.
  - apply forallb_forall. intros c Hc. apply in_map_iff in Hc as [r [<- Hr]].
    apply all_notna_nth; [exact Hs|]. rewrite Hl. now apply Hrows.
Qed.

Lemma rows_with_value_all (vs : list Series) n :
  vs <> [] -> Forall (good_values n) vs -> rows_with_value vs n = seq 0 n.
Proof.
  intros Hne Hg. unfold rows_with_value. apply forallb_filter_id.
  apply forallb_forall. intros i Hi. apply in_seq in Hi.
  destruct vs as [|s vs]; [contradiction|]. inversion Hg as [|? ? [Hs Hl] _]; subst.
  unfold row. cbn [map existsb]. rewrite all_notna_nth; [reflexivity | exact Hs | lia].
Qed.

Lemma select_values_all n (vs : list Series) :
  Forall (good_values n) vs ->
  map (fun s => mkSeries (dtype_of s) (select NA (seq 0 n) (values s))) vs = vs.
Proof.
  intros Hg. rewrite <- (map_id vs) at 2. apply map_ext_in. intros [dt vals] Hin.
  rewrite Forall_forall in Hg. destruct (Hg _ Hin) as [_ Hl]. cbn [values dtype_of] in *.
  now rewrite <- Hl, select_all.
Qed.

Lemma map_fst_unstacked {B} (U : string -> cell -> Series -> B) years
    (mv : list (string * Series)) :
  map fst (flat_map (fun vs => map (fun y => ((fst vs, y), U (fst vs) y (snd vs))) years) mv)
  = list_prod (map fst mv) years.
Proof.
  induction mv as [|[m s] mv IH]; simpl; [reflexivity|].
  rewrite map_app, IH, map_map. reflexivity.
Qed.

Lemma Forall_perm {A} (P : A -> Prop) l l' : Permutation l l' -> Forall P l -> Forall P l'.
Proof. intros Hp. rewrite !Forall_forall. intros H x Hx. apply H. now apply (Permutation_in _ (Permutation_sym Hp)). Qed.

Section PivotGrouped.
Variables (index_cols : list string) (col : string) (metrics : list string).
Variables (ks : list Series) (n : nat) (vcols : list (string * Series)).
Let by_ := index_cols ++ [col].
Let K := group_keys ks n.
Let w := List.length index_cols.
Let idx := sort keys_leb (unique keys_eqb (map (firstn w) K)).
Let years := sort cell_leb (unique cell_eqb (map (fun k => nth w k NA) K)).

Hypothesis Hlen : List.length by_ = List.length ks.
Hypothesis Hby : NoDup by_.
Hypothesis Hmetrics : map fst vcols = metrics.
Hypothesis Hnd : NoDup metrics.
Hypothesis Hdis : forall m, In m metrics -> mem m by_ = false.
Hypothesis Hne : metrics <> [].
Hypothesis Hgood : Forall (fun ls => good_values (List.length K) (snd ls)) vcols.

Lemma K_width key : In key K -> List.length key = S w.
Proof.
  intros Hin. pose proof (group_keys_width ks n) as W. rewrite Forall_forall in W.
  rewrite (W key Hin), <- Hlen. unfold by_, w. rewrite length_app. simpl. lia.
Qed.

Lemma years_from_K y : In y years -> exists key, In key K /\ nth w key NA = y.
Proof.
  unfold years. intros H. apply (Permutation_in _ (sort_perm cell_leb _)) in H.
  apply unique_incl in H. apply in_map_iff in H as [key [E Hk]]. eauto.
Qed.

Lemma idx_from_K k : In k idx -> exists key, In key K /\ firstn w key = k.
Proof.
  unfold idx. intros H. apply (Permutation_in _ (sort_perm keys_leb _)) in H.
  apply unique_incl in H. apply in_map_iff in H as [key [E Hk]]. eauto.
Qed.

Lemma K_in_idx key : In key K -> exists k, In k idx /\ keys_eqb (firstn w key) k = true.
Proof.
  intros Hin.
  assert (InA keys_eq (firstn w key) idx) as H.
  { unfold idx. apply (InA_perm _ _ _ _ (Permutation_sym (sort_perm keys_leb _))).
    apply (proj2 (unique_InA keys_eqb keys_eqb_sym keys_eqb_trans _ _)).
    apply InA_alt. exists (firstn w key). split; [apply keys_eqb_refl | now apply in_map]. }
  apply InA_alt in H as [k [E Hk]]. eauto.
Qed.

Lemma pivot_table_first_grouped :
  exists pcols,
    pivot_table_first (mkDF (List.length K) (key_columns by_ ks K ++ vcols))
      index_cols col metrics
    = Some (mkPivot (combine index_cols (map dtype_of (firstn w ks))) idx pcols)
    /\ Permutation (map fst pcols) (list_prod metrics years).
Proof.
  set (ks' := map snd (key_columns by_ ks K)).
  set (vs := map snd vcols).
  set (agged := map (agg_total ks' (List.length K) K First) vs).
  assert (Hvs : Forall (good_values (List.length K)) vs).
  { unfold vs. apply Forall_map. exact Hgood. }
  assert (Hagged : Forall (good_values (List.length K)) agged).
  { unfold agged. apply Forall_map. rewrite Forall_forall in Hvs |- *.
    intros s Hs. apply agg_first_good; [exact Hlen | now apply Hvs]. }
  assert (Hvne : agged <> []).
  { unfold agged, vs. intros E. apply map_eq_nil in E. apply map_eq_nil in E.
    apply Hne. rewrite <- Hmetrics, E. reflexivity. }
  unfold pivot_table_first.
  fold by_.
  rewrite (all_some_getitem_l _ _ _ by_ (key_columns_labels by_ ks K Hlen) Hby).
  cbn [bind].
  rewrite (all_some_getitem_r _ (key_columns by_ ks K) vcols metrics Hmetrics Hnd).
  2:{ intros m Hm. rewrite (key_columns_labels by_ ks K Hlen). now apply Hdis. }
  cbn [bind nrows]. fold ks' vs.
  assert (Eidem : group_keys ks' (List.length K) = K) by apply (group_keys_idem by_ ks n Hlen).
  rewrite Eidem.
  rewrite (all_some_map _ (agg_total ks' (List.length K) K First)).
  2:{ intros s _. apply agg_column_Some. discriminate. }
  cbn [bind]. fold agged.
  rewrite (rows_with_value_all agged (List.length K) Hvne Hagged).
  rewrite (select_all [] K), (select_values_all _ _ Hagged).
  fold w idx years.
  eexists. split.
  - f_equal. f_equal.
    unfold ks'. rewrite <- firstn_map, <- (firstn_map dtype_of).
    now rewrite (key_columns_dtypes by_ ks K Hlen).
  - set (unstacked := flat_map _ (combine metrics agged)).
    assert (Hall : Forall (fun c => existsb notna (values (snd c)) = true) unstacked).
    { apply Forall_forall. intros c Hc. unfold unstacked in Hc.
      apply in_flat_map in Hc as [[m s] [Hms Hc]].
      apply in_map_iff in Hc as [y [<- Hy]]. cbn [fst snd].
      apply in_combine_r in Hms. rewrite Forall_forall in Hagged.
      destruct (Hagged s Hms) as [Hs Hl].
      destruct (years_from_K y Hy) as (key & Hkey & Ey).
      destruct (K_in_idx key Hkey) as (k & Hk & Ek).
      apply (unstack_has_value K idx years y s k key Hs Hl Hk Hkey).
      rewrite (firstn_nth_last w key (K_width key Hkey)), Ey.
      now apply keys_eqb_app. }
    rewrite forallb_filter_id.
    + rewrite (Permutation_map fst (sort_perm _ unstacked)).
      unfold unstacked.
      rewrite (map_fst_unstacked (fun _ y s => unstack_column K idx years y s)).
      rewrite map_fst_combine; [reflexivity|].
      unfold agged, vs. rewrite !length_map, <- Hmetrics, length_map. lia.
    + apply forallb_forall. apply Forall_forall.
      apply (Forall_perm _ unstacked); [symmetry; apply sort_perm | exact Hall].
Qed.

End PivotGrouped.

Lemma NoDupA_map {A B} (eqA : A -> A -> Prop) (eqB : B -> B -> Prop) (f : A -> B) l :
  NoDupA eqA l ->
  (forall a b, In a l -> In b l -> eqB (f a) (f b) -> eqA a b) ->
  NoDupA eqB (map f l).
Proof.
  induction 1 as [|x l Hn Hd IH]; intros Hinj; simpl; constructor.
  - intros H. apply Hn. apply InA_alt in H as [y [E Hy]].
    apply in_map_iff in Hy as [z [<- Hz]].
    apply InA_alt. exists z. split; [|exact Hz].
    apply Hinj; [now left | now right | exact E].
  - apply IH. intros a b Ha Hb. apply Hinj; now right.
Qed.

Lemma Sorted_map {A B} (R : B -> B -> Prop) (f : A -> B) l :
  Sorted (fun a b => R (f a) (f b)) l -> Sorted R (map f l).
Proof.
  induction 1 as [|x l Hs IH Hh]; simpl; constructor; [exact IH|].
  destruct Hh; simpl; constructor. assumption.
Qed.

Lemma row_nth ks i j d :
  j < List.length ks -> nth j (row ks i) NA = nth i (values (nth j ks d)) NA.
Proof.
  intros H. unfold row.
  rewrite (nth_indep _ NA (nth i (values d) NA)) by now rewrite length_map.
  apply (map_nth (fun s => nth i (values s) NA)).
Qed.

Section Grouped.
Variables (ks : list Series) (n : nat).
Hypothesis Hks : Forall (good_values n) ks.
Let K := group_keys ks n.

Lemma row_complete i : i < n -> existsb isna (row ks i) = false.
Proof.
  intros Hi. apply not_true_is_false. intros H.
  apply existsb_exists in H as [c [Hc N]]. unfold row in Hc.
  apply in_map_iff in Hc as [s [<- Hs]]. rewrite Forall_forall in Hks.
  destruct (Hks s Hs) as [Ha Hl].
  pose proof (all_notna_nth s i Ha) as F. unfold notna in F.
  rewrite N in F. discriminate F. lia.
Qed.

(** With no missing key every record is in a group. *)
Lemma K_covers i : i < n -> exists key, In key K /\ keys_eqb (row ks i) key = true.
Proof.
  intros Hi. pose proof (group_keys_InA ks n i Hi (row_complete i Hi)) as H.
  apply InA_alt in H as [key [E Hk]]. eauto.
Qed.

Lemma K_from_rows key : In key K -> exists i, i < n /\ key = row ks i.
Proof. intros H. apply group_keys_In in H as (i & Hi & E & _). eauto. Qed.

(** The values of key column [j] over the groups are those of the column. *)
Lemma key_part_InA (part : list cell -> list cell) j d c :
  j < List.length ks ->
  (forall key, In key K -> nth 0 (part key) NA = nth j key NA) ->
  (forall a b, keys_eqb a b = true -> keys_eqb (part a) (part b) = true) ->
  (InA cell_eq c (map (fun k => nth 0 k NA) (sort keys_leb (unique keys_eqb (map part K))))
   <-> InA cell_eq c (values (nth j ks d))).
Proof.
  intros Hj Hpart Hcompat.
  assert (Hl : List.length (values (nth j ks d)) = n).
  { rewrite Forall_forall in Hks. apply Hks. now apply nth_In. }
  split; intros H.
  - apply InA_alt in H as [y [E Hy]]. apply in_map_iff in Hy as [k [<- Hk]].
    apply (Permutation_in _ (sort_perm keys_leb _)) in Hk.
    apply unique_incl in Hk. apply in_map_iff in Hk as [key [<- Hkey]].
    rewrite (Hpart key Hkey) in E.
    destruct (K_from_rows key Hkey) as (i & Hi & ->).
    rewrite (row_nth ks i j d Hj) in E.
    apply InA_alt. eexists. split; [exact E|]. apply nth_In. lia.
  - apply InA_alt in H as [v [E Hv]].
    destruct (In_nth _ _ NA Hv) as (i & Hi & <-). rewrite Hl in Hi.
    destruct (K_covers i Hi) as (key & Hkey & Ek).
    assert (InA keys_eq (part key) (sort keys_leb (unique keys_eqb (map part K)))) as Hin.
    { apply (InA_perm _ _ _ _ (Permutation_sym (sort_perm keys_leb _))).
      apply (proj2 (unique_InA keys_eqb keys_eqb_sym keys_eqb_trans _ _)).
      apply InA_alt. exists (part key). split; [apply keys_eqb_refl | now apply in_map]. }
    apply InA_alt in Hin as [k [Ekk Hk]].
    apply InA_alt. exists (nth 0 k NA). split; [|now apply (in_map (fun k => nth 0 k NA))].
    unfold cell_eq. apply cell_eqb_trans with (nth i (values (nth j ks d)) NA); [exact E|].
    rewrite <- (row_nth ks i j d Hj).
    apply cell_eqb_trans with (nth j key NA); [now apply keys_eqb_nth|].
    rewrite <- (Hpart key Hkey). now apply keys_eqb_nth.
Qed.

(** An aggregated metric has no missing value: a sum never, a mean not
    when the group has a value. *)
Lemma agg_numeric_good f s :
  f <> First -> dtype_of s <> object -> good_values n s ->
  good_values (List.length K) (agg_total ks n K f s).
Proof.
  intros Hf Hd [Hs Hl]. split; [|unfold agg_total; cbn [values]; apply length_map].
  unfold all_notna, agg_total. cbn [values]. apply forallb_forall.
  intros c Hc. apply in_map_iff in Hc as [key [<- Hkey]].
  set (cells := map _ (group_rows ks n key)).
  assert (Hcells : forallb notna cells = true).
  { apply forallb_forall. intros c Hc. apply in_map_iff in Hc as [r [<- Hr]].
    apply filter_In in Hr as [Hr _]. apply in_seq in Hr.
    apply all_notna_nth; [exact Hs | lia]. }
  assert (Hne : cells <> []).
  { destruct (K_from_rows key Hkey) as (i & Hi & ->).
    assert (In i (group_rows ks n (row ks i))) as Hin.
    { apply filter_In. split; [apply in_seq; lia | apply keys_eqb_refl]. }
    unfold cells. intros E. apply map_eq_nil in E. rewrite E in Hin. destruct Hin. }
  unfold reduce_or_na, reduce.
  destruct f; [| |contradiction]; destruct (dtype_of s); try contradiction; try reflexivity.
  - destruct (nums cells); reflexivity.
  - rewrite (forallb_filter_id _ _ Hcells). destruct cells; [contradiction | reflexivity].
  - rewrite (forallb_filter_id _ _ Hcells). destruct cells; [contradiction | reflexivity].
Qed.

End Grouped.

(** ** The wide reshaper *)

Lemma column_getitem df l : mem l (columns df) = true -> getitem df l = Some (column df l).
Proof. intros H. destruct (getitem_mem df l H) as [s E]. unfold column. now rewrite E. Qed.

Lemma wf_typed df l s :
  wf df -> getitem df l = Some s -> forallb (cell_has_dtype (dtype_of s)) (values s) = true.
Proof.
  intros [_ H] Hl. apply lookup_In in Hl. rewrite Forall_forall in H.
  apply (H (l, s) Hl).
Qed.

(** A value of a numeric column converts to an integer. *)
Lemma numeric_int_of (s : Series) c :
  forallb (cell_has_dtype (dtype_of s)) (values s) = true ->
  is_numeric_dtype s = true -> In c (values s) -> notna c = true ->
  exists z, int_of c = Some z.
Proof.
  intros Ht Hn Hc N. rewrite forallb_forall in Ht. specialize (Ht c Hc).
  unfold is_numeric_dtype in Hn.
  destruct (dtype_of s); try discriminate; destruct c; try discriminate; simpl; eauto.
Qed.

Lemma agg_of_not_First m : agg_of m <> First.
Proof. unfold agg_of. destruct (mem m METRIC_MEAN); discriminate. Qed.

Lemma nth0_firstn {A} w (k : list A) d : nth 0 (firstn (S w) k) d = nth 0 k d.
Proof. destruct k; reflexivity. Qed.

Section Years.
Variables (ks : list Series) (n : nat).
Hypothesis Hks : Forall (good_values n) ks.
Let K := group_keys ks n.

(** The pivoted keys over the groups are the values of the pivoted column. *)
Lemma years_InA j d c :
  j < List.length ks ->
  (InA cell_eq c (sort cell_leb (unique cell_eqb (map (fun k => nth j k NA) K)))
   <-> InA cell_eq c (values (nth j ks d))).
Proof.
  intros Hj.
  assert (Hl : List.length (values (nth j ks d)) = n).
  { rewrite Forall_forall in Hks. apply Hks. now apply nth_In. }
  split; intros H.
  - apply (InA_perm _ _ _ _ (sort_perm cell_leb _)) in H.
    apply InA_alt in H as [y [E Hy]]. apply unique_incl in Hy.
    apply in_map_iff in Hy as [key [<- Hkey]].
    destruct (K_from_rows ks n key Hkey) as (i & Hi & ->).
    rewrite (row_nth ks i j d Hj) in E.
    apply InA_alt. eexists. split; [exact E|]. apply nth_In. lia.
  - apply InA_alt in H as [v [E Hv]].
    destruct (In_nth _ _ NA Hv) as (i & Hi & <-). rewrite Hl in Hi.
    destruct (K_covers ks n Hks i Hi) as (key & Hkey & Ek).
    apply (InA_perm _ _ _ _ (Permutation_sym (sort_perm cell_leb _))).
    apply (proj2 (unique_InA cell_eqb cell_eqb_sym cell_eqb_trans _ _)).
    apply InA_alt. exists (nth j key NA). split; [|now apply (in_map (fun k => nth j k NA))].
    unfold cell_eq. apply cell_eqb_trans with (nth i (values (nth j ks d)) NA); [exact E|].
    rewrite <- (row_nth ks i j d Hj). now apply keys_eqb_nth.
Qed.

End Years.

Lemma sorted_unique_NoDupA (l : list cell) : NoDupA cell_eq (sort cell_leb (unique cell_eqb l)).
Proof.
  apply NoDupA_perm with (l := unique cell_eqb l).
  - unfold cell_eq. intros a b H. now rewrite cell_eqb_sym.
  - symmetry. apply sort_perm.
  - apply (unique_NoDupA cell_eqb).
Qed.

Lemma sorted_unique_keys_NoDupA (l : list (list cell)) :
  NoDupA keys_eq (sort keys_leb (unique keys_eqb l)).
Proof.
  apply NoDupA_perm with (l := unique keys_eqb l).
  - exact keys_eq_sym.
  - symmetry. apply sort_perm.
  - apply (unique_NoDupA keys_eqb).
Qed.

Lemma pivot_wide_shape (df : DataFrame) (rest_index metrics : list string) :
  let index_cols := "municipio_cod" :: rest_index in
  let by_ := index_cols ++ [YEAR_COLUMN] in
  let ks := map (column df) by_ in
  wf df ->
  (forall l, In l (by_ ++ metrics) -> mem l (columns df) = true) ->
  NoDup by_ -> NoDup metrics -> metrics <> [] ->
  (forall m, In m metrics -> mem m by_ = false) ->
  is_numeric_dtype (column df YEAR_COLUMN) = true ->
  (forall m, In m metrics -> is_numeric_dtype (column df m) = true) ->
  (forall l, In l (by_ ++ metrics) -> all_notna (column df l)) ->
  (forall i j, i < nrows df -> j < nrows df ->
     cell_eqb (nth 0 (row ks i) NA) (nth 0 (row ks j) NA) = true ->
     keys_eqb (firstn (List.length index_cols) (row ks i))
              (firstn (List.length index_cols) (row ks j)) = true) ->
  exists out years cols codes,
    pivot_wide df index_cols metrics
    = Some (out, Some (sorted_unique_notna (column df YEAR_COLUMN)))
    /\ Sorted (fun a b => cell_leb a b = true) years
    /\ NoDupA cell_eq years
    /\ (forall c, InA cell_eq c years <-> InA cell_eq c (values (column df YEAR_COLUMN)))
    /\ columns out = index_cols ++ map (fun my => column_label (fst my) (snd my)) cols
    /\ Permutation cols (list_prod metrics years)
    /\ Sorted (fun a b => level1_leb a b = true) cols
    /\ getitem out "municipio_cod"
       = Some (mkSeries (dtype_of (column df "municipio_cod")) codes)
    /\ NoDupA cell_eq codes
    /\ (forall c, InA cell_eq c codes
                  <-> InA cell_eq c (values (column df "municipio_cod"))).
Proof.
  intros index_cols by_ ks Hwf Hmem Hby Hnd Hne Hdis Hynum Hmnum Hfull Hfd.
  set (n := nrows df). set (K := group_keys ks n). set (w := List.length index_cols).
  set (agg_dict := map (fun metric => (metric, agg_of metric)) metrics).
  set (vcols := map (fun lf : string * aggfunc =>
                       (fst lf, agg_total ks n K (snd lf) (column df (fst lf)))) agg_dict).
  set (idx := sort keys_leb (unique keys_eqb (map (firstn w) K))).
  set (years := sort cell_leb (unique cell_eqb (map (fun k => nth w k NA) K))).
  assert (Hgood : forall l, In l (by_ ++ metrics) -> good_values n (column df l)).
  { intros l Hl. split; [now apply Hfull|].
    apply (wf_length df l); [exact Hwf | apply column_getitem; now apply Hmem]. }
  assert (Hks : Forall (good_values n) ks).
  { unfold ks. apply Forall_map, Forall_forall. intros l Hl. apply Hgood.
    apply in_or_app. now left. }
  assert (Hlen : List.length by_ = List.length ks) by (unfold ks; now rewrite length_map).
  assert (Hw : w < List.length ks).
  { rewrite <- Hlen. unfold by_, w. rewrite length_app. simpl. lia. }
  assert (Eyear : nth w ks (column df YEAR_COLUMN) = column df YEAR_COLUMN).
  { unfold ks, by_. rewrite map_app, app_nth2; rewrite length_map; [|unfold w; lia].
    unfold w. now rewrite Nat.sub_diag. }
  assert (E1 : all_some (map (getitem df) by_) = Some ks).
  { apply all_some_getitem. intros l Hl. apply Hmem, in_or_app. now left. }
  assert (Eg : groupby_agg df by_ agg_dict
               = Some (mkDF (List.length K) (key_columns by_ ks K ++ vcols))).
  { apply (groupby_agg_shape df by_ agg_dict ks E1).
    intros l f Hin. unfold agg_dict in Hin. apply in_map_iff in Hin as [m [E Hm]].
    injection E as <- <-. exists (column df m). split.
    - apply column_getitem, Hmem, in_or_app. now right.
    - intros _. specialize (Hmnum m Hm). unfold is_numeric_dtype in Hmnum.
      intros F. now rewrite F in Hmnum. }
  assert (Hvm : map fst vcols = metrics).
  { unfold vcols, agg_dict. rewrite !map_map. cbn [fst]. apply map_id. }
  assert (Hvg : Forall (fun ls => good_values (List.length K) (snd ls)) vcols).
  { unfold vcols, agg_dict. rewrite map_map. apply Forall_map, Forall_forall.
    intros m Hm. cbn [fst snd].
    apply (agg_numeric_good ks n).
    - apply agg_of_not_First.
    - specialize (Hmnum m Hm). unfold is_numeric_dtype in Hmnum.
      intros F. now rewrite F in Hmnum.
    - apply Hgood, in_or_app. now right. }
  destruct (pivot_table_first_grouped index_cols YEAR_COLUMN metrics ks n vcols
              Hlen Hby Hvm Hnd Hdis Hne Hvg) as (pcols & Ep & Pp).
  fold by_ K w in Ep. fold K w years in Pp.
  set (pcols' := sort (fun a b => keys_leb (pcolumn_key_level1 a) (pcolumn_key_level1 b)) pcols).
  assert (Pp' : Permutation (map fst pcols') (list_prod metrics years)).
  { rewrite <- Pp. apply Permutation_map. apply sort_perm. }
  assert (Hint : forall c, In c pcols' -> exists z, int_of (snd (fst c)) = Some z).
  { intros c Hc.
    assert (In (fst c) (list_prod metrics years)) as Hy
      by (apply (Permutation_in _ Pp'); now apply in_map).
    destruct (fst c) as [m y]. apply in_prod_iff in Hy as [_ Hy]. cbn [snd].
    destruct (years_from_K index_cols ks n y Hy) as (key & Hkey & <-).
    destruct (K_from_rows ks n key Hkey) as (i & Hi & ->).
    fold w. rewrite (row_nth ks i w (column df YEAR_COLUMN) Hw), Eyear.
    assert (Hgy : good_values n (column df YEAR_COLUMN)).
    { apply Hgood, in_or_app. left. unfold by_. apply in_or_app. right. now left. }
    destruct Hgy as [Hna Hl].
    apply (numeric_int_of (column df YEAR_COLUMN)).
    - apply (wf_typed df YEAR_COLUMN); [exact Hwf|].
      apply column_getitem, Hmem, in_or_app. left. unfold by_. apply in_or_app. right. now left.
    - exact Hynum.
    - apply nth_In. lia.
    - apply all_notna_nth; [exact Hna | lia]. }
  exists (reset_index (mkPivot (combine index_cols (map dtype_of (firstn w ks))) idx pcols')
            (map (fun c => column_label (fst (fst c)) (snd (fst c))) pcols')).
  exists years, (map fst pcols'), (key_column idx 0).
  split.
  { unfold pivot_wide. fold agg_dict by_. rewrite Eg. cbn [bind]. rewrite Ep. cbn [bind].
    unfold sort_columns_level1. cbn [pcolumns index_names index]. fold pcols' idx.
    rewrite (all_some_map _ (fun c => column_label (fst (fst c)) (snd (fst c)))).
    2:{ intros c Hc. destruct (Hint c Hc) as [z Ez]. unfold column_label. now rewrite Ez. }
    cbn [bind].
    rewrite (column_getitem df YEAR_COLUMN).
    2:{ apply Hmem, in_or_app. left. unfold by_. apply in_or_app. right. now left. }
    reflexivity. }
  split; [apply sort_sorted; exact cell_leb_total|].
  split; [apply sorted_unique_NoDupA|].
  split.
  { intros c. unfold years, K. rewrite <- Eyear.
    apply (years_InA ks n Hks w (column df YEAR_COLUMN) c Hw). }
  split.
  { unfold columns, reset_index. cbn [series index_names pcolumns]. rewrite map_app. f_equal.
    - rewrite map_map. cbn [fst].
      rewrite <- (map_map snd fst), map_snd_combine by (rewrite length_seq; lia).
      apply map_fst_combine. rewrite length_map, length_firstn. unfold w in *. lia.
    - rewrite map_fst_combine by (rewrite !length_map; lia).
      now rewrite map_map. }
  split; [exact Pp'|].
  split.
  { apply Sorted_map. unfold pcols'.
    apply (sort_sorted (fun a b => keys_leb (pcolumn_key_level1 a) (pcolumn_key_level1 b))).
    intros a b. apply keys_leb_total. }
  split.
  { unfold getitem, reset_index, ks, by_, index_cols, w. cbn. reflexivity. }
  split.
  { unfold key_column. apply NoDupA_map with (eqA := keys_eq).
    - apply sorted_unique_keys_NoDupA.
    - intros a b Ha Hb E.
      destruct (idx_from_K index_cols ks n a Ha) as (ka & Hka & <-).
      destruct (idx_from_K index_cols ks n b Hb) as (kb & Hkb & <-).
      destruct (K_from_rows ks n ka Hka) as (i & Hi & ->).
      destruct (K_from_rows ks n kb Hkb) as (j & Hj & ->).
      unfold keys_eq. apply Hfd; [exact Hi | exact Hj |].
      fold w in E. unfold w, index_cols in E. cbn [List.length] in E.
      rewrite !nth0_firstn in E. exact E. }
  { intros c.
    assert (H0 : 0 < List.length ks) by lia.
    refine (key_part_InA ks n Hks (firstn w) 0 (column df "municipio_cod") c H0 _ _).
    - intros key _. unfold w, index_cols. cbn [List.length]. apply nth0_firstn.
    - intros a b. apply keys_eqb_firstn. }
Qed.

Lemma NoDup_METRIC_COLUMNS : NoDup METRIC_COLUMNS.
Proof. repeat constructor; simpl; intuition discriminate. Qed.

Lemma match_cons {A B} (l : list A) (a b : B) :
  l <> [] -> match l with [] => a | _ :: _ => b end = b.
Proof. destruct l; [contradiction | reflexivity]. Qed.

Section Properties.

Variable repr_float : Q -> string.

(** ** The identifier normalizer *)

(** What lines 174-181 (width 7) and 183-190 (width 6) put in the key column:
    the key of each raw code. *)
Lemma code6_series (w : nat) (s : Series) :
  values (str_slice_to 6 (code_digits repr_float w s))
  = map (fun c => Txt (code6 repr_float w c)) (values s).
Proof.
  unfold code_digits, str_slice_to, str_zfill, fillna_empty, str_replace_non_digits,
    astype_str, str_map; simpl.
  rewrite !map_map. apply map_ext. intros c. unfold code6.
  rewrite zfill_digits by apply filter_string_digits. reflexivity.
Qed.

(** C2, as amended.  The key column of either side holds, for each raw code,
    its digits left-padded with zeros to the width of the side (7 for the
    shapefile, 6 for the CSV) and cut to six characters.  A shapefile code of
    seven digits and a CSV code of at least six digits with the same first
    six digits get the same key, whatever the seventh digit.  3106200 and
    310620 both give 310620; 31062 gives 031062. *)
Theorem C2_truncation_symmetry :
  (forall w s,
      values (str_slice_to 6 (code_digits repr_float w s))
      = map (fun c => Txt (code6 repr_float w c)) (values s))
  /\ (forall g t : cell,
         let dg := Py.filter_string Py.is_digit (to_str repr_float g) in
         let dt := Py.filter_string Py.is_digit (to_str repr_float t) in
         String.length dg = 7 ->
         6 <= String.length dt ->
         Py.take 6 dt = Py.take 6 dg ->
         code6 repr_float 7 g = Py.take 6 dg
         /\ code6 repr_float 6 t = code6 repr_float 7 g)
  /\ code6 repr_float 7 (Int 3106200) = "310620"
  /\ code6 repr_float 6 (Int 310620) = "310620"
  /\ code6 repr_float 6 (Int 31062) = "031062".
Proof.
  split; [exact code6_series|].
  split; [|repeat split; reflexivity].
  intros g t dg dt Hg Ht Heq. unfold code6. fold dg. fold dt.
  rewrite Hg. replace (6 - String.length dt) with 0 by lia.
  simpl Py.zeros. simpl append. split; [reflexivity | exact Heq].
Qed.

(** C4, as amended.  The lower-case and the upper-case spelling give the
    token [Sao Joao Del Rei]; the accented spelling with the hyphen gives
    [Sao Joao Del-Rei]: accents and case are folded, the hyphen is kept. *)
Theorem C4_name_tokens :
  normalizar_nome repr_float (Txt nome_minusculo) = "Sao Joao Del Rei"
  /\ normalizar_nome repr_float (Txt nome_maiusculo) = "Sao Joao Del Rei"
  /\ normalizar_nome repr_float (Txt nome_acentuado) = "Sao Joao Del-Rei".
Proof. repeat split; reflexivity. Qed.

(** ** The two joins *)

Lemma with_codes_Some df col w dl cl raw :
  dl <> cl -> getitem df col = Some raw ->
  exists df', with_codes repr_float df col w dl cl = Some df'
    /\ getitem df' cl = Some (str_slice_to 6 (code_digits repr_float w raw))
    /\ nrows df' = nrows df.
Proof.
  intros Hne H. unfold with_codes, bind. rewrite H, getitem_setitem_same.
  eexists. split; [reflexivity|]. split; [apply getitem_setitem_same | reflexivity].
Qed.

Lemma with_nome_norm_Some df col nomes :
  getitem df col = Some nomes ->
  exists df', with_nome_norm repr_float df col = Some df'
    /\ getitem df' "__nome_norm" = Some (apply_str (normalizar_nome repr_float) nomes)
    /\ nrows df' = nrows df.
Proof.
  intros H. unfold with_nome_norm, bind. rewrite H.
  eexists. split; [reflexivity|]. split; [apply getitem_setitem_same | reflexivity].
Qed.

Lemma preparar_codigos_unfold gdf df shp csv s_g s_d :
  getitem gdf shp = Some s_g -> getitem df csv = Some s_d ->
  exists merged,
    preparar_codigos repr_float gdf df shp csv
    = Some (fold_left drop_present transient_columns merged, count_with_data merged)
    /\ nrows merged
       = List.length (left_join_indexer
                        (map (fun c => Txt (code6 repr_float 7 c)) (values s_g))
                        (map (fun c => Txt (code6 repr_float 6 c)) (values s_d)))
    /\ rect merged.
Proof.
  intros Hg Hd.
  destruct (with_codes_Some gdf shp 7 "__shp_code_digits" "__shp_code6" s_g) as (g & Eg & Kg & _);
    [discriminate | exact Hg |].
  destruct (with_codes_Some df csv 6 "__csv_code_digits" "__csv_code6" s_d) as (d & Ed & Kd & _);
    [discriminate | exact Hd |].
  destruct (merge_left_Some g d _ _ _ _ Kg Kd) as (m & Em & Nm & Lm).
  exists m. unfold preparar_codigos, bind. rewrite Eg, Ed, Em.
  split; [reflexivity|]. split; [|exact Lm].
  rewrite Nm, !code6_series. reflexivity.
Qed.

Lemma merge_por_nome_unfold gdf df shp_name s_g s_d :
  getitem gdf shp_name = Some s_g -> getitem df "municipio_nome" = Some s_d ->
  exists merged,
    merge_por_nome repr_float gdf df shp_name = Some (drop_present merged "__nome_norm")
    /\ nrows merged
       = List.length (left_join_indexer
                        (map (fun c => Txt (normalizar_nome repr_float c)) (values s_g))
                        (map (fun c => Txt (normalizar_nome repr_float c)) (values s_d)))
    /\ rect merged.
Proof.
  intros Hg Hd.
  destruct (with_nome_norm_Some gdf shp_name s_g Hg) as (g & Eg & Kg & _).
  destruct (with_nome_norm_Some df "municipio_nome" s_d Hd) as (d & Ed & Kd & _).
  destruct (merge_left_Some g d _ _ _ _ Kg Kd) as (m & Em & Nm & Lm).
  exists m. unfold merge_por_nome, bind. rewrite Eg, Ed, Em.
  split; [reflexivity|]. split; [|exact Lm]. rewrite Nm. reflexivity.
Qed.


Lemma rows_with_fold_drop cols m :
  ~ In "total_violencia_domestica" cols ->
  rows_with "total_violencia_domestica" (fold_left drop_present cols m) = rows_with "total_violencia_domestica" m.
Proof.
  intros H. unfold rows_with, cell_at.
  now rewrite fold_drop_nrows, fold_drop_getitem.
Qed.

Lemma with_codes_inv df col w dl cl df' :
  with_codes repr_float df col w dl cl = Some df' -> exists raw, getitem df col = Some raw.
Proof.
  unfold with_codes, bind. destruct (getitem df col) as [raw|]; [eauto | discriminate].
Qed.

Lemma with_nome_norm_inv df col df' :
  with_nome_norm repr_float df col = Some df' -> exists nomes, getitem df col = Some nomes.
Proof.
  unfold with_nome_norm, bind. destruct (getitem df col) as [s|]; [eauto | discriminate].
Qed.

(** Whatever the code join returns is rectangular, with its count. *)
Lemma preparar_codigos_inv gdf df shp csv merged matches :
  preparar_codigos repr_float gdf df shp csv = Some (merged, matches) ->
  rect merged /\ matches = rows_with "total_violencia_domestica" merged.
Proof.
  intros H.
  assert (exists s_g, getitem gdf shp = Some s_g) as [s_g Hg].
  { unfold preparar_codigos, bind in H.
    destruct (with_codes repr_float gdf shp 7 _ _) eqn:E; [|discriminate].
    now apply with_codes_inv in E. }
  assert (exists s_d, getitem df csv = Some s_d) as [s_d Hd].
  { unfold preparar_codigos, bind in H.
    destruct (with_codes repr_float gdf shp 7 _ _); [|discriminate].
    destruct (with_codes repr_float df csv 6 _ _) eqn:E; [|discriminate].
    now apply with_codes_inv in E. }
  destruct (preparar_codigos_unfold gdf df _ _ _ _ Hg Hd) as (m & E & _ & L).
  assert (merged = fold_left drop_present transient_columns m
          /\ matches = count_with_data m) as [-> ->].
  { rewrite E in H. injection H as H1 H2. split; symmetry; assumption. }
  split.
  - now apply rect_fold_drop.
  - rewrite rows_with_fold_drop.
    + now apply count_with_data_rows.
    + unfold transient_columns. simpl. intuition discriminate.
Qed.

Lemma merge_por_nome_inv gdf df shp_name merged :
  merge_por_nome repr_float gdf df shp_name = Some merged -> rect merged.
Proof.
  intros H.
  assert (exists s_g, getitem gdf shp_name = Some s_g) as [s_g Hg].
  { unfold merge_por_nome, bind in H.
    destruct (with_nome_norm repr_float gdf shp_name) eqn:E; [|discriminate].
    now apply with_nome_norm_inv in E. }
  assert (exists s_d, getitem df "municipio_nome" = Some s_d) as [s_d Hd].
  { unfold merge_por_nome, bind in H.
    destruct (with_nome_norm repr_float gdf shp_name); [|discriminate].
    destruct (with_nome_norm repr_float df "municipio_nome") eqn:E; [|discriminate].
    now apply with_nome_norm_inv in E. }
  destruct (merge_por_nome_unfold gdf df _ _ _ Hg Hd) as (m & E & _ & L).
  assert (merged = drop_present m "__nome_norm") as ->.
  { rewrite E in H. injection H as H1. symmetry. assumption. }
  now apply rect_drop_present.
Qed.

(** The counts [main] prints at lines 249-255. *)
Lemma main_counts gdf df_raw e :
  main repr_float gdf df_raw = Ok e ->
  total e = len (combined e) /\ with_data e = rows_with "total_violencia_domestica" (combined e).
Proof.
  unfold main.
  destruct (pivotar_dados_por_ano df_raw) as [[df anos]|]; [|discriminate].
  set (shp := detect_code_column (columns gdf)).
  set (csv := if mem "municipio_cod" (columns df) then Some "municipio_cod"
              else detect_code_column (columns df)).
  set (by_code := match shp, csv with
                  | Some s, Some c =>
                      if truthy shp && truthy csv
                      then Some (option_map fst (preparar_codigos repr_float gdf df s c))
                      else None
                  | _, _ => None
                  end).
  set (merged := match by_code with
                 | Some r => lift r
                 | None =>
                     match detect_name_column (columns gdf) with
                     | Some n => if mem "municipio_nome" (columns df)
                                 then lift (merge_por_nome repr_float gdf df n)
                                 else Exit 1
                     | None => Exit 1
                     end
                 end).
  assert (Hrect : forall m, merged = Ok m -> rect m).
  { intros m Hm. unfold merged, by_code in Hm.
    destruct shp as [s|], csv as [c|];
      try (destruct (truthy (Some s) && truthy (Some c)));
      try (destruct (preparar_codigos repr_float gdf df s c) as [[m' k]|] eqn:E;
           [apply preparar_codigos_inv in E as [R _]; cbn in Hm; now injection Hm as <-
           | discriminate]);
      (destruct (detect_name_column (columns gdf)) as [n|]; [|discriminate];
       destruct (mem "municipio_nome" (columns df)); [|discriminate];
       destruct (merge_por_nome repr_float gdf df n) as [m'|] eqn:E; [|discriminate];
       apply merge_por_nome_inv in E; cbn in Hm; now injection Hm as <-). }
  destruct merged as [m| |]; try discriminate.
  intros H.
  destruct (match anos with
            | Some (ano :: anos0) =>
                match shp, csv with
                | Some s, Some c =>
                    if truthy shp && truthy csv && mem YEAR_COLUMN (columns df_raw)
                    then export_years repr_float gdf df_raw s c (ano :: anos0)
                    else Some []
                | _, _ => Some []
                end
            | _ => Some []
            end) as [ys|] eqn:Ey.
  - injection H as <-. cbn [total combined with_data]. split; [reflexivity|].
    apply count_with_data_rows. now apply Hrect.
  - discriminate.
Qed.

Lemma no_digits_code6 c w : no_digits repr_float c -> code6 repr_float w c = Py.take 6 (Py.zeros w).
Proof.
  unfold no_digits, code6. intros ->. simpl.
  now rewrite Nat.sub_0_r, append_empty_r.
Qed.

Lemma nth_error_map_Some {A B} (f : A -> B) l i a :
  nth_error l i = Some a -> nth_error (map f l) i = Some (f a).
Proof. intros H. now rewrite nth_error_map, H. Qed.

(** ** The reshaper's no-op cases and the fallback of [main] *)

(** C9, as amended.  When the code column is absent the single-year
    aggregation does not fail: it returns the table as it is, every row
    kept, duplicates included. *)
Theorem C9_missing_code_column (df : DataFrame) (csv_code_col : string) :
  mem csv_code_col (columns df) = false ->
  agrupar_por_municipio df csv_code_col = Some df.
Proof. intros H. unfold agrupar_por_municipio. now rewrite H. Qed.

Lemma filter_metrics_nil df :
  (forall m, In m METRIC_COLUMNS -> mem m (columns df) = false) ->
  filter (fun col => mem col (columns df)) METRIC_COLUMNS = [].
Proof.
  intros H. induction METRIC_COLUMNS as [|m ms IH]; simpl; [reflexivity|].
  rewrite (H m) by now left. apply IH. intros m' Hm'. apply H. now right.
Qed.


(** C8.  When no code column is detected on the feature side, or none on
    the table side, [main] goes on with the join by name: it ends normally
    with the frame of [merge_por_nome] when a feature-side name column is
    detected and the table has [municipio_nome], and with [sys.exit(1)]
    otherwise. *)
Theorem C8_fallback (gdf df_raw df : DataFrame) (anos : option (list cell)) :
  pivotar_dados_por_ano df_raw = Some (df, anos) ->
  detect_code_column (columns gdf) = None
  \/ (mem "municipio_cod" (columns df) = false /\ detect_code_column (columns df) = None) ->
  match detect_name_column (columns gdf) with
  | Some shp_name_col =>
      if mem "municipio_nome" (columns df)
      then exists merged,
             merge_por_nome repr_float gdf df shp_name_col = Some merged
             /\ main repr_float gdf df_raw
                = Ok (mkExports merged (len merged) (count_with_data merged) [])
      else main repr_float gdf df_raw = Exit 1
  | None => main repr_float gdf df_raw = Exit 1
  end.
Proof.
  intros Hp Hcode. unfold main. rewrite Hp.
  assert (Hby :
    match detect_code_column (columns gdf),
          (if mem "municipio_cod" (columns df) then Some "municipio_cod"
           else detect_code_column (columns df)) with
    | Some _, Some _ => False
    | _, _ => True
    end).
  { destruct Hcode as [-> | [-> ->]]; [exact I|].
    destruct (detect_code_column (columns gdf)); exact I. }
  destruct (detect_code_column (columns gdf)) as [shp|];
    destruct (if mem "municipio_cod" (columns df) then Some "municipio_cod"
              else detect_code_column (columns df)) as [csv|];
    try contradiction;
    (destruct (detect_name_column (columns gdf)) as [n|] eqn:En; [|reflexivity];
     destruct (mem "municipio_nome" (columns df)) eqn:Em; [|reflexivity];
     apply detect_In in En; apply mem_true_iff in En;
     destruct (getitem_mem _ _ En) as [s_g Hg];
     destruct (getitem_mem _ _ Em) as [s_d Hd];
     destruct (merge_por_nome_unfold gdf df n s_g s_d Hg Hd) as (m & E & _);
     eexists; split; [exact E|]; rewrite E; simpl;
     destruct anos as [[|? ?]|]; reflexivity).
Qed.

(** ** The single-year aggregation *)

(** C6, as amended.  With the code column present, the columns that are
    aggregated are [municipio_nome] (by [first]) and the numeric columns other
    than the code and the year (by mean when in the mean set, by sum
    otherwise).  When there is at least one, the result has the distinct
    codes that are not missing, in order, and each aggregated column reduced
    over the records of each code: the year column and every other
    non-numeric column are gone.  When there is none, the table comes back
    with all its columns, deduplicated on the code.  The sum of an [int64]
    column is an [int64] sum, the sum of a [float64] column and every mean
    are [float64] results, whatever the rounding.  Two records with rates
    2.0 and 4.0 and counts 10 and 15 give one row with rate 3.0 and count
    25, in every such arithmetic. *)
Theorem C6_single_year_aggregation :
  (forall (df : DataFrame) (csv_code_col : string) (code_s : Series),
      wf df ->
      getitem df csv_code_col = Some code_s ->
      let agg_dict := agg_dict_of df csv_code_col in
      let codes := sorted_unique_notna code_s in
      (forall l f,
          In (l, f) agg_dict
          <-> exists s, In (l, s) (series df)
                        /\ l <> csv_code_col /\ l <> YEAR_COLUMN
                        /\ f = (if String.eqb l "municipio_nome" then First else agg_of l)
                        /\ (l = "municipio_nome" \/ is_numeric_dtype s = true))
      /\ exists out,
          agrupar_por_municipio df csv_code_col = Some out
          /\ match agg_dict with
             | [] => drop_duplicates df csv_code_col = Some out
                     /\ columns out = columns df
             | _ :: _ =>
                 out = mkDF (List.length codes)
                         ((csv_code_col, mkSeries (dtype_of code_s) codes)
                          :: map (fun lf => (fst lf,
                                             aggregated (values code_s) codes (snd lf)
                                               (column df (fst lf))))
                                 agg_dict)
             end)
  /\ agrupar_por_municipio df_mesmo_municipio "municipio_cod"
     = Some (mkDF 1 [("municipio_cod", mkSeries int64 [Int 310620]);
                     ("taxa_feminicidio", mkSeries float64 [Flt (Qmake 3 1)]);
                     ("total_violencia_domestica", mkSeries int64 [Int 25])]).
Proof.
  split.
  2:{ pose proof (float_mean_integers [2; 4]%Z 3%Z) as H.
      change (map inject_Z [2; 4]%Z) with [Qmake 2 1; Qmake 4 1] in H.
      change (inject_Z 3) with (Qmake 3 1) in H.
      rewrite <- H; [reflexivity | discriminate | vm_compute; discriminate | reflexivity]. }
  intros df code code_s Hwf Hc agg_dict codes.
  split; [intros l f; apply agg_dict_of_In|].
  unfold agrupar_por_municipio.
  rewrite (getitem_Some_mem _ _ _ Hc). cbn [negb].
  fold agg_dict. destruct agg_dict as [|lf rest] eqn:E.
  - unfold drop_duplicates. rewrite Hc. eexists. split; [reflexivity|].
    split; [reflexivity | apply columns_take_rows].
  - rewrite <- E. eexists. split; [|reflexivity].
    apply groupby_agg_single; [exact Hc | now apply (wf_length df code) |].
    intros l f Hin. unfold agg_dict in Hin.
    apply agg_dict_of_In in Hin as (s & Hin & _ & _ & Hf & Hk).
    exists s. split; [now apply wf_getitem|]. split.
    + destruct (String.eqb l "municipio_nome") eqn:E3; [now left|].
      destruct Hk as [->|Hk]; [discriminate|]. right.
      unfold is_numeric_dtype in Hk. intros F. now rewrite F in Hk.
    + apply (wf_length df l); [exact Hwf | now apply wf_getitem].
Qed.

(** ** The wide pivot *)


End Properties.

(** * Further properties of the code *)

Ltac all_chars c := destruct c as [[] [] [] [] [] [] [] []].

(** ** The detectors, in full *)

Lemma first_with_spec alvo colunas :
  match first_with alvo colunas (map Py.lower colunas) with
  | Some c =>
      exists before after,
        colunas = before ++ c :: after
        /\ Py.contains alvo (Py.lower c) = true
        /\ (forall c', In c' before -> Py.contains alvo (Py.lower c') = false)
  | None => forall c, In c colunas -> Py.contains alvo (Py.lower c) = false
  end.
Proof.
  induction colunas as [|c0 cs IH]; simpl; [intros c []|].
  destruct (Py.contains alvo (Py.lower c0)) eqn:E.
  - exists [], cs. repeat split; [exact E | intros c' []].
  - destruct (first_with alvo cs (map Py.lower cs)) as [c|].
    + destruct IH as (before & after & -> & Hc & Hb).
      exists (c0 :: before), after. repeat split; [exact Hc|].
      intros c' [<-|H]; [exact E | now apply Hb].
    + intros c [<-|H]; [exact E | now apply IH].
Qed.

(** X1.  What the two column detectors return, for any ranked list of
    keywords.  A returned column is a column of the input: the first one, in
    column order, whose lower-cased name contains the best-ranked keyword
    that any column contains; no keyword ranked above it occurs in any
    column.  [None] is returned exactly when no keyword occurs in any
    lower-cased column name. *)
Theorem detect_first_match (candidatos colunas : list string) :
  match detect candidatos colunas with
  | Some c =>
      exists higher alvo lower_ranked before after,
        candidatos = higher ++ alvo :: lower_ranked
        /\ colunas = before ++ c :: after
        /\ Py.contains alvo (Py.lower c) = true
        /\ (forall c', In c' before -> Py.contains alvo (Py.lower c') = false)
        /\ (forall a c', In a higher -> In c' colunas ->
                         Py.contains a (Py.lower c') = false)
  | None =>
      forall a c, In a candidatos -> In c colunas -> Py.contains a (Py.lower c) = false
  end.
Proof.
  induction candidatos as [|alvo rest IH]; simpl; [intros a c []|].
  pose proof (first_with_spec alvo colunas) as F.
  destruct (first_with alvo colunas (map Py.lower colunas)) as [c|].
  - destruct F as (before & after & E & Hc & Hb).
    exists [], alvo, rest, before, after. repeat split; try assumption.
    intros a c' [].
  - destruct (detect rest colunas) as [c|].
    + destruct IH as (higher & a0 & lower_ranked & before & after & -> & E & Hc & Hb & Hh).
      exists (alvo :: higher), a0, lower_ranked, before, after.
      repeat split; try assumption.
      intros a c' [<-|Ha] Hc'; [now apply F | now apply Hh].
    + intros a c [<-|Ha] Hc; [now apply F | now apply IH].
Qed.

Lemma lower_char_idem (c : ascii) : Py.lower_char (Py.lower_char c) = Py.lower_char c.
Proof. all_chars c; reflexivity. Qed.

Lemma lower_idem (s : string) : Py.lower (Py.lower s) = Py.lower s.
Proof.
  unfold Py.lower. induction s as [|c s IH]; simpl; [reflexivity|].
  now rewrite lower_char_idem, IH.
Qed.

Lemma first_with_lowered alvo colunas :
  first_with alvo (map Py.lower colunas) (map Py.lower (map Py.lower colunas))
  = option_map Py.lower (first_with alvo colunas (map Py.lower colunas)).
Proof.
  induction colunas as [|c cs IH]; simpl; [reflexivity|].
  rewrite lower_idem. destruct (Py.contains alvo (Py.lower c)); [reflexivity | exact IH].
Qed.

(** X2.  The detectors do not depend on the case of the column names:
    on the lower-cased names they pick the column at the same position, and
    return its lower-cased name. *)
Theorem detect_case_insensitive (candidatos colunas : list string) :
  detect candidatos (map Py.lower colunas) = option_map Py.lower (detect candidatos colunas).
Proof.
  induction candidatos as [|alvo rest IH]; simpl; [reflexivity|].
  rewrite first_with_lowered.
  destruct (first_with alvo colunas (map Py.lower colunas)); simpl; [reflexivity | exact IH].
Qed.

(** A detected column has a name: it is true in a condition. *)
Lemma contains_empty alvo : alvo <> "" -> Py.contains alvo "" = false.
Proof. destruct alvo; [congruence | reflexivity]. Qed.

Lemma first_with_contains alvo colunas c :
  first_with alvo colunas (map Py.lower colunas) = Some c ->
  Py.contains alvo (Py.lower c) = true.
Proof.
  induction colunas as [|c0 cs IH]; cbn; [discriminate|].
  destruct (Py.contains alvo (Py.lower c0)) eqn:E; [|exact IH].
  now intros [= <-].
Qed.

Lemma detect_truthy candidatos colunas c :
  Forall (fun alvo => alvo <> "") candidatos ->
  detect candidatos colunas = Some c -> truthy (Some c) = true.
Proof.
  induction 1 as [|alvo rest Ha Hr IH]; cbn [detect]; [discriminate|].
  destruct (first_with alvo colunas (map Py.lower colunas)) as [c'|] eqn:E; [|exact IH].
  intros [= <-]. apply first_with_contains in E. cbn [truthy].
  destruct c' as [|x r]; [|reflexivity].
  change (Py.lower "") with "" in E. now rewrite (contains_empty alvo Ha) in E.
Qed.

Lemma detect_code_column_truthy colunas c :
  detect_code_column colunas = Some c -> truthy (Some c) = true.
Proof.
  apply detect_truthy. unfold code_candidatos. repeat constructor; discriminate.
Qed.

Lemma csv_code_column_truthy df c :
  csv_code_column df = Some c -> truthy (Some c) = true /\ mem c (columns df) = true.
Proof.
  unfold csv_code_column. destruct (mem "municipio_cod" (columns df)) eqn:E.
  - intros [= <-]. split; [reflexivity | exact E].
  - intros H. split; [now apply detect_code_column_truthy in H|].
    apply mem_true_iff. now apply detect_In in H.
Qed.

(** ** The shape of a code key *)

Lemma length_take n s : String.length (Py.take n s) = Nat.min n (String.length s).
Proof.
  revert s. induction n as [|n IH]; intros [|c s]; simpl; try reflexivity.
  now rewrite IH.
Qed.

Lemma take_all n s : String.length s <= n -> Py.take n s = s.
Proof.
  revert s. induction n as [|n IH]; intros [|c s] H; simpl in *; try reflexivity; try lia.
  rewrite IH by lia. reflexivity.
Qed.

Lemma forall_string_app f s t :
  Py.forall_string f (s ++ t) = Py.forall_string f s && Py.forall_string f t.
Proof.
  induction s as [|c s IH]; simpl; [reflexivity|]. now rewrite IH, andb_assoc.
Qed.

Lemma forall_string_take f n s :
  Py.forall_string f s = true -> Py.forall_string f (Py.take n s) = true.
Proof.
  revert s. induction n as [|n IH]; intros [|c s]; simpl; try reflexivity.
  rewrite !andb_true_iff. intros [H1 H2]. split; [exact H1 | now apply IH].
Qed.

Lemma zeros_digits n : Py.forall_string Py.is_digit (Py.zeros n) = true.
Proof. induction n as [|n IH]; simpl; [reflexivity | exact IH]. Qed.

Lemma filter_string_id f s :
  Py.forall_string f s = true -> Py.filter_string f s = s.
Proof.
  induction s as [|c s IH]; simpl; [reflexivity|].
  rewrite andb_true_iff. intros [-> H]. now rewrite IH.
Qed.

Section CodeKeys.

Variable repr_float : Q -> string.

Lemma code6_shape (w : nat) (c : cell) :
  6 <= w ->
  let k := code6 repr_float w c in
  String.length k = 6
  /\ Py.forall_string Py.is_digit k = true
  /\ code6 repr_float 6 (Txt k) = k
  /\ code6 repr_float 7 (Txt k) = String "0" (Py.take 5 k).
Proof.
  intros Hw k.
  assert (Hl : String.length k = 6).
  { unfold k, code6. rewrite length_take, length_append, length_zeros. lia. }
  assert (Hd : Py.forall_string Py.is_digit k = true).
  { unfold k, code6. apply forall_string_take.
    now rewrite forall_string_app, zeros_digits, filter_string_digits. }
  split; [exact Hl|]. split; [exact Hd|].
  unfold code6 at 1 2. cbn [to_str].
  rewrite (filter_string_id _ _ Hd), Hl. cbn [Nat.sub Py.zeros append].
  split; [apply take_all; lia|].
  cbn [Py.take]. reflexivity.
Qed.

(** X3.  With a padding width of at least six (the script uses 7 and 6),
    every cell of a key column is a text of exactly six decimal digits,
    whatever the raw codes are.  Normalizing a key column again on the table
    side (width 6) changes nothing; normalizing it again on the shapefile
    side (width 7) does: each key becomes a zero followed by its first five
    digits. *)
Theorem code_keys_six_digits (w : nat) (s : Series) :
  6 <= w ->
  let keys := str_slice_to 6 (code_digits repr_float w s) in
  Forall six_digits (values keys)
  /\ values (str_slice_to 6 (code_digits repr_float 6 keys)) = values keys
  /\ values (str_slice_to 6 (code_digits repr_float 7 keys))
     = map (fun c => Txt (String "0" (Py.take 5 (to_str repr_float c)))) (values keys).
Proof.
  intros Hw keys.
  assert (Hk : values keys = map (fun c => Txt (code6 repr_float w c)) (values s))
    by apply code6_series.
  rewrite !code6_series, Hk, !map_map.
  split; [|split].
  - apply Forall_map, Forall_forall. intros c _.
    destruct (code6_shape w c Hw) as (Hl & Hd & _).
    exists (code6 repr_float w c). auto.
  - apply map_ext. intros c. f_equal. apply (code6_shape w c Hw).
  - apply map_ext. intros c. f_equal. apply (code6_shape w c Hw).
Qed.

End CodeKeys.

(** ** The name normalizer *)

Lemma title_char_space b c : Py.is_space (title_char b c) = Py.is_space c.
Proof. destruct b; all_chars c; reflexivity. Qed.
Lemma title_char_ascii b c : is_ascii (title_char b c) = is_ascii c.
Proof. destruct b; all_chars c; reflexivity. Qed.
Lemma title_char_cased b c : is_cased (title_char b c) = is_cased c.
Proof. destruct b; all_chars c; reflexivity. Qed.
Lemma title_char_idem b c : title_char b (title_char b c) = title_char b c.
Proof. destruct b; all_chars c; reflexivity. Qed.
Lemma lower_char_space c : Py.is_space (Py.lower_char c) = Py.is_space c.
Proof. all_chars c; reflexivity. Qed.
Lemma lower_char_ascii c : is_ascii (Py.lower_char c) = is_ascii c.
Proof. all_chars c; reflexivity. Qed.
Lemma lower_char_cased c : is_cased (Py.lower_char c) = is_cased c.
Proof. all_chars c; reflexivity. Qed.
Lemma title_char_lower b c : is_ascii c = true -> title_char b (Py.lower_char c) = title_char b c.
Proof. destruct b; all_chars c; (reflexivity || discriminate). Qed.
Lemma nfkd_char_ascii c :
  is_ascii c = true -> Py.encode_ascii_ignore (Py.nfkd_char c) = String c "".
Proof. all_chars c; (reflexivity || discriminate). Qed.
Lemma nfkd_char_lower c :
  Py.encode_ascii_ignore (Py.nfkd_char (Py.lower_char c))
  = Py.lower (Py.encode_ascii_ignore (Py.nfkd_char c)).
Proof. all_chars c; reflexivity. Qed.
Lemma nfkd_char_is_ascii c :
  Py.forall_string is_ascii (Py.encode_ascii_ignore (Py.nfkd_char c)) = true.
Proof. all_chars c; reflexivity. Qed.

Lemma title_from_eq b s :
  Py.title_from b s
  = match s with
    | EmptyString => EmptyString
    | String c r => String (title_char b c) (Py.title_from (is_cased c) r)
    end.
Proof. destruct s; reflexivity. Qed.

Lemma encode_app a b :
  Py.encode_ascii_ignore (a ++ b)
  = (Py.encode_ascii_ignore a ++ Py.encode_ascii_ignore b)%string.
Proof.
  induction a as [|n a IH]; simpl; [reflexivity|].
  destruct (n <? 128)%N; simpl; now rewrite IH.
Qed.

Lemma map_string_app f s t :
  Py.map_string f (s ++ t) = (Py.map_string f s ++ Py.map_string f t)%string.
Proof. induction s as [|c s IH]; simpl; [reflexivity | now rewrite IH]. Qed.

Lemma length_map_string f s : String.length (Py.map_string f s) = String.length s.
Proof. induction s as [|c s IH]; simpl; [reflexivity | now rewrite IH]. Qed.

(** What [normalizar_nome] splits is ASCII; on ASCII the folding changes
    nothing, and it commutes with lower-casing. *)
Lemma folded_is_ascii s :
  Py.forall_string is_ascii (Py.encode_ascii_ignore (Py.nfkd s)) = true.
Proof.
  induction s as [|c s IH]; simpl; [reflexivity|].
  now rewrite encode_app, forall_string_app, nfkd_char_is_ascii, IH.
Qed.

Lemma folded_ascii_id s :
  Py.forall_string is_ascii s = true -> Py.encode_ascii_ignore (Py.nfkd s) = s.
Proof.
  induction s as [|c s IH]; simpl; [reflexivity|].
  rewrite andb_true_iff. intros [Hc Hs].
  now rewrite encode_app, (nfkd_char_ascii c Hc), IH.
Qed.

Lemma folded_lower s :
  Py.encode_ascii_ignore (Py.nfkd (Py.lower s))
  = Py.lower (Py.encode_ascii_ignore (Py.nfkd s)).
Proof.
  unfold Py.lower. induction s as [|c s IH]; simpl; [reflexivity|].
  rewrite !encode_app, map_string_app, IH. f_equal. apply nfkd_char_lower.
Qed.

(** Title case: [title] keeps lengths, ASCII and white space, and is
    idempotent. *)
Lemma title_from_forall (p : ascii -> bool) b s :
  (forall b c, p (title_char b c) = p c) ->
  Py.forall_string p (Py.title_from b s) = Py.forall_string p s.
Proof.
  intros H. revert b. induction s as [|c s IH]; intros b; [reflexivity|].
  rewrite title_from_eq. cbn [Py.forall_string]. now rewrite H, IH.
Qed.

Lemma length_title_from b s : String.length (Py.title_from b s) = String.length s.
Proof.
  revert b. induction s as [|c s IH]; intros b; [reflexivity|].
  rewrite title_from_eq. cbn [String.length]. now rewrite IH.
Qed.

Lemma title_from_idem b s : Py.title_from b (Py.title_from b s) = Py.title_from b s.
Proof.
  revert b. induction s as [|c s IH]; intros b; [reflexivity|].
  rewrite (title_from_eq b (String c s)), title_from_eq.
  now rewrite title_char_idem, title_char_cased, IH.
Qed.

Lemma title_from_lower b s :
  Py.forall_string is_ascii s = true ->
  Py.title_from b (Py.lower s) = Py.title_from b s.
Proof.
  unfold Py.lower. revert b. induction s as [|c s IH]; intros b; [reflexivity|].
  cbn [Py.forall_string Py.map_string]. rewrite andb_true_iff. intros [Hc Hs].
  rewrite (title_from_eq b (String c s)), title_from_eq.
  now rewrite (title_char_lower b c Hc), lower_char_cased, IH.
Qed.

Lemma title_word w : is_word w = true -> is_word (Py.title w) = true.
Proof.
  unfold is_word, Py.title. rewrite length_title_from.
  rewrite (title_from_forall not_space); [trivial|].
  intros b c. unfold not_space. now rewrite title_char_space.
Qed.

(** The pieces of [split] are words. *)
Lemma split_from_words cur s :
  Py.forall_string not_space cur = true ->
  Forall (fun w => is_word w = true) (Py.split_from cur s).
Proof.
  revert cur. induction s as [|c s IH]; intros cur Hcur; simpl.
  - destruct (String.length cur =? 0)%nat eqn:E; constructor; [|constructor].
    unfold is_word. now rewrite E, Hcur.
  - destruct (Py.is_space c) eqn:Ec.
    + destruct (String.length cur =? 0)%nat eqn:E.
      * now apply IH.
      * constructor; [unfold is_word; now rewrite E, Hcur | now apply IH].
    + apply IH. rewrite forall_string_app, Hcur. simpl. unfold not_space.
      now rewrite Ec.
Qed.

Lemma split_from_ascii cur s :
  Py.forall_string is_ascii cur = true -> Py.forall_string is_ascii s = true ->
  Forall (fun w => Py.forall_string is_ascii w = true) (Py.split_from cur s).
Proof.
  revert cur. induction s as [|c s IH]; intros cur Hcur Hs; simpl in *.
  - destruct (String.length cur =? 0)%nat; repeat constructor. exact Hcur.
  - apply andb_true_iff in Hs as [Hc Hs].
    destruct (Py.is_space c).
    + destruct (String.length cur =? 0)%nat; [|constructor]; try assumption; now apply IH.
    + apply IH; [|exact Hs]. rewrite forall_string_app, Hcur. simpl. now rewrite Hc.
Qed.

(** Splitting what [join] glued with single spaces gives the words back. *)
Lemma split_from_word cur w rest :
  Py.forall_string not_space w = true ->
  Py.split_from cur (w ++ rest) = Py.split_from (cur ++ w) rest.
Proof.
  revert cur. induction w as [|c w IH]; intros cur H; simpl in *.
  - now rewrite append_empty_r.
  - apply andb_true_iff in H as [Hc Hw]. unfold not_space in Hc.
    apply negb_true_iff in Hc. rewrite Hc, (IH _ Hw).
    f_equal. induction cur as [|x cur IHc]; simpl; [reflexivity | now rewrite IHc].
Qed.

Lemma split_join ws :
  Forall (fun w => is_word w = true) ws -> Py.split (Py.join " " ws) = ws.
Proof.
  unfold Py.split. induction 1 as [|w ws Hw Hws IH]; [reflexivity|].
  unfold is_word in Hw. apply andb_true_iff in Hw as [Hn Hs].
  apply negb_true_iff in Hn.
  destruct ws as [|w2 ws].
  - cbn [Py.join]. rewrite <- (append_empty_r w) at 1.
    rewrite (split_from_word "" w "" Hs). simpl. now rewrite Hn.
  - change (Py.join " " (w :: w2 :: ws)) with (w ++ " " ++ Py.join " " (w2 :: ws))%string.
    rewrite (split_from_word "" w _ Hs).
    change ("" ++ w)%string with w.
    change (" " ++ Py.join " " (w2 :: ws))%string with (String " "%char (Py.join " " (w2 :: ws))).
    cbn [Py.split_from]. change (Py.is_space " "%char) with true. cbv iota.
    rewrite Hn. now rewrite IH.
Qed.

Lemma split_from_lower cur s :
  Py.forall_string is_ascii cur = true -> Py.forall_string is_ascii s = true ->
  map Py.title (Py.split_from (Py.lower cur) (Py.lower s))
  = map Py.title (Py.split_from cur s).
Proof.
  revert cur. induction s as [|c s IH]; intros cur Hcur Hs.
  - cbn [Py.lower Py.map_string Py.split_from].
    fold (Py.lower cur). unfold Py.lower at 1. rewrite length_map_string.
    fold (Py.lower cur).
    destruct (String.length cur =? 0)%nat; [reflexivity|]. cbn [map].
    unfold Py.title. now rewrite (title_from_lower false cur Hcur).
  - cbn [Py.forall_string] in Hs. apply andb_true_iff in Hs as [Hc Hs].
    change (Py.lower (String c s)) with (String (Py.lower_char c) (Py.lower s)).
    cbn [Py.split_from]. rewrite lower_char_space.
    unfold Py.lower at 1. rewrite length_map_string. fold (Py.lower cur).
    specialize (IH "" eq_refl Hs) as IH0. change (Py.lower "") with "" in IH0.
    destruct (Py.is_space c).
    + destruct (String.length cur =? 0)%nat; [exact IH0|].
      cbn [map]. rewrite IH0. unfold Py.title.
      now rewrite (title_from_lower false cur Hcur).
    + assert (E : (Py.lower cur ++ String (Py.lower_char c) "")%string
                  = Py.lower (cur ++ String c "")).
      { unfold Py.lower. now rewrite map_string_app. }
      rewrite E. apply IH; [|exact Hs].
      rewrite forall_string_app, Hcur. cbn [Py.forall_string]. now rewrite Hc.
Qed.

Lemma join_ascii ws :
  Forall (fun w => Py.forall_string is_ascii w = true) ws ->
  Py.forall_string is_ascii (Py.join " " ws) = true.
Proof.
  induction 1 as [|w ws Hw Hws IH]; [reflexivity|].
  destruct ws as [|w2 ws]; [exact Hw|].
  change (Py.join " " (w :: w2 :: ws)) with (w ++ " " ++ Py.join " " (w2 :: ws))%string.
  now rewrite !forall_string_app, Hw, IH.
Qed.

Section NameTokens.

Variable repr_float : Q -> string.

(** X4.  The token [normalizar_nome] returns is in normal form, whatever
    the value: it has ASCII characters only; it is its own words joined by
    single spaces (no leading, trailing or repeated white space); and
    normalizing it again returns it unchanged. *)
Theorem normalizar_nome_canonical (valor : cell) :
  let token := normalizar_nome repr_float valor in
  Py.forall_string is_ascii token = true
  /\ Py.join " " (Py.split token) = token
  /\ normalizar_nome repr_float (Txt token) = token.
Proof.
  intros token.
  assert (H : exists ws, token = Py.join " " (map Py.title ws)
                         /\ Forall (fun w => is_word w = true) ws
                         /\ Forall (fun w => Py.forall_string is_ascii w = true) ws).
  { unfold token, normalizar_nome. destruct (isna valor).
    - exists []. repeat split; constructor.
    - eexists. split; [reflexivity|]. split.
      + now apply split_from_words.
      + apply split_from_ascii; [reflexivity | apply folded_is_ascii]. }
  destruct H as (ws & -> & Hw & Ha).
  assert (Hw' : Forall (fun w => is_word w = true) (map Py.title ws)).
  { apply Forall_map. eapply Forall_impl; [|exact Hw]. intros w. apply title_word. }
  assert (Ha' : Forall (fun w => Py.forall_string is_ascii w = true) (map Py.title ws)).
  { apply Forall_map. eapply Forall_impl; [|exact Ha]. intros w Hx. unfold Py.title.
    rewrite (title_from_forall is_ascii); [exact Hx|]. intros b c. apply title_char_ascii. }
  split; [now apply join_ascii|].
  split; [now rewrite split_join|].
  unfold normalizar_nome. cbn [isna to_str].
  rewrite (folded_ascii_id _ (join_ascii _ Ha')), (split_join _ Hw'), map_map.
  f_equal. apply map_ext. intros w. apply title_from_idem.
Qed.

(** X5.  [normalizar_nome] ignores case: a name and its lower-cased form
    get the same token, for every string (accented capitals included). *)
Theorem normalizar_nome_case_insensitive (s : string) :
  normalizar_nome repr_float (Txt (Py.lower s)) = normalizar_nome repr_float (Txt s).
Proof.
  unfold normalizar_nome. cbn [isna to_str]. rewrite folded_lower. f_equal.
  exact (split_from_lower "" _ eq_refl (folded_is_ascii s)).
Qed.

End NameTokens.

(** ** The two joins: row count and content *)

Lemma length_left_rows rk ik :
  List.length (left_rows rk ik) = Nat.max 1 (List.length (filter (cell_eqb (snd ik)) rk)).
Proof.
  unfold left_rows. rewrite <- length_positions.
  destruct (positions _ rk) as [|j js]; [reflexivity|].
  rewrite length_map. simpl. reflexivity.
Qed.

Lemma length_flat_map_sum {A B} (f : A -> list B) l :
  List.length (flat_map f l) = list_sum (map (fun x => List.length (f x)) l).
Proof.
  induction l as [|x l IH]; simpl; [reflexivity|]. now rewrite length_app, IH.
Qed.

Lemma map_combine_seq_snd {A B} (f : A -> B) (l : list A) a :
  map (fun ik => f (snd ik)) (combine (seq a (List.length l)) l) = map f l.
Proof.
  revert a. induction l as [|x l IH]; intros a; simpl; [reflexivity|]. now rewrite IH.
Qed.

Lemma length_left_join_indexer lk rk :
  List.length (left_join_indexer lk rk)
  = list_sum (map (fun k => Nat.max 1 (List.length (filter (cell_eqb k) rk))) lk).
Proof.
  unfold left_join_indexer. rewrite length_flat_map_sum.
  rewrite (map_ext _ (fun ik => Nat.max 1 (List.length (filter (cell_eqb (snd ik)) rk))))
    by (intros ik; apply length_left_rows).
  f_equal.
  apply (map_combine_seq_snd (fun k => Nat.max 1 (List.length (filter (cell_eqb k) rk)))).
Qed.

Lemma filter_Txt (f : cell -> string) (k : string) (l : list cell) :
  List.length (filter (cell_eqb (Txt k)) (map (fun c => Txt (f c)) l))
  = List.length (filter (fun c => String.eqb k (f c)) l).
Proof.
  induction l as [|c l IH]; simpl; [reflexivity|].
  destruct (String.eqb k (f c)); simpl; now rewrite IH.
Qed.

Lemma length_left_join_indexer_Txt (f g : cell -> string) (ls rs : list cell) :
  List.length (left_join_indexer (map (fun c => Txt (f c)) ls) (map (fun c => Txt (g c)) rs))
  = list_sum (map (fun a => rows_for g rs (f a)) ls).
Proof.
  rewrite length_left_join_indexer, map_map. f_equal. apply map_ext. intros a.
  unfold rows_for. now rewrite filter_Txt.
Qed.

(** ** The indexer when the right keys are distinct *)

Lemma left_rows_unique rk ik :
  NoDupA cell_eq rk -> left_rows rk ik = [(fst ik, match_of rk (snd ik))].
Proof.
  intros H. pose proof (filter_eqb_unique (snd ik) rk H) as L.
  rewrite <- length_positions in L. unfold left_rows, match_of.
  destruct (positions _ rk) as [|j [|j' js]]; simpl in *; try reflexivity. lia.
Qed.

Lemma left_join_indexer_unique lk rk :
  NoDupA cell_eq rk ->
  left_join_indexer lk rk
  = map (fun ik => (fst ik, match_of rk (snd ik))) (combine (seq 0 (List.length lk)) lk).
Proof.
  intros H. unfold left_join_indexer.
  induction (combine (seq 0 (List.length lk)) lk) as [|ik l IH]; simpl; [reflexivity|].
  now rewrite IH, left_rows_unique.
Qed.

Lemma map_fst_combine_seq {A} (l : list A) a :
  map fst (combine (seq a (List.length l)) l) = seq a (List.length l).
Proof. apply map_fst_combine. now rewrite length_seq. Qed.

Lemma take_left_id idx s :
  map fst idx = seq 0 (List.length (values s)) -> take_left idx s = s.
Proof.
  intros H. unfold take_left. destruct s as [d vs]. simpl in *. f_equal.
  rewrite <- (map_map fst (fun i => nth i vs NA)), H. apply map_nth_seq.
Qed.

(** ** The merged frame when the two sides share no label *)

Lemma mem_false_iff l ls : mem l ls = false <-> ~ In l ls.
Proof.
  rewrite <- mem_true_iff. destruct (mem l ls); split; intros H; try reflexivity;
    try discriminate; try (intros F; discriminate). exfalso. now apply H.
Qed.

Lemma assign_absent l s (xs : list (string * Series)) :
  ~ In l (map fst xs) -> assign l s xs = xs ++ [(l, s)].
Proof.
  induction xs as [|[l0 s0] xs IH]; simpl; intros H; [reflexivity|].
  destruct (String.eqb l0 l) eqn:E.
  - apply String.eqb_eq in E. exfalso. apply H. now left.
  - rewrite IH; [reflexivity|]. intros F. apply H. now right.
Qed.

Lemma filter_absent col (xs : list (string * Series)) :
  ~ In col (map fst xs) ->
  filter (fun ls => negb (String.eqb (fst ls) col)) xs = xs.
Proof.
  induction xs as [|[l0 s0] xs IH]; simpl; intros H; [reflexivity|].
  destruct (String.eqb l0 col) eqn:E.
  - apply String.eqb_eq in E. exfalso. apply H. now left.
  - simpl. rewrite IH; [reflexivity|]. intros F. apply H. now right.
Qed.

Lemma map_fst_labelled {B} (f : Series -> B) (xs : list (string * Series)) :
  map fst (map (fun ls => (fst ls, f (snd ls))) xs) = map fst xs.
Proof. rewrite map_map. reflexivity. Qed.

Lemma disjoint_In a b l : disjoint a b = true -> In l a -> ~ In l b.
Proof.
  unfold disjoint. rewrite forallb_forall. intros H Hl F. specialize (H l Hl).
  apply mem_true_iff in F. now rewrite F in H.
Qed.

Lemma merge_left_disjoint left right lo ro lk rk :
  getitem left lo = Some lk -> getitem right ro = Some rk ->
  (forall l, In l (columns left) -> ~ In l (columns right)) ->
  merge_left left right lo ro
  = Some (joined (left_join_indexer (values lk) (values rk)) (series left) (series right)).
Proof.
  intros Hl Hr Hd. unfold merge_left. rewrite Hl, Hr.
  assert (Hne : String.eqb lo ro = false).
  { apply String.eqb_neq. intros ->. apply (Hd ro).
    - apply mem_true_iff. now apply getitem_Some_mem in Hl.
    - apply mem_true_iff. now apply getitem_Some_mem in Hr. }
  rewrite Hne. unfold joined. do 2 f_equal. f_equal.
  - apply map_ext_in. intros ls Hin. unfold suffixed.
    assert (E : mem (fst ls) (columns right) = false).
    { apply mem_false_iff. apply Hd. now apply in_map. }
    now rewrite E, andb_false_r.
  - apply map_ext_in. intros ls Hin. unfold suffixed.
    assert (E : mem (fst ls) (columns left) = false).
    { apply mem_false_iff. intros F. apply (Hd _ F). now apply in_map. }
    now rewrite E.
Qed.

Lemma merge_left_on left right on lk rk :
  getitem left on = Some lk -> getitem right on = Some rk ->
  (forall l, In l (columns left) -> In l (columns right) -> l = on) ->
  merge_left left right on on
  = Some (joined (left_join_indexer (values lk) (values rk)) (series left)
            (filter (fun ls => negb (String.eqb (fst ls) on)) (series right))).
Proof.
  intros Hl Hr Hd. unfold merge_left. rewrite Hl, Hr, String.eqb_refl.
  unfold joined. do 2 f_equal. f_equal.
  - apply map_ext_in. intros ls Hin. unfold suffixed.
    destruct (mem (fst ls) (columns left) && mem (fst ls) (columns right)
              && negb (true && String.eqb (fst ls) on)) eqn:E; [|reflexivity].
    apply andb_true_iff in E as [E E3]. apply andb_true_iff in E as [E1 E2].
    apply mem_true_iff in E1, E2. rewrite (Hd _ E1 E2), String.eqb_refl in E3. discriminate.
  - apply map_ext_in. intros ls Hin. unfold suffixed.
    destruct (mem (fst ls) (columns left) && mem (fst ls) (columns right)
              && negb (true && String.eqb (fst ls) on)) eqn:E; [|reflexivity].
    apply andb_true_iff in E as [E E3]. apply andb_true_iff in E as [E1 E2].
    apply mem_true_iff in E1, E2. rewrite (Hd _ E1 E2), String.eqb_refl in E3. discriminate.
Qed.

Lemma drop_present_middle n (xs ys : list (string * Series)) col s :
  ~ In col (map fst xs) -> ~ In col (map fst ys) ->
  drop_present (mkDF n (xs ++ (col, s) :: ys)) col = mkDF n (xs ++ ys).
Proof.
  intros Hx Hy. unfold drop_present, drop, columns. cbn [series nrows].
  assert (E : mem col (map fst (xs ++ (col, s) :: ys)) = true).
  { apply mem_true_iff. rewrite map_app. apply in_or_app. right. now left. }
  rewrite E. f_equal. rewrite filter_app. cbn [filter fst]. rewrite String.eqb_refl.
  cbn [negb]. now rewrite !filter_absent.
Qed.

Lemma joined_keeps_left idx (left right : list (string * Series)) n :
  map fst idx = seq 0 n ->
  Forall (fun ls => List.length (values (snd ls)) = n) left ->
  joined idx left right
  = mkDF n (left ++ map (fun ls => (fst ls, take_right idx (snd ls))) right).
Proof.
  intros Hi Hl. unfold joined. f_equal.
  - now rewrite <- (length_map fst idx), Hi, length_seq.
  - f_equal. rewrite <- (map_id left) at 2. apply map_ext_in. intros [l s] Hin.
    rewrite Forall_forall in Hl. specialize (Hl _ Hin). cbn [fst snd] in *.
    f_equal. apply take_left_id. now rewrite Hl.
Qed.

Lemma wf_rect_series df : wf df ->
  Forall (fun ls => List.length (values (snd ls)) = nrows df) (series df).
Proof.
  intros [_ H]. eapply Forall_impl; [|exact H]. intros ls [E _]. exact E.
Qed.

Section Joins.

Variable repr_float : Q -> string.

Lemma with_codes_absent df col w dl cl raw :
  getitem df col = Some raw -> dl <> cl ->
  ~ In dl (columns df) -> ~ In cl (columns df) ->
  with_codes repr_float df col w dl cl
  = Some (mkDF (nrows df)
            (series df ++ [(dl, code_digits repr_float w raw);
                           (cl, str_slice_to 6 (code_digits repr_float w raw))])).
Proof.
  intros H Hne Hd Hc. unfold with_codes, bind. rewrite H, getitem_setitem_same.
  unfold setitem. cbn [nrows series]. rewrite (assign_absent dl) by exact Hd.
  rewrite (assign_absent cl).
  - now rewrite <- app_assoc.
  - rewrite map_app. intros F. apply in_app_or in F as [F|[F|[]]]; [now apply Hc|].
    apply Hne. exact F.
Qed.

Lemma preparar_codigos_joined gdf df shp csv s_g s_d :
  getitem gdf shp = Some s_g -> getitem df csv = Some s_d ->
  disjoint (columns gdf) (columns df) = true ->
  disjoint transient_columns (columns gdf ++ columns df) = true ->
  option_map fst (preparar_codigos repr_float gdf df shp csv)
  = Some (joined (code_indexer repr_float s_g s_d) (series gdf) (series df)).
Proof.
  intros Hg Hd Hdis' Htr'.
  pose proof (fun l => disjoint_In _ _ l Hdis') as Hdis.
  pose proof (fun l => disjoint_In _ _ l Htr') as Htr.
  assert (Ng : forall l, In l transient_columns -> ~ In l (columns gdf)).
  { intros l Hl F. apply (Htr l Hl). apply in_or_app. now left. }
  assert (Nd : forall l, In l transient_columns -> ~ In l (columns df)).
  { intros l Hl F. apply (Htr l Hl). apply in_or_app. now right. }
  assert (T1 : In "__shp_code_digits" transient_columns) by (simpl; tauto).
  assert (T2 : In "__shp_code6" transient_columns) by (simpl; tauto).
  assert (T3 : In "__csv_code_digits" transient_columns) by (simpl; tauto).
  assert (T4 : In "__csv_code6" transient_columns) by (simpl; tauto).
  unfold preparar_codigos, bind.
  rewrite (with_codes_absent gdf shp 7 _ _ s_g Hg) by (try discriminate; auto).
  rewrite (with_codes_absent df csv 6 _ _ s_d Hd) by (try discriminate; auto).
  erewrite merge_left_disjoint.
  2:{ unfold getitem. cbn [series]. rewrite lookup_app_r by (apply mem_false_iff; auto).
      reflexivity. }
  2:{ unfold getitem. cbn [series]. rewrite lookup_app_r by (apply mem_false_iff; auto).
      reflexivity. }
  2:{ unfold disjoint, columns. cbn [series]. rewrite !map_app. intros l Hl F.
      apply in_app_or in Hl. apply in_app_or in F.
      destruct Hl as [Hl|Hl], F as [F|F].
      - exact (Hdis l Hl F).
      - cbn in F. destruct F as [<-|[<-|[]]]; [exact (Ng _ T3 Hl) | exact (Ng _ T4 Hl)].
      - cbn in Hl. destruct Hl as [<-|[<-|[]]]; [exact (Nd _ T1 F) | exact (Nd _ T2 F)].
      - cbn in Hl, F. destruct Hl as [<-|[<-|[]]], F as [F|[F|[]]]; discriminate. }
  cbn [option_map fst]. f_equal.
  rewrite !code6_series. fold (code_indexer repr_float s_g s_d).
  set (idx := code_indexer repr_float s_g s_d).
  unfold joined. cbn [series]. rewrite !map_app. cbn [map fst snd].
  unfold transient_columns. cbn [fold_left].
  set (L := map (fun ls => (fst ls, take_left idx (snd ls))) (series gdf)).
  set (R := map (fun ls => (fst ls, take_right idx (snd ls))) (series df)).
  assert (HL : forall l, In l transient_columns -> ~ In l (map fst L)).
  { intros l Hl. unfold L. rewrite map_fst_labelled. now apply Ng. }
  assert (HR : forall l, In l transient_columns -> ~ In l (map fst R)).
  { intros l Hl. unfold R. rewrite map_fst_labelled. now apply Nd. }
  rewrite <- !app_assoc. cbn [app].
  rewrite drop_present_middle.
  2:{ now apply HL. }
  2:{ cbn [map fst]. rewrite map_app. cbn [map fst]. intros [F|F]; [discriminate|].
      apply in_app_or in F as [F|[F|[F|[]]]]; try discriminate. exact (HR _ T1 F). }
  rewrite drop_present_middle.
  2:{ now apply HL. }
  2:{ rewrite map_app. cbn [map fst]. intros F.
      apply in_app_or in F as [F|[F|[F|[]]]]; try discriminate. exact (HR _ T2 F). }
  rewrite app_assoc. rewrite drop_present_middle.
  2:{ rewrite map_app. intros F. apply in_app_or in F as [F|F];
      [exact (HL _ T3 F) | exact (HR _ T3 F)]. }
  2:{ cbn [map fst]. intros [F|[]]. discriminate. }
  rewrite drop_present_middle.
  2:{ rewrite map_app. intros F. apply in_app_or in F as [F|F];
      [exact (HL _ T4 F) | exact (HR _ T4 F)]. }
  2:{ intros []. }
  now rewrite app_nil_r.
Qed.

Lemma with_nome_norm_absent df col nomes :
  getitem df col = Some nomes -> ~ In "__nome_norm" (columns df) ->
  with_nome_norm repr_float df col
  = Some (mkDF (nrows df)
            (series df ++ [("__nome_norm", apply_str (normalizar_nome repr_float) nomes)])).
Proof.
  intros H Hn. unfold with_nome_norm, bind, setitem. rewrite H.
  now rewrite (assign_absent "__nome_norm") by exact Hn.
Qed.

Lemma merge_por_nome_joined gdf df shp_name_col s_g s_d :
  getitem gdf shp_name_col = Some s_g -> getitem df "municipio_nome" = Some s_d ->
  disjoint (columns gdf) (columns df) = true ->
  mem "__nome_norm" (columns gdf ++ columns df) = false ->
  merge_por_nome repr_float gdf df shp_name_col
  = Some (joined (name_indexer repr_float s_g s_d) (series gdf) (series df)).
Proof.
  intros Hg Hd Hdis' Hn'.
  pose proof (fun l => disjoint_In _ _ l Hdis') as Hdis.
  pose proof (proj1 (mem_false_iff _ _) Hn') as Hn.
  assert (Ng : ~ In "__nome_norm" (columns gdf)).
  { intros F. apply Hn. apply in_or_app. now left. }
  assert (Nd : ~ In "__nome_norm" (columns df)).
  { intros F. apply Hn. apply in_or_app. now right. }
  unfold merge_por_nome, bind.
  rewrite (with_nome_norm_absent gdf _ s_g Hg Ng), (with_nome_norm_absent df _ s_d Hd Nd).
  erewrite merge_left_on.
  2:{ unfold getitem. cbn [series]. rewrite lookup_app_r by (now apply mem_false_iff).
      reflexivity. }
  2:{ unfold getitem. cbn [series]. rewrite lookup_app_r by (now apply mem_false_iff).
      reflexivity. }
  2:{ unfold columns. cbn [series]. rewrite !map_app. intros l Hl F.
      apply in_app_or in Hl. apply in_app_or in F.
      destruct Hl as [Hl|[<-|[]]]; [|reflexivity].
      destruct F as [F|[<-|[]]]; [|reflexivity]. destruct (Hdis l Hl F). }
  f_equal. cbn [series values apply_str str_map]. fold (name_indexer repr_float s_g s_d).
  set (idx := name_indexer repr_float s_g s_d).
  rewrite filter_app. cbn [filter fst]. rewrite String.eqb_refl. cbn [negb].
  rewrite (filter_absent "__nome_norm" (series df) Nd), app_nil_r.
  unfold joined. rewrite map_app. cbn [map fst snd]. rewrite <- app_assoc. cbn [app].
  apply drop_present_middle; now rewrite map_fst_labelled.
Qed.

Lemma indexer_unique (f g : cell -> string) (ls rs : list cell) :
  NoDup (map g rs) ->
  let idx := left_join_indexer (map (fun c => Txt (f c)) ls) (map (fun c => Txt (g c)) rs) in
  map fst idx = seq 0 (List.length ls)
  /\ map snd idx = map (fun a => match_of (map (fun c => Txt (g c)) rs) (Txt (f a))) ls.
Proof.
  intros Hnd idx. unfold idx.
  rewrite left_join_indexer_unique
    by (rewrite <- (map_map g Txt); now apply NoDupA_Txt).
  rewrite !map_map. cbn [fst snd]. split.
  - rewrite <- (length_map (fun c => Txt (f c)) ls). apply map_fst_combine_seq.
  - rewrite (map_combine_seq_snd (match_of (map (fun c => Txt (g c)) rs))).
    apply map_map.
Qed.

(** X6.  The exact number of rows of the two joins: each feature gives one
    row per record of the table with the same key (the six-character code
    key, or the name token), and one row when no record has its key. *)
Theorem join_row_count (gdf df : DataFrame) (shp csv shp_name_col : string) :
  (forall s_g s_d,
      getitem gdf shp = Some s_g -> getitem df csv = Some s_d ->
      exists merged matches,
        preparar_codigos repr_float gdf df shp csv = Some (merged, matches)
        /\ len merged
           = list_sum (map (fun g => rows_for (code6 repr_float 6) (values s_d)
                                       (code6 repr_float 7 g))
                           (values s_g)))
  /\ (forall s_g s_d,
         getitem gdf shp_name_col = Some s_g -> getitem df "municipio_nome" = Some s_d ->
         exists merged,
           merge_por_nome repr_float gdf df shp_name_col = Some merged
           /\ len merged
              = list_sum (map (fun g => rows_for (normalizar_nome repr_float) (values s_d)
                                          (normalizar_nome repr_float g))
                              (values s_g))).
Proof.
  split; intros s_g s_d Hg Hd.
  - destruct (preparar_codigos_unfold repr_float gdf df _ _ _ _ Hg Hd) as (m & E & N & _).
    do 2 eexists. split; [exact E|]. unfold len.
    rewrite fold_drop_nrows, N. apply length_left_join_indexer_Txt.
  - destruct (merge_por_nome_unfold repr_float gdf df _ _ _ Hg Hd) as (m & E & N & _).
    eexists. split; [exact E|]. unfold len.
    rewrite drop_present_nrows, N. apply length_left_join_indexer_Txt.
Qed.

(** X7.  The frame the two joins return when the feature collection and the
    table share no column label (and none of them uses a helper label): the
    feature columns in their order, then all the table columns in their
    order, under their own labels, every column taken through the row
    indexer of the left join on the keys; no helper column is left. *)
Theorem joins_frame (gdf df : DataFrame) :
  disjoint (columns gdf) (columns df) = true ->
  (forall shp csv s_g s_d,
      getitem gdf shp = Some s_g -> getitem df csv = Some s_d ->
      disjoint transient_columns (columns gdf ++ columns df) = true ->
      option_map fst (preparar_codigos repr_float gdf df shp csv)
      = Some (joined (code_indexer repr_float s_g s_d) (series gdf) (series df)))
  /\ (forall shp_name_col s_g s_d,
         getitem gdf shp_name_col = Some s_g -> getitem df "municipio_nome" = Some s_d ->
         mem "__nome_norm" (columns gdf ++ columns df) = false ->
         merge_por_nome repr_float gdf df shp_name_col
         = Some (joined (name_indexer repr_float s_g s_d) (series gdf) (series df))).
Proof.
  intros Hdis. split.
  - intros shp csv s_g s_d Hg Hd Htr. now apply preparar_codigos_joined.
  - intros shp_name_col s_g s_d Hg Hd Hn. now apply merge_por_nome_joined.
Qed.

(** X8.  When, in addition, the feature collection is well formed and no
    two records of the table have the same key, the joins return the
    feature collection itself (same rows, same order, every column
    unchanged) with the table columns appended: row [i] of a table column
    holds the value of the one record whose key equals that of feature [i],
    and a missing value when there is none. *)
Theorem joins_keep_features (gdf df : DataFrame) (s_g s_d : Series) :
  wf gdf ->
  disjoint (columns gdf) (columns df) = true ->
  (forall shp csv,
      getitem gdf shp = Some s_g -> getitem df csv = Some s_d ->
      disjoint transient_columns (columns gdf ++ columns df) = true ->
      NoDup (map (code6 repr_float 6) (values s_d)) ->
      exists idx,
        option_map fst (preparar_codigos repr_float gdf df shp csv)
        = Some (mkDF (nrows gdf)
                  (series gdf ++ map (fun ls => (fst ls, take_right idx (snd ls))) (series df)))
        /\ map fst idx = seq 0 (nrows gdf)
        /\ map snd idx = map (code_match repr_float s_d) (values s_g))
  /\ (forall shp_name_col,
         getitem gdf shp_name_col = Some s_g -> getitem df "municipio_nome" = Some s_d ->
         mem "__nome_norm" (columns gdf ++ columns df) = false ->
         NoDup (map (normalizar_nome repr_float) (values s_d)) ->
         exists idx,
           merge_por_nome repr_float gdf df shp_name_col
           = Some (mkDF (nrows gdf)
                     (series gdf ++ map (fun ls => (fst ls, take_right idx (snd ls))) (series df)))
           /\ map fst idx = seq 0 (nrows gdf)
           /\ map snd idx = map (name_match repr_float s_d) (values s_g)).
Proof.
  intros Hwf Hdis. split.
  - intros shp csv Hg Hd Htr Hnd.
    destruct (indexer_unique (code6 repr_float 7) (code6 repr_float 6)
                (values s_g) (values s_d) Hnd) as [H1 H2].
    rewrite (wf_length gdf _ _ Hwf Hg) in H1.
    exists (code_indexer repr_float s_g s_d). split; [|split; [exact H1 | exact H2]].
    rewrite (preparar_codigos_joined gdf df shp csv s_g s_d Hg Hd Hdis Htr). f_equal.
    apply joined_keeps_left; [exact H1 | now apply wf_rect_series].
  - intros shp_name_col Hg Hd Hn Hnd.
    destruct (indexer_unique (normalizar_nome repr_float) (normalizar_nome repr_float)
                (values s_g) (values s_d) Hnd) as [H1 H2].
    rewrite (wf_length gdf _ _ Hwf Hg) in H1.
    exists (name_indexer repr_float s_g s_d). split; [|split; [exact H1 | exact H2]].
    rewrite (merge_por_nome_joined gdf df shp_name_col s_g s_d Hg Hd Hdis Hn). f_equal.
    apply joined_keeps_left; [exact H1 | now apply wf_rect_series].
Qed.

End Joins.

(** ** The rows of the joined frame *)

Lemma last_char_app l a c : last_char (l ++ String a (String c "")) = Some c.
Proof.
  induction l as [|x l IH]; [reflexivity|].
  cbn [append last_char]. rewrite IH.
  destruct (l ++ String a (String c ""))%string eqn:E; [|reflexivity].
  destruct l; discriminate.
Qed.

Lemma relabelled_last suffix_head c l l' t :
  relabelled (String suffix_head (String c "")) l l' ->
  l <> t -> last_char t <> Some c -> l' <> t.
Proof.
  intros [->| ->] Hl Ht; [exact Hl|]. intros E. apply Ht. rewrite <- E.
  apply last_char_app.
Qed.

Lemma relabelled_not_in suffix_head c l l' (ts : list string) :
  relabelled (String suffix_head (String c "")) l l' ->
  ~ In l ts -> Forall (fun t => last_char t <> Some c) ts -> ~ In l' ts.
Proof.
  intros Hr Hl Hts F. rewrite Forall_forall in Hts.
  apply (relabelled_last _ _ _ _ l' Hr); [| apply (Hts l' F) | reflexivity].
  intros ->. contradiction.
Qed.

Lemma transient_last c : c = "x"%char \/ c = "y"%char ->
  Forall (fun t => last_char t <> Some c) transient_columns.
Proof. intros [-> | ->]; repeat constructor; discriminate. Qed.

Lemma assign_In l s label s' (xs : list (string * Series)) :
  In (l, s) xs -> l <> label -> In (l, s) (assign label s' xs).
Proof.
  induction xs as [|[l0 s0] xs IH]; [intros []|].
  intros [E|H] Hne; cbn [assign].
  - injection E as -> ->. destruct (String.eqb l label) eqn:El.
    + apply String.eqb_eq in El. contradiction.
    + now left.
  - destruct (String.eqb l0 label); right; [exact H | now apply IH].
Qed.

Lemma drop_present_In m col l (s : Series) :
  In (l, s) (series m) -> l <> col -> In (l, s) (series (drop_present m col)).
Proof.
  intros H Hne. unfold drop_present. destruct (mem col (columns m)); [|exact H].
  cbn [drop series]. apply filter_In. split; [exact H|]. cbn [fst].
  apply negb_true_iff, String.eqb_neq. exact Hne.
Qed.

Lemma fold_drop_In cols m l (s : Series) :
  In (l, s) (series m) -> ~ In l cols -> In (l, s) (series (fold_left drop_present cols m)).
Proof.
  revert m. induction cols as [|c cs IH]; intros m H Hn; cbn [fold_left]; [exact H|].
  apply IH; [|intros F; apply Hn; now right].
  apply drop_present_In; [exact H|]. intros ->. apply Hn. now left.
Qed.

Lemma suffixed_relabelled ov suffix l : relabelled suffix l (suffixed ov suffix l).
Proof. unfold suffixed, relabelled. destruct (ov l); auto. Qed.

(** What [merge_left] returns, column by column. *)
Lemma merge_left_through left right lo ro lk rk :
  getitem left lo = Some lk -> getitem right ro = Some rk ->
  exists m, merge_left left right lo ro = Some m
    /\ joins_through (left_join_indexer (values lk) (values rk)) left right m
         (if String.eqb lo ro then [ro] else []).
Proof.
  intros Hl Hr. unfold merge_left. rewrite Hl, Hr. eexists. split; [reflexivity|].
  split; [reflexivity|]. cbn [series]. split.
  - intros l s Hin _. eexists. split; [apply suffixed_relabelled|].
    apply in_or_app. left.
    apply (in_map (fun ls => (suffixed _ "_x" (fst ls), take_left _ (snd ls))) _ (l, s) Hin).
  - intros l s Hin Hd. eexists. split; [apply suffixed_relabelled|].
    apply in_or_app. right.
    refine (in_map (fun ls => (suffixed _ "_y" (fst ls), take_right _ (snd ls))) _ (l, s) _).
    destruct (String.eqb lo ro); [|exact Hin].
    apply filter_In. split; [exact Hin|]. cbn [fst].
    apply negb_true_iff, String.eqb_neq. intros ->. apply Hd. now left.
Qed.

(** Row [r] of a column taken through the indexer. *)
Lemma take_left_nth idx s r i oj :
  nth_error idx r = Some (i, oj) ->
  nth r (values (take_left idx s)) NA = nth i (values s) NA.
Proof.
  intros H. unfold take_left. cbn [values].
  apply nth_error_nth. now rewrite nth_error_map, H.
Qed.

Lemma upcast_cell_eq s j : cell_eq (nth j (values (upcast s)) NA) (nth j (values s) NA).
Proof.
  unfold upcast, cell_eq. destruct (dtype_of s); try apply cell_eqb_refl. cbn [values].
  set (f := fun c => match c with Int z => Flt (inject_Z z) | _ => c end).
  replace (nth j (map f (values s)) NA) with (f (nth j (values s) NA))
    by (symmetry; exact (map_nth f (values s) NA j)).
  destruct (nth j (values s) NA) as [|z|q|t]; cbn; try reflexivity.
  - apply Qeq_bool_iff. reflexivity.
  - apply Qeq_bool_iff. reflexivity.
  - apply String.eqb_refl.
Qed.

Lemma take_right_nth idx s r i j :
  nth_error idx r = Some (i, Some j) ->
  cell_eq (nth r (values (take_right idx s)) NA) (nth j (values s) NA).
Proof.
  intros H. unfold take_right. cbn [values].
  set (s' := if existsb unmatched idx then upcast s else s).
  set (h := fun ij : nat * option nat =>
              match snd ij with Some j => nth j (values s') NA | None => NA end).
  rewrite (nth_error_nth (map h idx) r NA (x := h (i, Some j)))
    by (now rewrite nth_error_map, H).
  unfold h. cbn [snd].
  unfold s'. destruct (existsb unmatched idx); [apply upcast_cell_eq | apply cell_eqb_refl].
Qed.

Lemma joins_through_row idx left right merged dropped r i j :
  joins_through idx left right merged dropped ->
  nth_error idx r = Some (i, Some j) ->
  row_pairs left right merged dropped r i j.
Proof.
  intros (Hn & HL & HR) Hr. split; [|split].
  - rewrite Hn. apply nth_error_Some. congruence.
  - intros l s Hin Hd. destruct (HL l s Hin Hd) as (l' & Hl' & Hm).
    exists l', (take_left idx s). split; [exact Hl'|]. split; [exact Hm|].
    now apply (take_left_nth idx s r i (Some j)).
  - intros l s Hin Hd. destruct (HR l s Hin Hd) as (l' & Hl' & Hm).
    exists l', (take_right idx s). split; [exact Hl'|]. split; [exact Hm|].
    now apply (take_right_nth idx s r i j).
Qed.

(** How often a feature occurs in the indexer. *)
Lemma count_left_rows rk a i i' :
  count_occ Nat.eq_dec (map fst (left_rows rk (i', a))) i
  = if Nat.eq_dec i' i then Nat.max 1 (List.length (filter (cell_eqb a) rk)) else 0.
Proof.
  rewrite <- length_positions. unfold left_rows. cbn [fst snd].
  destruct (positions (cell_eqb a) rk) as [|j0 js].
  - cbn [map fst count_occ List.length]. destruct (Nat.eq_dec i' i); reflexivity.
  - assert (E : forall l : list nat,
               count_occ Nat.eq_dec (map fst (map (fun j => (i', Some j)) l)) i
               = if Nat.eq_dec i' i then List.length l else 0).
    { induction l as [|j l IH]; cbn [map fst count_occ List.length].
      - destruct (Nat.eq_dec i' i); reflexivity.
      - destruct (Nat.eq_dec i' i); [now rewrite IH | exact IH]. }
    rewrite E. destruct (Nat.eq_dec i' i); [|reflexivity]. cbn [List.length]. lia.
Qed.

Lemma count_occ_app_nat (l1 l2 : list nat) i :
  count_occ Nat.eq_dec (l1 ++ l2) i = count_occ Nat.eq_dec l1 i + count_occ Nat.eq_dec l2 i.
Proof. apply count_occ_app. Qed.

Lemma count_indexer_from rk lk a0 i :
  count_occ Nat.eq_dec
    (map fst (flat_map (left_rows rk) (combine (seq a0 (List.length lk)) lk))) i
  = match nth_error lk (i - a0) with
    | Some a => if (a0 <=? i)%nat then Nat.max 1 (List.length (filter (cell_eqb a) rk)) else 0
    | None => 0
    end.
Proof.
  revert a0. induction lk as [|a lk IH]; intros a0.
  - cbn. now destruct (i - a0).
  - cbn [List.length seq combine flat_map]. rewrite map_app, count_occ_app_nat.
    rewrite count_left_rows, IH.
    destruct (Nat.eq_dec a0 i) as [->|Hne].
    + rewrite Nat.sub_diag. cbn [nth_error]. rewrite Nat.leb_refl.
      replace (i - S i) with 0 by lia.
      replace (S i <=? i)%nat with false by (symmetry; apply Nat.leb_gt; lia).
      destruct lk; cbn [nth_error]; lia.
    + destruct (a0 <=? i)%nat eqn:E.
      * apply Nat.leb_le in E. replace (i - a0) with (S (i - S a0)) by lia.
        cbn [nth_error]. replace (S a0 <=? i)%nat with true by (symmetry; apply Nat.leb_le; lia).
        reflexivity.
      * apply Nat.leb_gt in E. replace (i - a0) with 0 by lia.
        replace (i - S a0) with 0 by lia. cbn [nth_error].
        replace (S a0 <=? i)%nat with false by (symmetry; apply Nat.leb_gt; lia).
        destruct lk; reflexivity.
Qed.

Lemma count_indexer lk rk i a :
  nth_error lk i = Some a ->
  count_occ Nat.eq_dec (map fst (left_join_indexer lk rk)) i
  = Nat.max 1 (List.length (filter (cell_eqb a) rk)).
Proof.
  intros H. unfold left_join_indexer. rewrite count_indexer_from, Nat.sub_0_r, H.
  reflexivity.
Qed.

Lemma count_indexer_Txt (f g : cell -> string) ls rs i a :
  nth_error ls i = Some a ->
  count_occ Nat.eq_dec
    (map fst (left_join_indexer (map (fun c => Txt (f c)) ls) (map (fun c => Txt (g c)) rs))) i
  = rows_for g rs (f a).
Proof.
  intros H. rewrite (count_indexer _ _ i (Txt (f a)))
    by exact (nth_error_map_Some (fun c => Txt (f c)) ls i a H).
  unfold rows_for. now rewrite filter_Txt.
Qed.

Lemma mem_app l (a b : list string) : mem l (a ++ b) = mem l a || mem l b.
Proof. unfold mem. apply existsb_app. Qed.

Lemma merge_left_two_keys left right lo ro lk rk :
  getitem left lo = Some lk -> getitem right ro = Some rk -> String.eqb lo ro = false ->
  merge_left left right lo ro
  = Some (joined_suffixed (left_join_indexer (values lk) (values rk)) left right).
Proof.
  intros Hl Hr Hne. unfold merge_left, joined_suffixed. rewrite Hl, Hr, Hne.
  do 2 f_equal. f_equal; apply map_ext; intros ls; unfold suffixed, overlapping;
    cbn [andb negb]; now rewrite andb_true_r.
Qed.

Lemma suffixed_false ov suffix l : ov l = false -> suffixed ov suffix l = l.
Proof. unfold suffixed. now intros ->. Qed.

Lemma suffixed_mem_ext ov ov' suffix (xs : list (string * Series)) (g : Series -> Series) :
  (forall l, In l (map fst xs) -> ov l = ov' l) ->
  map (fun ls => (suffixed ov suffix (fst ls), g (snd ls))) xs
  = map (fun ls => (suffixed ov' suffix (fst ls), g (snd ls))) xs.
Proof.
  intros H. apply map_ext_in. intros ls Hin. unfold suffixed.
  rewrite (H (fst ls)) by now apply in_map. reflexivity.
Qed.

Lemma relabelled_columns ov suffix_head c (xs : list (string * Series)) (g : Series -> Series)
    (ts : list string) :
  (forall t, In t ts -> ~ In t (map fst xs)) ->
  Forall (fun t => last_char t <> Some c) ts ->
  forall t, In t ts ->
    ~ In t (map fst (map (fun ls => (suffixed ov (String suffix_head (String c "")) (fst ls),
                                     g (snd ls))) xs)).
Proof.
  intros Hx Hts t Ht F. rewrite map_map in F. cbn [fst] in F.
  apply in_map_iff in F as [[l s] [E Hin]]. cbn [fst] in E.
  assert (Hl : ~ In l ts).
  { intros Hl. apply (Hx l Hl). now apply (in_map fst _ (l, s)). }
  apply (relabelled_not_in suffix_head c l t ts); try assumption.
  rewrite <- E. apply suffixed_relabelled.
Qed.

Lemma lookup_relabelled ov suffix_head c t (xs : list (string * Series)) (g : Series -> Series) :
  ov t = false -> last_char t <> Some c ->
  lookup t (map (fun ls => (suffixed ov (String suffix_head (String c "")) (fst ls),
                            g (snd ls))) xs)
  = option_map g (lookup t xs).
Proof.
  intros Hov Ht. induction xs as [|[l s] xs IH]; [reflexivity|].
  cbn [map lookup fst snd]. destruct (String.eqb l t) eqn:E.
  - apply String.eqb_eq in E. subst l. unfold suffixed. rewrite Hov, String.eqb_refl.
    reflexivity.
  - assert (E' : String.eqb (suffixed ov (String suffix_head (String c "")) l) t = false).
    { apply String.eqb_neq. apply (relabelled_last suffix_head c l _ t);
        [apply suffixed_relabelled | now apply String.eqb_neq | exact Ht]. }
    rewrite E'. exact IH.
Qed.

Lemma count_matched s s' idx :
  (forall j, notna (nth j (values s') NA) = notna (nth j (values s) NA)) ->
  List.length
    (filter notna
       (map (fun ij : nat * option nat =>
               match snd ij with Some j => nth j (values s') NA | None => NA end) idx))
  = List.length (filter (matched_with s) idx).
Proof.
  intros E. induction idx as [|[i [j|]] idx IH]; [reflexivity| |];
    cbn [map filter snd matched_with].
  - rewrite E. destruct (notna (nth j (values s) NA)); cbn [List.length]; now rewrite IH.
  - cbn [notna isna negb]. exact IH.
Qed.

Lemma count_notna_take_right idx s :
  count_notna (take_right idx s) = List.length (filter (matched_with s) idx).
Proof.
  unfold count_notna, take_right. cbn [values]. apply count_matched.
  intros j. destruct (existsb unmatched idx); [apply upcast_values_notna | reflexivity].
Qed.

Section JoinRows.

Variable repr_float : Q -> string.

Lemma with_codes_series df col w dl cl df' :
  with_codes repr_float df col w dl cl = Some df' ->
  forall l s, In (l, s) (series df) -> l <> dl -> l <> cl -> In (l, s) (series df').
Proof.
  unfold with_codes, bind. destruct (getitem df col) as [raw|]; [|discriminate].
  rewrite getitem_setitem_same. intros [= <-] l s H H1 H2. cbn [setitem series].
  apply assign_In; [|exact H2]. apply assign_In; [exact H | exact H1].
Qed.

Lemma joins_through_weaken idx g d gdf df m m' dropped dropped' :
  joins_through idx g d m dropped ->
  nrows m' = nrows m ->
  (forall l s, In (l, s) (series gdf) -> ~ In l dropped' ->
               In (l, s) (series g) /\ ~ In l dropped) ->
  (forall l s, In (l, s) (series df) -> ~ In l dropped' ->
               In (l, s) (series d) /\ ~ In l dropped) ->
  (forall l l' (s : Series) c, (c = "x"%char \/ c = "y"%char) ->
               relabelled (String "_" (String c "")) l l' -> ~ In l dropped' ->
               In (l', s) (series m) -> In (l', s) (series m')) ->
  joins_through idx gdf df m' dropped'.
Proof.
  intros (Hn & HL & HR) Hn' Hg Hd Hm. split; [congruence|]. split.
  - intros l s Hin Hdr. destruct (Hg l s Hin Hdr) as [Hin' Hdr'].
    destruct (HL l s Hin' Hdr') as (l' & Hl' & Hx). exists l'. split; [exact Hl'|].
    apply (Hm l l' _ "x"%char); auto.
  - intros l s Hin Hdr. destruct (Hd l s Hin Hdr) as [Hin' Hdr'].
    destruct (HR l s Hin' Hdr') as (l' & Hl' & Hx). exists l'. split; [exact Hl'|].
    apply (Hm l l' _ "y"%char); auto.
Qed.

Lemma preparar_codigos_through gdf df shp csv s_g s_d :
  getitem gdf shp = Some s_g -> getitem df csv = Some s_d ->
  exists merged matches,
    preparar_codigos repr_float gdf df shp csv = Some (merged, matches)
    /\ joins_through (code_indexer repr_float s_g s_d) gdf df merged transient_columns.
Proof.
  intros Hg Hd.
  destruct (with_codes_Some repr_float gdf shp 7 "__shp_code_digits" "__shp_code6" s_g)
    as (g & Eg & Kg & _); [discriminate | exact Hg |].
  destruct (with_codes_Some repr_float df csv 6 "__csv_code_digits" "__csv_code6" s_d)
    as (d & Ed & Kd & _); [discriminate | exact Hd |].
  destruct (merge_left_through g d _ _ _ _ Kg Kd) as (m & Em & Hm).
  cbn [String.eqb Ascii.eqb Bool.eqb] in Hm.
  do 2 eexists. split.
  { unfold preparar_codigos, bind. rewrite Eg, Ed, Em. reflexivity. }
  rewrite !code6_series in Hm. fold (code_indexer repr_float s_g s_d) in Hm.
  apply (joins_through_weaken _ g d gdf df m _ [] transient_columns Hm).
  - apply fold_drop_nrows.
  - intros l s Hin Hdr. split; [|intros []].
    apply (with_codes_series _ _ _ _ _ _ Eg l s Hin);
      intros ->; apply Hdr; simpl; tauto.
  - intros l s Hin Hdr. split; [|intros []].
    apply (with_codes_series _ _ _ _ _ _ Ed l s Hin);
      intros ->; apply Hdr; simpl; tauto.
  - intros l l' s c Hc Hr Hdr Hin. apply fold_drop_In; [exact Hin|].
    apply (relabelled_not_in _ _ _ _ _ Hr Hdr). now apply transient_last.
Qed.

Lemma with_nome_norm_series df col df' :
  with_nome_norm repr_float df col = Some df' ->
  forall l s, In (l, s) (series df) -> l <> "__nome_norm" -> In (l, s) (series df').
Proof.
  unfold with_nome_norm, bind. destruct (getitem df col) as [nomes|]; [|discriminate].
  intros [= <-] l s H H1. cbn [setitem series]. now apply assign_In.
Qed.

Lemma merge_por_nome_through gdf df shp_name s_g s_d :
  getitem gdf shp_name = Some s_g -> getitem df "municipio_nome" = Some s_d ->
  exists merged,
    merge_por_nome repr_float gdf df shp_name = Some merged
    /\ joins_through (name_indexer repr_float s_g s_d) gdf df merged ["__nome_norm"].
Proof.
  intros Hg Hd.
  destruct (with_nome_norm_Some repr_float gdf shp_name s_g Hg) as (g & Eg & Kg & _).
  destruct (with_nome_norm_Some repr_float df "municipio_nome" s_d Hd) as (d & Ed & Kd & _).
  destruct (merge_left_through g d _ _ _ _ Kg Kd) as (m & Em & Hm).
  rewrite String.eqb_refl in Hm.
  eexists. split.
  { unfold merge_por_nome, bind. rewrite Eg, Ed, Em. reflexivity. }
  cbn [apply_str str_map values] in Hm. fold (name_indexer repr_float s_g s_d) in Hm.
  apply (joins_through_weaken _ g d gdf df m _ ["__nome_norm"] ["__nome_norm"] Hm).
  - apply drop_present_nrows.
  - intros l s Hin Hdr. split; [|exact Hdr].
    apply (with_nome_norm_series _ _ _ Eg l s Hin). intros ->. apply Hdr. now left.
  - intros l s Hin Hdr. split; [|exact Hdr].
    apply (with_nome_norm_series _ _ _ Ed l s Hin). intros ->. apply Hdr. now left.
  - intros l l' s c Hc Hr Hdr Hin. apply drop_present_In; [exact Hin|].
    intros ->. apply (relabelled_not_in _ _ _ _ ["__nome_norm"] Hr Hdr); [|now left].
    destruct Hc as [-> | ->]; repeat constructor; discriminate.
Qed.

(** The frame of the code join when no input column has a helper label. *)
Lemma preparar_codigos_exact gdf df shp csv s_g s_d :
  getitem gdf shp = Some s_g -> getitem df csv = Some s_d ->
  disjoint transient_columns (columns gdf ++ columns df) = true ->
  option_map fst (preparar_codigos repr_float gdf df shp csv)
  = Some (joined_suffixed (code_indexer repr_float s_g s_d) gdf df).
Proof.
  intros Hg Hd Htr'.
  pose proof (fun l => disjoint_In _ _ l Htr') as Htr.
  assert (Ng : forall l, In l transient_columns -> ~ In l (columns gdf)).
  { intros l Hl F. apply (Htr l Hl). apply in_or_app. now left. }
  assert (Nd : forall l, In l transient_columns -> ~ In l (columns df)).
  { intros l Hl F. apply (Htr l Hl). apply in_or_app. now right. }
  assert (T1 : In "__shp_code_digits" transient_columns) by (simpl; tauto).
  assert (T2 : In "__shp_code6" transient_columns) by (simpl; tauto).
  assert (T3 : In "__csv_code_digits" transient_columns) by (simpl; tauto).
  assert (T4 : In "__csv_code6" transient_columns) by (simpl; tauto).
  unfold preparar_codigos, bind.
  rewrite (with_codes_absent repr_float gdf shp 7 _ _ s_g Hg) by (try discriminate; auto).
  rewrite (with_codes_absent repr_float df csv 6 _ _ s_d Hd) by (try discriminate; auto).
  erewrite merge_left_two_keys; [| | |reflexivity].
  2:{ unfold getitem. cbn [series]. rewrite lookup_app_r by (apply mem_false_iff; auto).
      reflexivity. }
  2:{ unfold getitem. cbn [series]. rewrite lookup_app_r by (apply mem_false_iff; auto).
      reflexivity. }
  cbn [option_map fst]. f_equal.
  rewrite !code6_series. fold (code_indexer repr_float s_g s_d).
  set (idx := code_indexer repr_float s_g s_d).
  set (g := mkDF (nrows gdf) _). set (d := mkDF (nrows df) _).
  assert (Hcg : columns g = columns gdf ++ ["__shp_code_digits"; "__shp_code6"]).
  { unfold g, columns. cbn [series]. now rewrite map_app. }
  assert (Hcd : columns d = columns df ++ ["__csv_code_digits"; "__csv_code6"]).
  { unfold d, columns. cbn [series]. now rewrite map_app. }
  assert (Hov : forall l, ~ In l transient_columns ->
                          overlapping g d l = overlapping gdf df l).
  { intros l Hl. unfold overlapping. rewrite Hcg, Hcd, !mem_app.
    assert (E1 : mem l ["__shp_code_digits"; "__shp_code6"] = false).
    { apply mem_false_iff. intros [<-|[<-|[]]]; apply Hl; simpl; tauto. }
    assert (E2 : mem l ["__csv_code_digits"; "__csv_code6"] = false).
    { apply mem_false_iff. intros [<-|[<-|[]]]; apply Hl; simpl; tauto. }
    now rewrite E1, E2, !orb_false_r. }
  assert (Hovt : forall l, In l transient_columns -> overlapping g d l = false).
  { intros l Hl. unfold overlapping. rewrite Hcg, Hcd, !mem_app.
    rewrite (proj2 (mem_false_iff l (columns gdf)) (Ng l Hl)).
    rewrite (proj2 (mem_false_iff l (columns df)) (Nd l Hl)).
    destruct Hl as [<-|[<-|[<-|[<-|[]]]]]; reflexivity. }
  assert (Hsg : series g = series gdf ++ [("__shp_code_digits", code_digits repr_float 7 s_g);
                                           ("__shp_code6",
                                            str_slice_to 6 (code_digits repr_float 7 s_g))])
    by reflexivity.
  assert (Hsd : series d = series df ++ [("__csv_code_digits", code_digits repr_float 6 s_d);
                                         ("__csv_code6",
                                          str_slice_to 6 (code_digits repr_float 6 s_d))])
    by reflexivity.
  unfold joined_suffixed. rewrite Hsg, Hsd, !map_app.
  rewrite !map_cons. cbn [map fst snd].
  rewrite (suffixed_false _ "_x" _ (Hovt _ T1)), (suffixed_false _ "_x" _ (Hovt _ T2)),
    (suffixed_false _ "_y" _ (Hovt _ T3)), (suffixed_false _ "_y" _ (Hovt _ T4)).
  rewrite (suffixed_mem_ext (overlapping g d) (overlapping gdf df) "_x" (series gdf)
             (take_left idx)).
  2:{ intros l Hl. apply Hov. intros F. exact (Ng l F Hl). }
  rewrite (suffixed_mem_ext (overlapping g d) (overlapping gdf df) "_y" (series df)
             (take_right idx)).
  2:{ intros l Hl. apply Hov. intros F. exact (Nd l F Hl). }
  set (L := map (fun ls => (suffixed (overlapping gdf df) "_x" (fst ls), take_left idx (snd ls)))
                (series gdf)).
  set (R := map (fun ls => (suffixed (overlapping gdf df) "_y" (fst ls), take_right idx (snd ls)))
                (series df)).
  assert (HL : forall l, In l transient_columns -> ~ In l (map fst L)).
  { apply relabelled_columns; [exact Ng | apply transient_last; now left]. }
  assert (HR : forall l, In l transient_columns -> ~ In l (map fst R)).
  { apply relabelled_columns; [exact Nd | apply transient_last; now right]. }
  unfold transient_columns. cbn [fold_left].
  rewrite <- !app_assoc. cbn [app].
  rewrite drop_present_middle.
  2:{ now apply HL. }
  2:{ cbn [map fst]. rewrite map_app. cbn [map fst]. intros [F|F]; [discriminate|].
      apply in_app_or in F as [F|[F|[F|[]]]]; try discriminate. exact (HR _ T1 F). }
  rewrite drop_present_middle.
  2:{ now apply HL. }
  2:{ rewrite map_app. cbn [map fst]. intros F.
      apply in_app_or in F as [F|[F|[F|[]]]]; try discriminate. exact (HR _ T2 F). }
  rewrite app_assoc. rewrite drop_present_middle.
  2:{ rewrite map_app. intros F. apply in_app_or in F as [F|F];
      [exact (HL _ T3 F) | exact (HR _ T3 F)]. }
  2:{ cbn [map fst]. intros [F|[]]. discriminate. }
  rewrite drop_present_middle.
  2:{ rewrite map_app. intros F. apply in_app_or in F as [F|F];
      [exact (HL _ T4 F) | exact (HR _ T4 F)]. }
  2:{ intros []. }
  now rewrite app_nil_r.
Qed.

(** The count over a joined frame, from the indexer and the table. *)
Lemma count_with_data_joined idx gdf df :
  mem "total_violencia_domestica" (columns gdf) = false ->
  count_with_data (joined_suffixed idx gdf df)
  = match getitem df "total_violencia_domestica" with
    | Some s => List.length (filter (matched_with s) idx)
    | None => 0
    end.
Proof.
  intros Hg. unfold count_with_data, getitem, joined_suffixed. cbn [series].
  assert (Hov : overlapping gdf df "total_violencia_domestica" = false).
  { unfold overlapping. now rewrite Hg. }
  set (L := map (fun ls => (suffixed (overlapping gdf df) "_x" (fst ls), take_left idx (snd ls)))
                (series gdf)).
  assert (Hm : mem "total_violencia_domestica" (map fst L) = false).
  { destruct (mem "total_violencia_domestica" (map fst L)) eqn:E; [|reflexivity].
    apply lookup_mem in E as [s E]. unfold L in E.
    rewrite (lookup_relabelled _ "_" "x" _ (series gdf) (take_left idx) Hov) in E
      by discriminate.
    destruct (lookup "total_violencia_domestica" (series gdf)) as [s0|] eqn:E0; [|discriminate].
    apply lookup_Some_mem in E0. unfold columns in Hg. congruence. }
  rewrite (lookup_app_r _ L _ Hm).
  rewrite (lookup_relabelled _ "_" "y" _ (series df) (take_right idx) Hov) by discriminate.
  destruct (lookup "total_violencia_domestica" (series df)) as [s|]; cbn [option_map];
    [apply count_notna_take_right | reflexivity].
Qed.

End JoinRows.

(** ** The joins, row by row *)

Lemma Some_pair_inj {A B} (a a' : A) (b b' : B) :
  Some (a, b) = Some (a', b') -> a = a' /\ b = b'.
Proof. intros [= -> ->]. now split. Qed.

Lemma rows_with_absent label df : mem label (columns df) = false -> rows_with label df = 0.
Proof.
  intros H. unfold rows_with, cell_at.
  destruct (getitem df label) as [s|] eqn:E.
  - apply getitem_Some_mem in E. congruence.
  - induction (seq 0 (nrows df)) as [|i l IH]; [reflexivity | exact IH].
Qed.

Section JoinProperties.

Variable repr_float : Q -> string.

(** C1, as amended.  On both join paths every feature is kept: the function
    returns a frame that has at least as many rows as the feature
    collection, and exactly as many when no two records of the table share
    a key (the six-character code key, or the name token).  The returned
    frame is the feature collection and the table taken through the row
    indexer of the join, and feature [i] occurs in that indexer once per
    record that has its key, and once when no record has it: a feature
    whose key is carried by k>1 records is repeated k times. *)
Theorem C1_cardinality (gdf df : DataFrame) (shp_code_col csv_code_col shp_name_col : string) :
  wf gdf ->
  (forall s_g s_d,
      getitem gdf shp_code_col = Some s_g -> getitem df csv_code_col = Some s_d ->
      exists merged matches,
        preparar_codigos repr_float gdf df shp_code_col csv_code_col = Some (merged, matches)
        /\ len gdf <= len merged
        /\ (NoDup (map (code6 repr_float 6) (values s_d)) -> len merged = len gdf)
        /\ joins_through (code_indexer repr_float s_g s_d) gdf df merged transient_columns
        /\ (forall i a,
               nth_error (values s_g) i = Some a ->
               count_occ Nat.eq_dec (map fst (code_indexer repr_float s_g s_d)) i
               = rows_for (code6 repr_float 6) (values s_d) (code6 repr_float 7 a)))
  /\ (forall s_g s_d,
         getitem gdf shp_name_col = Some s_g -> getitem df "municipio_nome" = Some s_d ->
         exists merged,
           merge_por_nome repr_float gdf df shp_name_col = Some merged
           /\ len gdf <= len merged
           /\ (NoDup (map (normalizar_nome repr_float) (values s_d)) -> len merged = len gdf)
           /\ joins_through (name_indexer repr_float s_g s_d) gdf df merged ["__nome_norm"]
           /\ (forall i a,
                  nth_error (values s_g) i = Some a ->
                  count_occ Nat.eq_dec (map fst (name_indexer repr_float s_g s_d)) i
                  = rows_for (normalizar_nome repr_float) (values s_d)
                      (normalizar_nome repr_float a))).
Proof.
  intros Hwf. split; intros s_g s_d Hg Hd.
  - destruct (preparar_codigos_through repr_float gdf df _ _ _ _ Hg Hd)
      as (merged & matches & E & Ht).
    exists merged, matches. split; [exact E|].
    assert (Hn : len merged = List.length (code_indexer repr_float s_g s_d)) by apply Ht.
    rewrite Hn. unfold len. rewrite <- (wf_length gdf _ _ Hwf Hg). unfold code_indexer.
    split; [|split; [|split; [exact Ht|]]].
    + rewrite <- (length_map (fun c => Txt (code6 repr_float 7 c)) (values s_g)) at 1.
      apply length_left_join_indexer_ge.
    + intros Hnd. rewrite length_left_join_indexer_unique; [apply length_map|].
      rewrite <- (map_map (code6 repr_float 6) Txt). now apply NoDupA_Txt.
    + intros i a Hi. now apply count_indexer_Txt.
  - destruct (merge_por_nome_through repr_float gdf df _ _ _ Hg Hd) as (merged & E & Ht).
    exists merged. split; [exact E|].
    assert (Hn : len merged = List.length (name_indexer repr_float s_g s_d)) by apply Ht.
    rewrite Hn. unfold len. rewrite <- (wf_length gdf _ _ Hwf Hg). unfold name_indexer.
    split; [|split; [|split; [exact Ht|]]].
    + rewrite <- (length_map (fun c => Txt (normalizar_nome repr_float c)) (values s_g)) at 1.
      apply length_left_join_indexer_ge.
    + intros Hnd. rewrite length_left_join_indexer_unique; [apply length_map|].
      rewrite <- (map_map (normalizar_nome repr_float) Txt). now apply NoDupA_Txt.
    + intros i a Hi. now apply count_indexer_Txt.
Qed.

(** C3, as amended.  Nothing sets unparseable identifiers apart.  A raw code
    without a digit (a missing one included) gets the key 000000 on both
    sides, and for a feature [i] and a record [j] with such codes the frame
    [preparar_codigos] returns has a row that holds the cells of feature [i]
    and the cells of record [j]; for a feature and a record whose names both
    normalize to the empty token (as a missing name does) the frame
    [merge_por_nome] returns has such a row. *)
Theorem C3_missing_keys_match (gdf df : DataFrame)
    (shp_code_col csv_code_col shp_name_col : string) (i j : nat) (a b : cell) :
  (forall s_g s_d,
      getitem gdf shp_code_col = Some s_g -> getitem df csv_code_col = Some s_d ->
      nth_error (values s_g) i = Some a -> nth_error (values s_d) j = Some b ->
      no_digits repr_float a -> no_digits repr_float b ->
      code6 repr_float 7 a = "000000" /\ code6 repr_float 6 b = "000000"
      /\ exists merged matches r,
           preparar_codigos repr_float gdf df shp_code_col csv_code_col
           = Some (merged, matches)
           /\ row_pairs gdf df merged transient_columns r i j)
  /\ (forall s_g s_d,
         getitem gdf shp_name_col = Some s_g -> getitem df "municipio_nome" = Some s_d ->
         nth_error (values s_g) i = Some a -> nth_error (values s_d) j = Some b ->
         normalizar_nome repr_float a = "" -> normalizar_nome repr_float b = "" ->
         exists merged r,
           merge_por_nome repr_float gdf df shp_name_col = Some merged
           /\ row_pairs gdf df merged ["__nome_norm"] r i j)
  /\ no_digits repr_float NA
  /\ normalizar_nome repr_float NA = "".
Proof.
  split; [|split; [|split; reflexivity]].
  - intros s_g s_d Hg Hd Hi Hj Ha Hb.
    pose proof (no_digits_code6 repr_float a 7 Ha) as Ea.
    pose proof (no_digits_code6 repr_float b 6 Hb) as Eb.
    simpl in Ea, Eb. split; [exact Ea|]. split; [exact Eb|].
    destruct (preparar_codigos_through repr_float gdf df _ _ _ _ Hg Hd)
      as (merged & matches & E & Ht).
    assert (Hin : In (i, Some j) (code_indexer repr_float s_g s_d)).
    { eapply left_join_indexer_pairs.
      - exact (nth_error_map_Some (fun c => Txt (code6 repr_float 7 c)) _ _ _ Hi).
      - exact (nth_error_map_Some (fun c => Txt (code6 repr_float 6 c)) _ _ _ Hj).
      - cbn [cell_eqb]. rewrite Ea, Eb. reflexivity. }
    apply In_nth_error in Hin as [r Hr].
    exists merged, matches, r. split; [exact E|].
    exact (joins_through_row _ _ _ _ _ _ _ _ Ht Hr).
  - intros s_g s_d Hg Hd Hi Hj Ha Hb.
    destruct (merge_por_nome_through repr_float gdf df _ _ _ Hg Hd) as (merged & E & Ht).
    assert (Hin : In (i, Some j) (name_indexer repr_float s_g s_d)).
    { eapply left_join_indexer_pairs.
      - exact (nth_error_map_Some (fun c => Txt (normalizar_nome repr_float c)) _ _ _ Hi).
      - exact (nth_error_map_Some (fun c => Txt (normalizar_nome repr_float c)) _ _ _ Hj).
      - cbn [cell_eqb]. rewrite Ha, Hb. reflexivity. }
    apply In_nth_error in Hin as [r Hr].
    exists merged, r. split; [exact E|].
    exact (joins_through_row _ _ _ _ _ _ _ _ Ht Hr).
Qed.

(** C7, as amended.  With both code columns present the code join returns
    the left join of the features and the table on the six-character keys,
    and a match count.  The count is the number of rows of the returned
    frame in which the column named [total_violencia_domestica] is not
    missing, and 0 when the frame has no column of that name; no other
    metric is looked at.  No column of the returned frame has the label of
    a helper column.  When no input column has such a label either, the
    frame is exactly the joined columns of the features and of the table,
    no key column among them, and the count is the number of joined rows
    whose record has a [total_violencia_domestica].  The counts [main]
    reports for the frame it exports are its number of rows and, again, the
    number of its rows with that one attribute. *)
Theorem C7_match_count :
  (forall (gdf df : DataFrame) (shp_code_col csv_code_col : string) (s_g s_d : Series),
      getitem gdf shp_code_col = Some s_g ->
      getitem df csv_code_col = Some s_d ->
      exists merged matches,
        preparar_codigos repr_float gdf df shp_code_col csv_code_col = Some (merged, matches)
        /\ joins_through (code_indexer repr_float s_g s_d) gdf df merged transient_columns
        /\ matches = rows_with "total_violencia_domestica" merged
        /\ (mem "total_violencia_domestica" (columns merged) = false -> matches = 0)
        /\ Forall (fun col => mem col (columns merged) = false) transient_columns
        /\ (disjoint transient_columns (columns gdf ++ columns df) = true ->
            merged = joined_suffixed (code_indexer repr_float s_g s_d) gdf df
            /\ (mem "total_violencia_domestica" (columns gdf) = false ->
                matches
                = match getitem df "total_violencia_domestica" with
                  | Some s =>
                      List.length (filter (matched_with s) (code_indexer repr_float s_g s_d))
                  | None => 0
                  end)))
  /\ (forall (gdf df_raw : DataFrame) (e : Exports),
         main repr_float gdf df_raw = Ok e ->
         total e = len (combined e)
         /\ with_data e = rows_with "total_violencia_domestica" (combined e)).
Proof.
  split; [|exact (main_counts repr_float)].
  intros gdf df shp_code_col csv_code_col s_g s_d Hg Hd.
  destruct (preparar_codigos_through repr_float gdf df _ _ _ _ Hg Hd)
    as (merged & matches & E & Ht).
  destruct (preparar_codigos_unfold repr_float gdf df _ _ _ _ Hg Hd) as (m & E' & _ & L).
  rewrite E in E'. apply Some_pair_inj in E' as [Em Ek].
  assert (Hrows : matches = rows_with "total_violencia_domestica" merged).
  { rewrite Em, Ek, rows_with_fold_drop.
    - now apply count_with_data_rows.
    - unfold transient_columns. simpl. intuition discriminate. }
  exists merged, matches. split; [exact E|]. split; [exact Ht|]. split; [exact Hrows|].
  split; [intros Hno; rewrite Hrows; now apply rows_with_absent|].
  split; [rewrite Em; apply fold_drop_absent|].
  intros Htr.
  pose proof (preparar_codigos_exact repr_float gdf df _ _ _ _ Hg Hd Htr) as X.
  rewrite E in X. cbn [option_map fst] in X. injection X as X.
  split; [exact X|]. intros Hno.
  rewrite Hrows, <- count_with_data_rows by (rewrite Em; now apply rect_fold_drop).
  rewrite X. now apply count_with_data_joined.
Qed.

End JoinProperties.

(** ** Loading the shapefile *)

Lemma upper_char_M c :
  forall rest, Py.upper_char c ++ rest = [77%N; 71%N] ->
  Py.lower_char c = "m"%char /\ rest = [71%N].
Proof.
  all_chars c; cbn; intros rest H; try discriminate;
    injection H as H; try discriminate; subst; split; reflexivity.
Qed.

Lemma upper_char_G c :
  forall rest, Py.upper_char c ++ rest = [71%N] ->
  Py.lower_char c = "g"%char /\ rest = [].
Proof.
  all_chars c; cbn; intros rest H; try discriminate;
    injection H as H; try discriminate; subst; split; reflexivity.
Qed.

Lemma upper_nil s : Py.upper s = [] -> s = "".
Proof.
  destruct s as [|c s]; [reflexivity|]. cbn. all_chars c; cbn; discriminate.
Qed.

Lemma lower_char_m c : Py.lower_char c = "m"%char -> Py.upper_char c = [77%N].
Proof. all_chars c; cbn; intros H; try discriminate; reflexivity. Qed.
Lemma lower_char_g c : Py.lower_char c = "g"%char -> Py.upper_char c = [71%N].
Proof. all_chars c; cbn; intros H; try discriminate; reflexivity. Qed.

(** The comparison of line 101 ignores case, and only case. *)
Lemma upper_MG s : Py.upper s = Py.points "MG" <-> Py.lower s = "mg".
Proof.
  split.
  - intros H. destruct s as [|a s]; [discriminate|]. cbn [Py.upper] in H.
    apply upper_char_M in H as [Ha H].
    destruct s as [|b s]; [discriminate|]. cbn [Py.upper] in H.
    apply upper_char_G in H as [Hb H]. apply upper_nil in H. subst s.
    unfold Py.lower. cbn [Py.map_string]. now rewrite Ha, Hb.
  - intros H. destruct s as [|a [|b [|c s]]]; try discriminate.
    unfold Py.lower in H. cbn [Py.map_string] in H. injection H as Ha Hb.
    cbn [Py.upper]. now rewrite (lower_char_m a Ha), (lower_char_g b Hb).
Qed.

Lemma select_positions_from {A} (p : A -> bool) (l : list A) (d : A) a :
  map (fun i => nth (i - a) l d)
      (map fst (filter (fun ic => p (snd ic)) (combine (seq a (List.length l)) l)))
  = filter p l.
Proof.
  revert a. induction l as [|x l IH]; intros a; [reflexivity|].
  cbn [List.length seq combine filter]. change (snd (a, x)) with x.
  assert (E : forall idx, Forall (fun i => S a <= i) idx ->
                map (fun i => nth (i - a) (x :: l) d) idx
                = map (fun i => nth (i - S a) l d) idx).
  { intros idx H. apply map_ext_in. intros i Hi. rewrite Forall_forall in H.
    specialize (H i Hi). replace (i - a) with (S (i - S a)) by lia. reflexivity. }
  assert (F : Forall (fun i => S a <= i)
                (map fst (filter (fun ic => p (snd ic)) (combine (seq (S a) (List.length l)) l)))).
  { apply Forall_forall. intros i Hi. apply in_map_iff in Hi as [[i' c] [<- Hi]].
    apply filter_In in Hi as [Hi _]. apply in_combine_l in Hi. apply in_seq in Hi.
    cbn. lia. }
  destruct (p x).
  - rewrite !map_cons. change (fst (a, x)) with a. rewrite Nat.sub_diag.
    change (nth 0 (x :: l) d) with x. f_equal.
    rewrite (E _ F). apply IH.
  - rewrite (E _ F). apply IH.
Qed.

Lemma select_positions {A} (p : A -> bool) (l : list A) (d : A) :
  map (fun i => nth i l d) (positions p l) = filter p l.
Proof.
  rewrite <- (select_positions_from p l d 0). unfold positions.
  apply map_ext. intros i. now rewrite Nat.sub_0_r.
Qed.

Lemma positions_all {A} (p : A -> bool) (l : list A) :
  forallb p l = true -> positions p l = seq 0 (List.length l).
Proof.
  unfold positions. generalize 0.
  induction l as [|x l IH]; intros a H; [reflexivity|].
  cbn in H. apply andb_true_iff in H as [Hx Hl].
  cbn [List.length seq combine filter]. change (snd (a, x)) with x.
  rewrite Hx, map_cons. change (fst (a, x)) with a. f_equal. now apply IH.
Qed.

Lemma forallb_filter {A} (p : A -> bool) (l : list A) : forallb p (filter p l) = true.
Proof.
  induction l as [|x l IH]; [reflexivity|]. cbn. destruct (p x) eqn:E; [|exact IH].
  cbn. now rewrite E.
Qed.

Lemma lookup_map (f : Series -> Series) l (xs : list (string * Series)) :
  lookup l (map (fun ls => (fst ls, f (snd ls))) xs) = option_map f (lookup l xs).
Proof.
  induction xs as [|[l0 s0] xs IH]; [reflexivity|]. cbn.
  destruct (String.eqb l0 l); [reflexivity | exact IH].
Qed.

Lemma getitem_take_rows idx df l :
  getitem (take_rows idx df) l
  = option_map (fun s => mkSeries (dtype_of s) (map (fun i => nth i (values s) NA) idx))
               (getitem df l).
Proof.
  unfold getitem, take_rows. cbn [series].
  exact (lookup_map (fun s => mkSeries (dtype_of s) (map (fun i => nth i (values s) NA) idx))
           l (series df)).
Qed.

Lemma take_rows_all idx df :
  take_rows (seq 0 (List.length idx)) (take_rows idx df) = take_rows idx df.
Proof.
  unfold take_rows. cbn [series]. rewrite length_seq. f_equal.
  rewrite map_map. apply map_ext. intros [l s]. cbn [fst snd dtype_of values]. do 2 f_equal.
  rewrite <- (length_map (fun i => nth i (values s) NA) idx). apply map_nth_seq.
Qed.

Section Loading.

Variable repr_float : Q -> string.

Lemma is_estado_lower c :
  is_estado repr_float c = true <-> Py.lower (to_str repr_float c) = "mg".
Proof.
  unfold is_estado, ESTADO_SIGLA. rewrite <- upper_MG.
  destruct (list_eq_dec N.eq_dec _ _); split; intros H; try reflexivity;
    try assumption; try discriminate. contradiction.
Qed.

(** X10.  Loading from the shapefile of the whole country (no shapefile of
    the state, a [SIGLA] column present) never fails: it returns the rows
    whose [SIGLA], as a string, is MG in any mix of upper and lower case,
    in their order, with all the columns.  Loading is idempotent on that
    path: filtering the result again returns it unchanged. *)
Theorem carregar_shapefile_filter (gdf_brasil : DataFrame) (siglas : Series) :
  getitem gdf_brasil "SIGLA" = Some siglas ->
  exists gdf_mg kept,
    carregar_shapefile repr_float None (Some gdf_brasil) = Ok gdf_mg
    /\ columns gdf_mg = columns gdf_brasil
    /\ getitem gdf_mg "SIGLA" = Some (mkSeries (dtype_of siglas) kept)
    /\ kept = filter (fun c => String.eqb (Py.lower (to_str repr_float c)) "mg")
                     (values siglas)
    /\ len gdf_mg = List.length kept
    /\ carregar_shapefile repr_float None (Some gdf_mg) = Ok gdf_mg.
Proof.
  intros Hs.
  assert (Ef : forall l, filter (is_estado repr_float) l
                         = filter (fun c => String.eqb (Py.lower (to_str repr_float c)) "mg") l).
  { intros l. apply filter_ext. intros c.
    destruct (is_estado repr_float c) eqn:E.
    - apply is_estado_lower in E. rewrite E. reflexivity.
    - symmetry. apply not_true_is_false. intros F. apply String.eqb_eq in F.
      apply is_estado_lower in F. congruence. }
  set (idx := positions (is_estado repr_float) (values siglas)).
  exists (take_rows idx gdf_brasil), (filter (is_estado repr_float) (values siglas)).
  assert (Hk : getitem (take_rows idx gdf_brasil) "SIGLA"
               = Some (mkSeries (dtype_of siglas)
                         (filter (is_estado repr_float) (values siglas)))).
  { rewrite getitem_take_rows, Hs. cbn [option_map]. unfold idx.
    now rewrite select_positions. }
  assert (Hc : columns (take_rows idx gdf_brasil) = columns gdf_brasil)
    by apply columns_take_rows.
  assert (Hm : mem "SIGLA" (columns gdf_brasil) = true)
    by (eapply getitem_Some_mem; exact Hs).
  split.
  { unfold carregar_shapefile, filter_mask. rewrite Hm, Hs. reflexivity. }
  split; [exact Hc|]. split; [exact Hk|]. split; [apply Ef|].
  split.
  { unfold len, take_rows, idx. cbn [nrows]. apply length_positions. }
  unfold carregar_shapefile, filter_mask. rewrite Hc, Hm, Hk. cbn [negb lift values].
  rewrite positions_all by apply forallb_filter.
  rewrite <- length_positions. fold idx. now rewrite take_rows_all.
Qed.

End Loading.

(** ** [main] *)

Section Main.

Variable repr_float : Q -> string.

(** [main] with the truth values of the two code columns resolved. *)
Lemma main_unfold gdf df_raw df anos :
  pivotar_dados_por_ano df_raw = Some (df, anos) ->
  main repr_float gdf df_raw
  = match detect_code_column (columns gdf), csv_code_column df with
    | Some shp, Some csv =>
        finish (option_map fst (preparar_codigos repr_float gdf df shp csv))
          match anos with
          | Some (ano :: rest) =>
              if mem YEAR_COLUMN (columns df_raw)
              then export_years repr_float gdf df_raw shp csv (ano :: rest)
              else Some []
          | _ => Some []
          end
    | _, _ =>
        match detect_name_column (columns gdf) with
        | Some shp_name_col =>
            if mem "municipio_nome" (columns df)
            then finish (merge_por_nome repr_float gdf df shp_name_col) (Some [])
            else Exit 1
        | None => Exit 1
        end
    end.
Proof.
  intros Hp. unfold main. rewrite Hp. fold (csv_code_column df).
  destruct (detect_code_column (columns gdf)) as [shp|] eqn:Es;
    destruct (csv_code_column df) as [csv|] eqn:Ec.
  - rewrite (detect_code_column_truthy _ _ Es), (proj1 (csv_code_column_truthy _ _ Ec)).
    cbn [andb]. unfold finish.
    destruct (preparar_codigos repr_float gdf df shp csv) as [[m k]|]; cbn [option_map fst lift];
      [|reflexivity].
    destruct anos as [[|ano rest]|]; try reflexivity.
  - destruct (detect_name_column (columns gdf)) as [n|]; [|reflexivity].
    destruct (mem "municipio_nome" (columns df)); [|reflexivity].
    unfold finish. destruct (merge_por_nome repr_float gdf df n); cbn [lift];
      destruct anos as [[|? ?]|]; reflexivity.
  - destruct (detect_name_column (columns gdf)) as [n|]; [|reflexivity].
    destruct (mem "municipio_nome" (columns df)); [|reflexivity].
    unfold finish. destruct (merge_por_nome repr_float gdf df n); cbn [lift];
      destruct anos as [[|? ?]|]; reflexivity.
  - destruct (detect_name_column (columns gdf)) as [n|]; [|reflexivity].
    destruct (mem "municipio_nome" (columns df)); [|reflexivity].
    unfold finish. destruct (merge_por_nome repr_float gdf df n); cbn [lift];
      destruct anos as [[|? ?]|]; reflexivity.
Qed.

Lemma finish_not_Exit m ys code : finish m ys <> Exit code.
Proof. unfold finish. destruct m, ys; discriminate. Qed.

Lemma main_Exit gdf df_raw code :
  main repr_float gdf df_raw = Exit code ->
  code = 1%Z
  /\ exists df anos,
       pivotar_dados_por_ano df_raw = Some (df, anos)
       /\ (detect_code_column (columns gdf) = None \/ csv_code_column df = None)
       /\ (detect_name_column (columns gdf) = None
           \/ mem "municipio_nome" (columns df) = false).
Proof.
  destruct (pivotar_dados_por_ano df_raw) as [[df anos]|] eqn:Hp.
  2:{ unfold main. rewrite Hp. discriminate. }
  rewrite (main_unfold gdf df_raw df anos Hp).
  assert (Name : match detect_name_column (columns gdf) with
                 | Some shp_name_col =>
                     if mem "municipio_nome" (columns df)
                     then finish (merge_por_nome repr_float gdf df shp_name_col) (Some [])
                     else Exit 1
                 | None => Exit 1
                 end = Exit code ->
                 code = 1%Z /\ (detect_name_column (columns gdf) = None
                                \/ mem "municipio_nome" (columns df) = false)).
  { destruct (detect_name_column (columns gdf)) as [n|].
    - destruct (mem "municipio_nome" (columns df)).
      + intros H. now apply finish_not_Exit in H.
      + intros [= <-]. split; [reflexivity | now right].
    - intros [= <-]. split; [reflexivity | now left]. }
  destruct (detect_code_column (columns gdf)) as [shp|] eqn:Es;
    destruct (csv_code_column df) as [csv|] eqn:Ec; intros H;
    try (now apply finish_not_Exit in H);
    apply Name in H as [-> H]; (split; [reflexivity|]); exists df, anos;
    (split; [reflexivity|]); (split; [|exact H]); auto.
Qed.

(** X11.  The only exit status of the script is 1, and it exits only
    before any join: when the CSV file is missing; when neither shapefile
    exists; when only the shapefile of the country exists and it has no
    [SIGLA] column; or when no pair of code columns is detected and the
    fallback by name is impossible (no name column in the shapefile, or no
    [municipio_nome] in the table). *)
Theorem exit_status (csv mg br : option DataFrame) (code : Z) :
  main_from_files repr_float csv mg br = Exit code ->
  code = 1%Z
  /\ (csv = None
      \/ (mg = None /\ br = None)
      \/ (mg = None /\ exists gdf_brasil, br = Some gdf_brasil
                                          /\ mem "SIGLA" (columns gdf_brasil) = false)
      \/ exists gdf df_raw df anos,
           csv = Some df_raw
           /\ carregar_shapefile repr_float mg br = Ok gdf
           /\ pivotar_dados_por_ano df_raw = Some (df, anos)
           /\ (detect_code_column (columns gdf) = None \/ csv_code_column df = None)
           /\ (detect_name_column (columns gdf) = None
               \/ mem "municipio_nome" (columns df) = false)).
Proof.
  unfold main_from_files. destruct csv as [df_raw|].
  2:{ intros [= <-]. split; [reflexivity | now left]. }
  destruct (carregar_shapefile repr_float mg br) as [gdf|c|] eqn:Ec.
  - intros H. apply main_Exit in H as (-> & df & anos & Hp & Hc & Hn).
    split; [reflexivity|]. right. right. right. exists gdf, df_raw, df, anos. auto.
  - intros [= ->]. unfold carregar_shapefile in Ec.
    destruct mg as [gdf|]; [discriminate|].
    destruct br as [b|].
    + destruct (mem "SIGLA" (columns b)) eqn:Em; cbn [negb] in Ec.
      * unfold filter_mask in Ec. destruct (getitem b "SIGLA"); discriminate.
      * injection Ec as <-. split; [reflexivity|]. right. right. left.
        split; [reflexivity|]. now exists b.
    + injection Ec as <-. split; [reflexivity|]. right. left. now split.
  - discriminate.
Qed.

(** The joins never lose a feature. *)
Lemma preparar_codigos_len gdf df shp csv merged matches :
  wf gdf ->
  preparar_codigos repr_float gdf df shp csv = Some (merged, matches) ->
  len gdf <= len merged.
Proof.
  intros Hwf H.
  assert (exists s_g, getitem gdf shp = Some s_g) as [s_g Hg].
  { unfold preparar_codigos, bind in H.
    destruct (with_codes repr_float gdf shp 7 _ _) eqn:E; [|discriminate].
    now apply with_codes_inv in E. }
  assert (exists s_d, getitem df csv = Some s_d) as [s_d Hd].
  { unfold preparar_codigos, bind in H.
    destruct (with_codes repr_float gdf shp 7 _ _); [|discriminate].
    destruct (with_codes repr_float df csv 6 _ _) eqn:E; [|discriminate].
    now apply with_codes_inv in E. }
  destruct (preparar_codigos_unfold repr_float gdf df _ _ _ _ Hg Hd) as (m & E & N & _).
  assert (merged = fold_left drop_present transient_columns m) as ->.
  { rewrite E in H. injection H as H1 H2. symmetry. assumption. }
  unfold len. rewrite fold_drop_nrows, N, <- (wf_length gdf _ _ Hwf Hg).
  rewrite <- (length_map (fun c => Txt (code6 repr_float 7 c)) (values s_g)) at 1.
  apply length_left_join_indexer_ge.
Qed.

Lemma merge_por_nome_len gdf df shp_name merged :
  wf gdf ->
  merge_por_nome repr_float gdf df shp_name = Some merged ->
  len gdf <= len merged.
Proof.
  intros Hwf H.
  assert (exists s_g, getitem gdf shp_name = Some s_g) as [s_g Hg].
  { unfold merge_por_nome, bind in H.
    destruct (with_nome_norm repr_float gdf shp_name) eqn:E; [|discriminate].
    now apply with_nome_norm_inv in E. }
  assert (exists s_d, getitem df "municipio_nome" = Some s_d) as [s_d Hd].
  { unfold merge_por_nome, bind in H.
    destruct (with_nome_norm repr_float gdf shp_name); [|discriminate].
    destruct (with_nome_norm repr_float df "municipio_nome") eqn:E; [|discriminate].
    now apply with_nome_norm_inv in E. }
  destruct (merge_por_nome_unfold repr_float gdf df _ _ _ Hg Hd) as (m & E & N & _).
  assert (merged = drop_present m "__nome_norm") as ->.
  { rewrite E in H. injection H as H1. symmetry. assumption. }
  unfold len. rewrite drop_present_nrows, N, <- (wf_length gdf _ _ Hwf Hg).
  rewrite <- (length_map (fun c => Txt (normalizar_nome repr_float c)) (values s_g)) at 1.
  apply length_left_join_indexer_ge.
Qed.

Lemma export_years_len gdf df_raw shp csv anos out :
  wf gdf ->
  export_years repr_float gdf df_raw shp csv anos = Some out ->
  Forall (fun yf => len gdf <= len (snd yf)) out.
Proof.
  intros Hwf. revert out. induction anos as [|ano rest IH]; intros out; cbn [export_years].
  - intros [= <-]. constructor.
  - unfold bind.
    destruct (filter_eq df_raw YEAR_COLUMN ano) as [df_ano|]; [|discriminate].
    destruct ((nrows df_ano =? 0)%nat || (List.length (series df_ano) =? 0)%nat); [apply IH|].
    destruct (agrupar_por_municipio df_ano csv) as [agg|]; [|discriminate].
    destruct (preparar_codigos repr_float gdf agg shp csv) as [[m k]|] eqn:E; [|discriminate].
    destruct (int_of ano) as [year|]; [|discriminate].
    destruct (export_years repr_float gdf df_raw shp csv rest) as [others|]; [|discriminate].
    intros [= <-]. constructor; [|now apply IH].
    cbn [snd fst]. exact (preparar_codigos_len gdf agg shp csv m k Hwf E).
Qed.

(** X13.  Whenever [main] ends normally on a well-formed feature
    collection, no feature is lost: the exported frame has at least as many
    rows as the feature collection, the reported total is its number of
    rows, and so has every per-year frame. *)
Theorem main_keeps_features (gdf df_raw : DataFrame) (e : Exports) :
  wf gdf ->
  main repr_float gdf df_raw = Ok e ->
  len gdf <= total e
  /\ total e = len (combined e)
  /\ Forall (fun yf => len gdf <= len (snd yf)) (by_year e).
Proof.
  intros Hwf.
  destruct (pivotar_dados_por_ano df_raw) as [[df anos]|] eqn:Hp.
  2:{ unfold main. rewrite Hp. discriminate. }
  rewrite (main_unfold gdf df_raw df anos Hp).
  assert (Name : match detect_name_column (columns gdf) with
                 | Some shp_name_col =>
                     if mem "municipio_nome" (columns df)
                     then finish (merge_por_nome repr_float gdf df shp_name_col) (Some [])
                     else Exit 1
                 | None => Exit 1
                 end = Ok e ->
                 len gdf <= total e /\ total e = len (combined e)
                 /\ Forall (fun yf => len gdf <= len (snd yf)) (by_year e)).
  { destruct (detect_name_column (columns gdf)) as [n|]; [|discriminate].
    destruct (mem "municipio_nome" (columns df)); [|discriminate].
    unfold finish. destruct (merge_por_nome repr_float gdf df n) as [m|] eqn:E; [|discriminate].
    intros [= <-]. cbn [total combined by_year].
    split; [exact (merge_por_nome_len gdf df n m Hwf E)|]. split; [reflexivity | constructor]. }
  destruct (detect_code_column (columns gdf)) as [shp|]; [|exact Name].
  destruct (csv_code_column df) as [csv|]; [|exact Name].
  unfold finish.
  destruct (preparar_codigos repr_float gdf df shp csv) as [[m k]|] eqn:E; [|discriminate].
  cbn [option_map fst].
  destruct (match anos with
            | Some (ano :: rest) =>
                if mem YEAR_COLUMN (columns df_raw)
                then export_years repr_float gdf df_raw shp csv (ano :: rest)
                else Some []
            | _ => Some []
            end) as [ys|] eqn:Ey; [|discriminate].
  intros [= <-]. cbn [total combined by_year].
  split; [exact (preparar_codigos_len gdf df shp csv m k Hwf E)|]. split; [reflexivity|].
  destruct anos as [[|ano rest]|]; try (injection Ey as <-; constructor).
  destruct (mem YEAR_COLUMN (columns df_raw)); [|injection Ey as <-; constructor].
  exact (export_years_len gdf df_raw shp csv _ ys Hwf Ey).
Qed.

(** X12.  When a code column is detected on both sides, [main] joins by
    code and never looks at the names: the code join succeeds, [main] never
    exits, and when it ends normally the exported frame is the frame of the
    code join, with the number of matches that join reported.  [main] can
    only fail in the per-year exports. *)
Theorem main_code_join (gdf df_raw df : DataFrame) (anos : option (list cell))
    (shp csv : string) :
  pivotar_dados_por_ano df_raw = Some (df, anos) ->
  detect_code_column (columns gdf) = Some shp ->
  csv_code_column df = Some csv ->
  exists merged matches,
    preparar_codigos repr_float gdf df shp csv = Some (merged, matches)
    /\ match main repr_float gdf df_raw with
       | Ok e => combined e = merged /\ total e = len merged /\ with_data e = matches
       | Exit _ => False
       | Raised => exists ano rest,
                     anos = Some (ano :: rest)
                     /\ export_years repr_float gdf df_raw shp csv (ano :: rest) = None
       end.
Proof.
  intros Hp Hs Hc. rewrite (main_unfold gdf df_raw df anos Hp), Hs, Hc.
  assert (Hg : mem shp (columns gdf) = true).
  { apply mem_true_iff. now apply detect_In in Hs. }
  destruct (getitem_mem _ _ Hg) as [s_g Eg].
  destruct (getitem_mem _ _ (proj2 (csv_code_column_truthy _ _ Hc))) as [s_d Ed].
  destruct (preparar_codigos_unfold repr_float gdf df _ _ _ _ Eg Ed) as (m & E & _ & L).
  do 2 eexists. split; [exact E|]. rewrite E. cbn [option_map fst finish].
  assert (Hcount : count_with_data (fold_left drop_present transient_columns m)
                   = count_with_data m).
  { rewrite !count_with_data_rows; [|exact L | now apply rect_fold_drop].
    apply rows_with_fold_drop. unfold transient_columns. simpl. intuition discriminate. }
  destruct anos as [[|ano rest]|]; try (cbn [combined total with_data]; now auto).
  destruct (mem YEAR_COLUMN (columns df_raw)); [|cbn [combined total with_data]; now auto].
  destruct (export_years repr_float gdf df_raw shp csv (ano :: rest)) as [ys|] eqn:Ey.
  - cbn [combined total with_data]. now auto.
  - now exists ano, rest.
Qed.

End Main.

(** ** Taking rows *)

Lemma forallb_nth (p : cell -> bool) (l : list cell) i :
  forallb p l = true -> i < List.length l -> p (nth i l NA) = true.
Proof.
  intros H Hi. rewrite forallb_forall in H. apply H. now apply nth_In.
Qed.

Lemma wf_take_rows idx df :
  wf df -> Forall (fun i => i < nrows df) idx -> wf (take_rows idx df).
Proof.
  intros [Hnd Hs] Hi. split.
  - now rewrite columns_take_rows.
  - unfold take_rows. cbn [series nrows]. apply Forall_map.
    eapply Forall_impl; [|exact Hs]. intros [l s] [Hl Ht]. cbn [snd] in *.
    split; cbn [values dtype_of]; [apply length_map|].
    rewrite forallb_forall. intros c Hc. apply in_map_iff in Hc as [i [<- Hin]].
    rewrite Forall_forall in Hi. apply forallb_nth; [exact Ht|]. rewrite Hl. now apply Hi.
Qed.

Lemma positions_lt {A} (p : A -> bool) (l : list A) :
  Forall (fun i => i < List.length l) (positions p l).
Proof.
  apply Forall_forall. intros i Hi. apply In_positions_inv in Hi as [c [Hc _]].
  apply nth_error_Some. congruence.
Qed.

Lemma wf_filter_eq df label v out :
  wf df -> filter_eq df label v = Some out -> wf out.
Proof.
  intros Hwf. unfold filter_eq. destruct (getitem df label) as [s|] eqn:E; [|discriminate].
  intros [= <-]. apply wf_take_rows; [exact Hwf|].
  rewrite <- (wf_length df label s Hwf E). apply positions_lt.
Qed.

(** ** The single-year aggregation returns a table with the code column *)

Lemma agrupar_por_municipio_Some df csv code_s :
  wf df -> getitem df csv = Some code_s ->
  exists out, agrupar_por_municipio df csv = Some out /\ mem csv (columns out) = true.
Proof.
  intros Hwf Hc. unfold agrupar_por_municipio.
  rewrite (getitem_Some_mem _ _ _ Hc). cbn [negb].
  destruct (agg_dict_of df csv) as [|lf rest] eqn:E.
  - unfold drop_duplicates. rewrite Hc. eexists. split; [reflexivity|].
    rewrite columns_take_rows. now apply getitem_Some_mem in Hc.
  - rewrite <- E. erewrite groupby_agg_single; [| exact Hc | now apply (wf_length df csv) |].
    + eexists. split; [reflexivity|]. unfold columns. cbn [series map fst mem existsb].
      now rewrite String.eqb_refl.
    + intros l f Hin. apply agg_dict_of_In in Hin as (s & Hin & _ & _ & Hf & Hk).
      exists s. split; [now apply wf_getitem|]. split.
      * destruct (String.eqb l "municipio_nome") eqn:E3; [now left|].
        destruct Hk as [->|Hk]; [discriminate|]. right.
        unfold is_numeric_dtype in Hk. intros F. now rewrite F in Hk.
      * apply (wf_length df l); [exact Hwf | now apply wf_getitem].
Qed.

Lemma sorted_unique_notna_In (s : Series) c :
  In c (sorted_unique_notna s) -> In c (values s) /\ notna c = true.
Proof.
  unfold sorted_unique_notna. intros H.
  apply (Permutation_in _ (sort_perm cell_leb _)) in H.
  apply unique_incl in H. now apply filter_In in H.
Qed.

Section YearLoop.

Variable repr_float : Q -> string.

Lemma export_years_total gdf df_raw shp csv ys anos :
  wf df_raw ->
  getitem df_raw YEAR_COLUMN = Some ys ->
  mem shp (columns gdf) = true ->
  mem csv (columns df_raw) = true ->
  Forall (fun ano => In ano (values ys) /\ notna ano = true
                     /\ exists year, int_of ano = Some year) anos ->
  exists out,
    export_years repr_float gdf df_raw shp csv anos = Some out
    /\ map (fun ano => int_of ano) anos = map (fun yf => Some (fst yf)) out.
Proof.
  intros Hwf Hy Hg Hc. induction 1 as [|ano rest (Hin & Hna & year & Hyear) Hrest IH].
  - exists []. split; reflexivity.
  - destruct IH as (others & Eo & Mo). cbn [export_years]. unfold bind.
    destruct (filter_eq df_raw YEAR_COLUMN ano) as [df_ano|] eqn:Ef.
    2:{ unfold filter_eq in Ef. rewrite Hy in Ef. discriminate. }
    pose proof (wf_filter_eq _ _ _ _ Hwf Ef) as Hwfa.
    assert (Hcols : columns df_ano = columns df_raw).
    { unfold filter_eq in Ef. rewrite Hy in Ef. injection Ef as <-. apply columns_take_rows. }
    assert (Hrows : nrows df_ano <> 0).
    { unfold filter_eq in Ef. rewrite Hy in Ef. injection Ef as <-. cbn [take_rows nrows].
      apply In_nth_error in Hin as [i Hi].
      assert (Hp : In i (positions (fun c => notna c && cell_eqb c ano) (values ys))).
      { eapply In_positions; [exact Hi|]. now rewrite Hna, cell_eqb_refl. }
      destruct (positions _ (values ys)); [destruct Hp | discriminate]. }
    assert (Hser : List.length (series df_ano) <> 0).
    { pose proof (f_equal (@List.length string) Hcols) as L. unfold columns in L.
      rewrite !length_map in L. rewrite L.
      apply getitem_Some_mem in Hy. unfold columns in Hy.
      destruct (series df_raw); [discriminate | discriminate]. }
    apply Nat.eqb_neq in Hrows, Hser. rewrite Hrows, Hser. cbn [orb].
    assert (Hca : mem csv (columns df_ano) = true) by now rewrite Hcols.
    destruct (getitem_mem _ _ Hca) as [code_s Ecode].
    destruct (agrupar_por_municipio_Some df_ano csv code_s Hwfa Ecode) as (agg & Ea & Hm).
    rewrite Ea.
    destruct (getitem_mem _ _ Hg) as [s_g Eg]. destruct (getitem_mem _ _ Hm) as [s_d Ed].
    destruct (preparar_codigos_unfold repr_float gdf agg _ _ _ _ Eg Ed) as (m & E & _).
    rewrite E, Hyear, Eo. eexists. split; [reflexivity|].
    cbn [map fst]. now rewrite Hyear, Mo.
Qed.

(** X14.  The per-year loop on a well-formed table with a numeric year
    column, a code column present on both sides: it does not fail, and it
    exports exactly one frame for each distinct year that is not missing, in
    ascending order of the years; the test for an empty year never holds. *)
Theorem export_years_every_year (gdf df_raw : DataFrame) (shp csv : string) (ys : Series) :
  wf df_raw ->
  getitem df_raw YEAR_COLUMN = Some ys ->
  is_numeric_dtype ys = true ->
  mem shp (columns gdf) = true ->
  mem csv (columns df_raw) = true ->
  exists out,
    export_years repr_float gdf df_raw shp csv (sorted_unique_notna ys) = Some out
    /\ map (fun ano => int_of ano) (sorted_unique_notna ys)
       = map (fun yf => Some (fst yf)) out
    /\ List.length out = List.length (sorted_unique_notna ys).
Proof.
  intros Hwf Hy Hnum Hg Hc.
  destruct (export_years_total gdf df_raw shp csv ys (sorted_unique_notna ys) Hwf Hy Hg Hc)
    as (out & E & M).
  - apply Forall_forall. intros ano Hin. apply sorted_unique_notna_In in Hin as [Hin Hna].
    split; [exact Hin|]. split; [exact Hna|].
    apply (numeric_int_of ys); try assumption. now apply (wf_typed df_raw YEAR_COLUMN).
  - exists out. split; [exact E|]. split; [exact M|].
    apply (f_equal (@List.length (option Z))) in M. rewrite !length_map in M. now symmetry.
Qed.

End YearLoop.

(** ** Dropping duplicates *)

Lemma filter_unseen_seen seen c u :
  existsb (cell_eqb c) seen = true ->
  filter (unseen seen) (filter (fun y => negb (cell_eqb c y)) u) = filter (unseen seen) u.
Proof.
  intros Es. induction u as [|y u IHu]; [reflexivity|]. cbn [filter].
  destruct (cell_eqb c y) eqn:Ecy; cbn [negb filter].
  - assert (Hy : unseen seen y = false).
    { unfold unseen. apply negb_false_iff. apply existsb_exists in Es as [s [Hs Ecs]].
      apply existsb_exists. exists s. split; [exact Hs|].
      apply cell_eqb_trans with c; [now rewrite cell_eqb_sym | exact Ecs]. }
    rewrite Hy. exact IHu.
  - destruct (unseen seen y); [now rewrite IHu | exact IHu].
Qed.

Lemma filter_unseen_cons seen c u :
  filter (unseen (c :: seen)) u
  = filter (unseen seen) (filter (fun y => negb (cell_eqb c y)) u).
Proof.
  induction u as [|y u IHu]; [reflexivity|]. cbn [filter].
  unfold unseen at 1. cbn [existsb]. rewrite (cell_eqb_sym y c).
  destruct (cell_eqb c y); cbn [negb orb filter]; [exact IHu|].
  fold (unseen seen y). destruct (unseen seen y); [now rewrite IHu | exact IHu].
Qed.

Lemma first_occurrences_unique seen i l :
  map (fun j => nth (j - i) l NA) (first_occurrences seen i l)
  = filter (unseen seen) (unique cell_eqb l)
  /\ Forall (fun j => i <= j) (first_occurrences seen i l).
Proof.
  revert seen i. induction l as [|c r IH]; intros seen i; [split; [reflexivity | constructor]|].
  assert (Shift : forall idx, Forall (fun j => S i <= j) idx ->
                    map (fun j => nth (j - i) (c :: r) NA) idx
                    = map (fun j => nth (j - S i) r NA) idx).
  { intros idx H. apply map_ext_in. intros j Hj. rewrite Forall_forall in H.
    specialize (H j Hj). replace (j - i) with (S (j - S i)) by lia. reflexivity. }
  assert (Weak : forall idx, Forall (fun j => S i <= j) idx -> Forall (fun j => i <= j) idx).
  { intros idx H. eapply Forall_impl; [|exact H]. intros j Hj. cbn in Hj. lia. }
  cbn [first_occurrences unique filter].
  destruct (existsb (cell_eqb c) seen) eqn:Es.
  - destruct (IH seen (S i)) as [E F]. split; [|now apply Weak].
    rewrite (Shift _ F), E. unfold unseen at 2. rewrite Es. cbn [negb].
    symmetry. now apply filter_unseen_seen.
  - destruct (IH (c :: seen) (S i)) as [E F]. split; [|constructor; [lia | now apply Weak]].
    rewrite map_cons, Nat.sub_diag. change (nth 0 (c :: r) NA) with c.
    rewrite (Shift _ F), E. unfold unseen at 2. rewrite Es. cbn [negb]. f_equal.
    apply filter_unseen_cons.
Qed.

Lemma filter_true {A} (l : list A) : filter (fun _ => true) l = l.
Proof. induction l as [|x l IH]; [reflexivity|]. cbn. now rewrite IH. Qed.

Lemma drop_duplicates_unique df label s :
  getitem df label = Some s ->
  exists out,
    drop_duplicates df label = Some out
    /\ columns out = columns df
    /\ getitem out label = Some (mkSeries (dtype_of s) (unique cell_eqb (values s)))
    /\ len out = List.length (unique cell_eqb (values s)).
Proof.
  intros H. unfold drop_duplicates. rewrite H. eexists. split; [reflexivity|].
  destruct (first_occurrences_unique [] 0 (values s)) as [E _].
  assert (E' : map (fun j => nth j (values s) NA) (first_occurrences [] 0 (values s))
               = unique cell_eqb (values s)).
  { rewrite <- (filter_true (unique cell_eqb (values s))).
    etransitivity; [|exact E]. apply map_ext. intros j. now rewrite Nat.sub_0_r. }
  split; [apply columns_take_rows|]. split.
  - rewrite getitem_take_rows, H. cbn [option_map]. now rewrite E'.
  - unfold len, take_rows. cbn [nrows]. rewrite <- E'. now rewrite length_map.
Qed.

(** X16.  The single-year aggregation when there is nothing to aggregate
    (no [municipio_nome], no numeric column besides code and year): the
    table comes back with all its columns and one row per distinct code, in
    order of first appearance, a missing code included; the codes are not
    sorted and a missing code is not dropped, unlike in the group-by
    branch. *)
Theorem agrupar_por_municipio_dedup (df : DataFrame) (csv_code_col : string) (code_s : Series) :
  getitem df csv_code_col = Some code_s ->
  agg_dict_of df csv_code_col = [] ->
  exists out codes,
    agrupar_por_municipio df csv_code_col = Some out
    /\ columns out = columns df
    /\ getitem out csv_code_col = Some (mkSeries (dtype_of code_s) codes)
    /\ codes = unique cell_eqb (values code_s)
    /\ len out = List.length codes
    /\ NoDupA cell_eq codes
    /\ (forall c, InA cell_eq c codes <-> InA cell_eq c (values code_s)).
Proof.
  intros Hc Ha. destruct (drop_duplicates_unique df csv_code_col code_s Hc)
    as (out & E & Hcols & Hk & Hl).
  exists out, (unique cell_eqb (values code_s)).
  split.
  { unfold agrupar_por_municipio. rewrite (getitem_Some_mem _ _ _ Hc), Ha. exact E. }
  split; [exact Hcols|]. split; [exact Hk|]. split; [reflexivity|]. split; [exact Hl|].
  split.
  - apply unique_NoDupA.
  - intros c. apply unique_InA; [apply cell_eqb_sym | apply cell_eqb_trans].
Qed.

(** ** Which rows the joins pair *)

Lemma left_join_indexer_inv lk rk i j :
  In (i, Some j) (left_join_indexer lk rk) ->
  exists a b, nth_error lk i = Some a /\ nth_error rk j = Some b /\ cell_eqb a b = true.
Proof.
  unfold left_join_indexer. intros H. apply in_flat_map in H as [[i' a] [Hin H]].
  apply In_combine_seq_inv in Hin as [_ Hi]. rewrite Nat.sub_0_r in Hi.
  unfold left_rows in H. cbn [fst snd] in H.
  destruct (positions (cell_eqb a) rk) as [|j0 js] eqn:E.
  - destruct H as [H|[]]. discriminate.
  - apply in_map_iff in H as [j' [Hj' Hin']]. injection Hj' as <- <-.
    rewrite <- E in Hin'. apply In_positions_inv in Hin' as [b [Hb Hab]].
    exists a, b. auto.
Qed.

Lemma left_join_indexer_unmatched lk rk i :
  In (i, None) (left_join_indexer lk rk) <->
  exists a, nth_error lk i = Some a /\ forallb (fun b => negb (cell_eqb a b)) rk = true.
Proof.
  unfold left_join_indexer. split.
  - intros H. apply in_flat_map in H as [[i' a] [Hin H]].
    apply In_combine_seq_inv in Hin as [_ Hi]. rewrite Nat.sub_0_r in Hi.
    unfold left_rows in H. cbn [fst snd] in H.
    destruct (positions (cell_eqb a) rk) as [|j0 js] eqn:E.
    + destruct H as [H|[]]. injection H as <-. exists a. split; [exact Hi|].
      apply forallb_forall. intros b Hb. apply negb_true_iff.
      destruct (cell_eqb a b) eqn:Eab; [|reflexivity].
      apply In_nth_error in Hb as [j Hj].
      pose proof (In_positions (cell_eqb a) rk j b Hj Eab) as F. rewrite E in F. destruct F.
    + apply in_map_iff in H as [j' [Hj' _]]. discriminate.
  - intros (a & Hi & Hall). apply in_flat_map. exists (i, a).
    split; [apply (In_combine_seq lk 0 i a Hi)|].
    unfold left_rows. cbn [fst snd].
    destruct (positions (cell_eqb a) rk) as [|j0 js] eqn:E; [now left|].
    assert (Hj : In j0 (positions (cell_eqb a) rk)) by (rewrite E; now left).
    apply In_positions_inv in Hj as [b [Hb Hab]].
    rewrite forallb_forall in Hall. apply nth_error_In in Hb.
    specialize (Hall b Hb). now rewrite Hab in Hall.
Qed.

Lemma forallb_map_Txt (p : cell -> bool) (g : cell -> string) (rs : list cell) :
  forallb p (map (fun c => Txt (g c)) rs) = forallb (fun b => p (Txt (g b))) rs.
Proof. induction rs as [|b rs IH]; [reflexivity|]. cbn. now rewrite IH. Qed.

Section Pairs.

Variable repr_float : Q -> string.

(** X17.  Which rows the joins pair.  Each join returns the left join of the
    features and the table through a row indexer, and that indexer names
    feature [i] with record [j] exactly when the six-character keys of their
    raw codes are equal (code join), or their names normalize to the same
    token (name join); it names feature [i] without a record exactly when no
    record of the table has its key.  So no feature receives a record with
    another key, a feature with a matching record never also gets an empty
    row, and for every feature and record with equal keys the returned
    frame has a row holding both. *)
Theorem join_pairs_iff (gdf df : DataFrame) (shp csv shp_name_col : string) :
  (forall s_g s_d,
      getitem gdf shp = Some s_g -> getitem df csv = Some s_d ->
      exists merged matches idx,
        preparar_codigos repr_float gdf df shp csv = Some (merged, matches)
        /\ joins_through idx gdf df merged transient_columns
        /\ (forall i j,
               In (i, Some j) idx
               <-> exists a b, nth_error (values s_g) i = Some a
                               /\ nth_error (values s_d) j = Some b
                               /\ code6 repr_float 7 a = code6 repr_float 6 b)
        /\ (forall i,
               In (i, None) idx
               <-> exists a, nth_error (values s_g) i = Some a
                             /\ forallb (fun b => negb (String.eqb (code6 repr_float 7 a)
                                                                   (code6 repr_float 6 b)))
                                        (values s_d) = true)
        /\ (forall i j a b,
               nth_error (values s_g) i = Some a -> nth_error (values s_d) j = Some b ->
               code6 repr_float 7 a = code6 repr_float 6 b ->
               exists r, row_pairs gdf df merged transient_columns r i j))
  /\ (forall s_g s_d,
         getitem gdf shp_name_col = Some s_g -> getitem df "municipio_nome" = Some s_d ->
         exists merged idx,
           merge_por_nome repr_float gdf df shp_name_col = Some merged
           /\ joins_through idx gdf df merged ["__nome_norm"]
           /\ (forall i j,
                  In (i, Some j) idx
                  <-> exists a b, nth_error (values s_g) i = Some a
                                  /\ nth_error (values s_d) j = Some b
                                  /\ normalizar_nome repr_float a
                                     = normalizar_nome repr_float b)
           /\ (forall i,
                  In (i, None) idx
                  <-> exists a, nth_error (values s_g) i = Some a
                                /\ forallb (fun b => negb (String.eqb
                                                             (normalizar_nome repr_float a)
                                                             (normalizar_nome repr_float b)))
                                           (values s_d) = true)
           /\ (forall i j a b,
                  nth_error (values s_g) i = Some a -> nth_error (values s_d) j = Some b ->
                  normalizar_nome repr_float a = normalizar_nome repr_float b ->
                  exists r, row_pairs gdf df merged ["__nome_norm"] r i j)).
Proof.
  assert (Txt_pairs : forall (f g : cell -> string) ls rs i j,
             In (i, Some j) (left_join_indexer (map (fun c => Txt (f c)) ls)
                                               (map (fun c => Txt (g c)) rs))
             <-> exists a b, nth_error ls i = Some a /\ nth_error rs j = Some b
                             /\ f a = g b).
  { intros f g ls rs i j. split.
    - intros H. apply left_join_indexer_inv in H as (ka & kb & Ha & Hb & E).
      rewrite nth_error_map in Ha, Hb.
      destruct (nth_error ls i) as [a|]; [|discriminate].
      destruct (nth_error rs j) as [b|]; [|discriminate].
      injection Ha as <-. injection Hb as <-. cbn in E. apply String.eqb_eq in E.
      exists a, b. auto.
    - intros (a & b & Ha & Hb & E).
      eapply left_join_indexer_pairs.
      + exact (nth_error_map_Some (fun c => Txt (f c)) ls i a Ha).
      + exact (nth_error_map_Some (fun c => Txt (g c)) rs j b Hb).
      + cbn. now apply String.eqb_eq. }
  assert (Txt_none : forall (f g : cell -> string) ls rs i,
             In (i, None) (left_join_indexer (map (fun c => Txt (f c)) ls)
                                             (map (fun c => Txt (g c)) rs))
             <-> exists a, nth_error ls i = Some a
                           /\ forallb (fun b => negb (String.eqb (f a) (g b))) rs = true).
  { intros f g ls rs i. rewrite left_join_indexer_unmatched. split.
    - intros (ka & Ha & Hall). rewrite nth_error_map in Ha.
      destruct (nth_error ls i) as [a|]; [|discriminate]. injection Ha as <-.
      exists a. split; [reflexivity|]. now rewrite forallb_map_Txt in Hall.
    - intros (a & Ha & Hall). exists (Txt (f a)). split.
      + exact (nth_error_map_Some (fun c => Txt (f c)) ls i a Ha).
      + now rewrite forallb_map_Txt. }
  split; intros s_g s_d Hg Hd.
  - destruct (preparar_codigos_through repr_float gdf df _ _ _ _ Hg Hd)
      as (merged & matches & E & Ht).
    exists merged, matches, (code_indexer repr_float s_g s_d).
    split; [exact E|]. split; [exact Ht|]. split; [|split].
    + intros i j. apply Txt_pairs.
    + intros i. apply Txt_none.
    + intros i j a b Ha Hb Hab.
      assert (Hin : In (i, Some j) (code_indexer repr_float s_g s_d)).
      { apply Txt_pairs. exists a, b. auto. }
      apply In_nth_error in Hin as [r Hr]. exists r.
      exact (joins_through_row _ _ _ _ _ _ _ _ Ht Hr).
  - destruct (merge_por_nome_through repr_float gdf df _ _ _ Hg Hd) as (merged & E & Ht).
    exists merged, (name_indexer repr_float s_g s_d).
    split; [exact E|]. split; [exact Ht|]. split; [|split].
    + intros i j. apply Txt_pairs.
    + intros i. apply Txt_none.
    + intros i j a b Ha Hb Hab.
      assert (Hin : In (i, Some j) (name_indexer repr_float s_g s_d)).
      { apply Txt_pairs. exists a, b. auto. }
      apply In_nth_error in Hin as [r Hr]. exists r.
      exact (joins_through_row _ _ _ _ _ _ _ _ Ht Hr).
Qed.

(** X18.  [normalizar_nome] ignores accents: a name and the name with its
    accents folded away (NFKD, then the non-ASCII characters dropped) get
    the same token, for every string. *)
Theorem normalizar_nome_accent_insensitive (s : string) :
  normalizar_nome repr_float (Txt (Py.encode_ascii_ignore (Py.nfkd s)))
  = normalizar_nome repr_float (Txt s).
Proof.
  unfold normalizar_nome. cbn [isna to_str].
  now rewrite (folded_ascii_id _ (folded_is_ascii s)).
Qed.

End Pairs.

(** ** The columns of the wide table *)

Lemma labels_inv (pcs : list ((string * cell) * Series)) labels :
  all_some
    (map (fun c => option_map (fun year => (fst (fst c) ++ "_" ++ Py.str_int year)%string)
                              (int_of (snd (fst c)))) pcs) = Some labels ->
  exists cols : list (string * Z),
    labels = map (fun my => (fst my ++ "_" ++ Py.str_int (snd my))%string) cols
    /\ map fst cols = map (fun c => fst (fst c)) pcs.
Proof.
  revert labels. induction pcs as [|c pcs IH]; intros labels; cbn [map all_some].
  - intros [= <-]. exists []. split; reflexivity.
  - destruct (int_of (snd (fst c))) as [year|]; cbn [option_map]; [|discriminate].
    destruct (all_some _) as [rest|] eqn:E; [|discriminate].
    cbn [option_map]. intros [= <-].
    destruct (IH rest eq_refl) as (cols & -> & Hc).
    exists ((fst (fst c), year) :: cols). split; [reflexivity|].
    cbn [map fst]. now rewrite Hc.
Qed.

Lemma pivot_table_first_metrics df index_cols col values_ p :
  pivot_table_first df index_cols col values_ = Some p ->
  map fst (index_names p) = index_cols
  /\ Forall (fun c => In (fst (fst c)) values_) (pcolumns p).
Proof.
  unfold pivot_table_first, bind.
  destruct (all_some (map (getitem df) (index_cols ++ [col]))) as [ks|] eqn:Ek; [|discriminate].
  destruct (all_some (map (getitem df) values_)) as [vs|]; [|discriminate].
  destruct (all_some (map (agg_column ks (nrows df) (group_keys ks (nrows df)) First) vs))
    as [agged|]; [|discriminate].
  intros [= <-]. cbn [index_names pcolumns]. split.
  - apply map_fst_combine. apply all_some_length in Ek.
    rewrite length_map, length_app in Ek. cbn [List.length] in Ek.
    rewrite length_map, length_firstn. lia.
  - apply Forall_forall. intros c Hc. apply filter_In in Hc as [Hc _].
    apply (Permutation_in _ (sort_perm _ _)) in Hc.
    apply in_flat_map in Hc as [vs' [Hvs Hc]].
    apply in_map_iff in Hc as [y [<- _]]. cbn [fst].
    destruct vs' as [v s']. now apply in_combine_l in Hvs.
Qed.

Lemma pivot_wide_columns df index_cols metrics out anos :
  pivot_wide df index_cols metrics = Some (out, anos) ->
  exists cols : list (string * Z),
    columns out
    = index_cols ++ map (fun my => (fst my ++ "_" ++ Py.str_int (snd my))%string) cols
    /\ Forall (fun my => In (fst my) metrics) cols.
Proof.
  unfold pivot_wide, bind.
  destruct (groupby_agg df _ _) as [agrupado|]; [|discriminate].
  destruct (pivot_table_first agrupado index_cols YEAR_COLUMN metrics) as [p|] eqn:Ep;
    [|discriminate].
  destruct (all_some _) as [labels|] eqn:El; [|discriminate].
  destruct (getitem df YEAR_COLUMN); [|discriminate].
  intros [= <- _].
  destruct (pivot_table_first_metrics _ _ _ _ _ Ep) as [Hn Hm].
  pose proof (all_some_length _ _ El) as Hlen. rewrite length_map in Hlen.
  destruct (labels_inv _ _ El) as (cols & -> & Hc).
  exists cols. split.
  - unfold columns, reset_index. cbn [series]. rewrite map_app. f_equal.
    + rewrite map_map. cbn [fst].
      rewrite <- (map_map snd fst), map_snd_combine by (rewrite length_seq; lia).
      exact Hn.
    + apply map_fst_combine. rewrite length_map in Hlen. rewrite !length_map, Hlen. lia.
  - apply Forall_forall. intros my Hmy.
    assert (Hin : In (fst my) (map fst cols)) by now apply in_map.
    rewrite Hc in Hin. apply in_map_iff in Hin as [c [<- Hin]].
    cbn [sort_columns_level1 pcolumns] in Hin.
    apply (Permutation_in _ (sort_perm _ _)) in Hin.
    rewrite Forall_forall in Hm. now apply Hm.
Qed.

(** ** When the reshaper pivots *)

Lemma all_some_exists {A B} (f : A -> option B) (l : list A) :
  (forall x, In x l -> exists y, f x = Some y) -> exists r, all_some (map f l) = Some r.
Proof.
  induction l as [|x l IH]; intros H; [now exists []|].
  destruct (H x (or_introl eq_refl)) as [y Ey].
  destruct IH as [r Er]; [intros z Hz; apply H; now right|].
  exists (y :: r). cbn [map all_some]. now rewrite Ey, Er.
Qed.

Lemma notna_nth_row (k : list cell) j :
  existsb isna k = false -> j < List.length k -> notna (nth j k NA) = true.
Proof.
  intros H Hj. unfold notna. apply negb_true_iff.
  destruct (isna (nth j k NA)) eqn:E; [|reflexivity].
  assert (existsb isna k = true); [|congruence].
  apply existsb_exists. exists (nth j k NA). split; [now apply nth_In | exact E].
Qed.

(** The pivot of a grouped frame succeeds, and the keys of its columns are
    keys of the groups. *)
Lemma pivot_table_first_total (index_cols : list string) (col : string)
    (metrics : list string) (ks : list Series) (n : nat) (vcols : list (string * Series)) :
  let by_ := index_cols ++ [col] in
  let K := group_keys ks n in
  let w := List.length index_cols in
  List.length by_ = List.length ks ->
  NoDup by_ -> map fst vcols = metrics -> NoDup metrics ->
  (forall m, In m metrics -> mem m by_ = false) ->
  exists p,
    pivot_table_first (mkDF (List.length K) (key_columns by_ ks K ++ vcols))
      index_cols col metrics = Some p
    /\ map fst (index_names p) = index_cols
    /\ Forall (fun c => In (fst (fst c)) metrics
                        /\ exists key, In key K /\ snd (fst c) = nth w key NA)
              (pcolumns p).
Proof.
  intros by_ K w Hlen Hby Hmetrics Hnd Hdis.
  set (ks' := map snd (key_columns by_ ks K)).
  set (vs := map snd vcols).
  unfold pivot_table_first. fold by_.
  rewrite (all_some_getitem_l _ _ _ by_ (key_columns_labels by_ ks K Hlen) Hby).
  cbn [bind].
  rewrite (all_some_getitem_r _ (key_columns by_ ks K) vcols metrics Hmetrics Hnd).
  2:{ intros m Hm. rewrite (key_columns_labels by_ ks K Hlen). now apply Hdis. }
  cbn [bind nrows]. fold ks' vs.
  assert (Eidem : group_keys ks' (List.length K) = K) by apply (group_keys_idem by_ ks n Hlen).
  rewrite Eidem.
  rewrite (all_some_map _ (agg_total ks' (List.length K) K First)).
  2:{ intros s _. apply agg_column_Some. discriminate. }
  cbn [bind]. eexists. split; [reflexivity|]. cbn [index_names pcolumns]. split.
  - apply map_fst_combine. unfold ks'. rewrite length_map, length_firstn, length_map.
    unfold key_columns. rewrite length_map, length_combine, length_seq, length_combine.
    unfold by_ in *. rewrite length_app in *. cbn [List.length] in *. fold w in Hlen |- *. lia.
  - apply Forall_forall. intros c Hc. apply filter_In in Hc as [Hc _].
    apply (Permutation_in _ (sort_perm _ _)) in Hc.
    apply in_flat_map in Hc as [[m s] [Hms Hc]].
    apply in_map_iff in Hc as [y [<- Hy]]. cbn [fst snd]. split.
    + now apply in_combine_l in Hms.
    + apply (Permutation_in _ (sort_perm _ _)) in Hy. apply unique_incl in Hy.
      apply in_map_iff in Hy as [key [<- Hkey]]. exists key. split; [|reflexivity].
      unfold select in Hkey. apply in_map_iff in Hkey as [i [<- Hi]].
      unfold rows_with_value in Hi. apply filter_In in Hi as [Hi _]. apply in_seq in Hi.
      apply nth_In. lia.
Qed.

(** The reshaper does not fail on a well-formed table whose years convert
    to integers and whose mean-reduced metrics are numeric. *)
Lemma pivot_wide_total (df : DataFrame) (index_cols metrics : list string) :
  let by_ := index_cols ++ [YEAR_COLUMN] in
  wf df ->
  (forall l, In l (by_ ++ metrics) -> mem l (columns df) = true) ->
  NoDup by_ -> NoDup metrics ->
  (forall m, In m metrics -> mem m by_ = false) ->
  (forall c, In c (values (column df YEAR_COLUMN)) -> notna c = true ->
             exists z, int_of c = Some z) ->
  (forall m, In m metrics -> agg_of m = Mean -> is_numeric_dtype (column df m) = true) ->
  exists out,
    pivot_wide df index_cols metrics
    = Some (out, Some (sorted_unique_notna (column df YEAR_COLUMN))).
Proof.
  intros by_ Hwf Hmem Hby Hnd Hdis Hconv Hmnum.
  set (ks := map (column df) by_). set (n := nrows df). set (K := group_keys ks n).
  set (w := List.length index_cols).
  set (agg_dict := map (fun metric => (metric, agg_of metric)) metrics).
  set (vcols := map (fun lf : string * aggfunc =>
                       (fst lf, agg_total ks n K (snd lf) (column df (fst lf)))) agg_dict).
  assert (Hlen : List.length by_ = List.length ks) by (unfold ks; now rewrite length_map).
  assert (Hw : w < List.length ks).
  { rewrite <- Hlen. unfold by_, w. rewrite length_app. simpl. lia. }
  assert (Eyear : nth w ks (column df YEAR_COLUMN) = column df YEAR_COLUMN).
  { unfold ks, by_. rewrite map_app, app_nth2; rewrite length_map; [|unfold w; lia].
    unfold w. now rewrite Nat.sub_diag. }
  assert (Hyear : getitem df YEAR_COLUMN = Some (column df YEAR_COLUMN)).
  { apply column_getitem, Hmem, in_or_app. left. unfold by_. apply in_or_app. right. now left. }
  assert (E1 : all_some (map (getitem df) by_) = Some ks).
  { apply all_some_getitem. intros l Hl. apply Hmem, in_or_app. now left. }
  assert (Eg : groupby_agg df by_ agg_dict
               = Some (mkDF (List.length K) (key_columns by_ ks K ++ vcols))).
  { apply (groupby_agg_shape df by_ agg_dict ks E1).
    intros l f Hin. unfold agg_dict in Hin. apply in_map_iff in Hin as [m [E Hm]].
    injection E as <- <-. exists (column df m). split.
    - apply column_getitem, Hmem, in_or_app. now right.
    - intros Hf. specialize (Hmnum m Hm Hf). unfold is_numeric_dtype in Hmnum.
      intros F. now rewrite F in Hmnum. }
  assert (Hvm : map fst vcols = metrics).
  { unfold vcols, agg_dict. rewrite !map_map. cbn [fst]. apply map_id. }
  destruct (pivot_table_first_total index_cols YEAR_COLUMN metrics ks n vcols
              Hlen Hby Hvm Hnd Hdis) as (p & Ep & _ & Hp).
  fold by_ K in Ep. fold K w in Hp.
  unfold pivot_wide. fold agg_dict by_. rewrite Eg. cbn [bind]. rewrite Ep. cbn [bind].
  destruct (all_some_exists
              (fun c : (string * cell) * Series =>
                 option_map (fun year => (fst (fst c) ++ "_" ++ Py.str_int year)%string)
                            (int_of (snd (fst c))))
              (pcolumns (sort_columns_level1 p))) as [labels El].
  { intros c Hc. cbn [sort_columns_level1 pcolumns] in Hc.
    apply (Permutation_in _ (sort_perm _ _)) in Hc.
    rewrite Forall_forall in Hp. destruct (Hp c Hc) as (_ & key & Hkey & Ey).
    apply group_keys_In in Hkey as (i & Hi & -> & Hna).
    assert (Hcell : snd (fst c) = nth i (values (column df YEAR_COLUMN)) NA).
    { rewrite Ey, (row_nth ks i w (column df YEAR_COLUMN) Hw), Eyear. reflexivity. }
    destruct (Hconv (snd (fst c))) as [z Ez].
    - rewrite Hcell. apply nth_In. rewrite (wf_length df YEAR_COLUMN _ Hwf Hyear). exact Hi.
    - rewrite Ey. apply notna_nth_row; [exact Hna|]. now rewrite length_row.
    - rewrite Ez. eexists. reflexivity. }
  rewrite El. cbn [bind]. rewrite Hyear. eexists. reflexivity.
Qed.

(** X20.  The reshaper pivots and returns on every well-formed table that
    has the year column, [municipio_cod] and at least one configured
    metric, whose years that are not missing all convert with [int], and
    whose mean-reduced metric, when present, is numeric.  The wide table
    starts with the index columns ([municipio_cod], then [municipio_nome]
    when the input has it), and every other column is named [metric_year]
    for a configured metric of the input; it has no year column any more,
    and the table-side code column [main] then uses is [municipio_cod].
    The years returned with it are the values of the year column that are
    not missing, each once, in ascending order. *)
Theorem pivotar_columns (df : DataFrame) :
  wf df ->
  mem YEAR_COLUMN (columns df) = true ->
  mem "municipio_cod" (columns df) = true ->
  existsb (fun col => mem col (columns df)) METRIC_COLUMNS = true ->
  (forall c, In c (values (column df YEAR_COLUMN)) -> notna c = true ->
             exists z, int_of c = Some z) ->
  (forall m, In m METRIC_MEAN -> mem m (columns df) = true ->
             is_numeric_dtype (column df m) = true) ->
  exists (out : DataFrame) (cols : list (string * Z)) (anos : list cell),
    pivotar_dados_por_ano df = Some (out, Some anos)
    /\ columns out
       = ("municipio_cod"
            :: (if mem "municipio_nome" (columns df) then ["municipio_nome"] else []))
         ++ map (fun my => (fst my ++ "_" ++ Py.str_int (snd my))%string) cols
    /\ Forall (fun my => In (fst my) METRIC_COLUMNS /\ mem (fst my) (columns df) = true) cols
    /\ mem YEAR_COLUMN (columns out) = false
    /\ csv_code_column out = Some "municipio_cod"
    /\ Sorted (fun a b => cell_leb a b = true) anos
    /\ NoDupA cell_eq anos
    /\ (forall c, InA cell_eq c anos
                  <-> notna c = true /\ InA cell_eq c (values (column df YEAR_COLUMN))).
Proof.
  intros Hwf Hy Hc Hm Hconv Hmean.
  set (metrics := filter (fun col => mem col (columns df)) METRIC_COLUMNS).
  set (index_cols := "municipio_cod"
                       :: (if mem "municipio_nome" (columns df) then ["municipio_nome"] else [])).
  assert (Hmm : forall m, In m metrics -> In m METRIC_COLUMNS /\ mem m (columns df) = true).
  { intros m Hin. unfold metrics in Hin. now apply filter_In in Hin. }
  assert (Hne : metrics <> []).
  { intros E. apply existsb_exists in Hm as [x [Hx Hxm]].
    assert (Hin : In x metrics) by (apply filter_In; now split).
    rewrite E in Hin. destruct Hin. }
  destruct (pivot_wide_total df index_cols metrics) as [out E]; try assumption.
  - intros l Hl. rewrite <- app_assoc in Hl. apply in_app_or in Hl as [Hl|Hl].
    + unfold index_cols in Hl. destruct (mem "municipio_nome" (columns df)) eqn:En;
        simpl in Hl; intuition (subst; assumption).
    + apply in_app_or in Hl as [[<-|[]]|Hl]; [exact Hy | now apply Hmm].
  - unfold index_cols. destruct (mem "municipio_nome" (columns df));
      repeat constructor; simpl; intuition discriminate.
  - unfold metrics. apply NoDup_filter. exact NoDup_METRIC_COLUMNS.
  - intros m Hin. destruct (Hmm m Hin) as [Hin' _]. unfold index_cols.
    destruct (mem "municipio_nome" (columns df));
      destruct Hin' as [<-|[<-|[<-|[]]]]; reflexivity.
  - intros m Hin Hf. destruct (Hmm m Hin) as [Hin' Hcol]. apply Hmean; [|exact Hcol].
    unfold agg_of in Hf. destruct (mem m METRIC_MEAN) eqn:Em; [|discriminate].
    now apply mem_true_iff.
  - assert (Ep : pivotar_dados_por_ano df
                 = Some (out, Some (sorted_unique_notna (column df YEAR_COLUMN)))).
    { unfold pivotar_dados_por_ano. rewrite Hy, Hc. cbn [negb orb].
      fold metrics. rewrite (match_cons metrics _ _ Hne). exact E. }
    destruct (pivot_wide_columns _ _ _ _ _ E) as (cols & Hcols & Hmet).
    assert (Hmet' : Forall (fun my => In (fst my) METRIC_COLUMNS
                                      /\ mem (fst my) (columns df) = true) cols).
    { eapply Forall_impl; [|exact Hmet]. intros my Hin. now apply Hmm. }
    exists out, cols, (sorted_unique_notna (column df YEAR_COLUMN)).
    split; [exact Ep|]. split; [exact Hcols|]. split; [exact Hmet'|].
    assert (Hlab : forall l,
               In l (map (fun my => (fst my ++ "_" ++ Py.str_int (snd my))%string) cols)
               -> String.eqb YEAR_COLUMN l = false).
    { intros l Hl. apply in_map_iff in Hl as [[m' y] [<- Hin]].
      rewrite Forall_forall in Hmet'. destruct (Hmet' _ Hin) as [Hm' _]. cbn [fst snd] in *.
      destruct Hm' as [<-|[<-|[<-|[]]]]; reflexivity. }
    split; [|split; [|apply sorted_unique_notna_spec]].
    + assert (Hnot : existsb (String.eqb YEAR_COLUMN)
                       (map (fun my => (fst my ++ "_" ++ Py.str_int (snd my))%string) cols)
                     = false).
      { apply not_true_is_false. intros F. apply existsb_exists in F as [l [Hl El]].
        now rewrite (Hlab l Hl) in El. }
      rewrite Hcols. unfold index_cols. destruct (mem "municipio_nome" (columns df));
        unfold mem; rewrite existsb_app, Hnot; reflexivity.
    + unfold csv_code_column. rewrite Hcols. reflexivity.
Qed.

End Arithmetic.

(** * The properties at concrete inputs *)

(** Exact sums and means, kept in lowest terms, are an instance of the
    [float64] arithmetic: the examples are computed with it. *)

Lemma sum_inject_Z (zs : list Z) :
  Qeq (fold_right Qplus 0%Q (map inject_Z zs)) (inject_Z (fold_right Z.add 0%Z zs)).
Proof.
  induction zs as [|z zs IH]; [reflexivity|].
  cbn [map fold_right]. rewrite IH, inject_Z_plus. reflexivity.
Qed.

Lemma Qred_inject_Z (k : Z) : Qred (inject_Z k) = inject_Z k.
Proof.
  unfold Qred, inject_Z.
  pose proof (Z.ggcd_gcd k 1) as G. pose proof (Z.ggcd_correct_divisors k 1) as D.
  destruct (Z.ggcd k 1) as [g [a b]]. cbn [fst snd] in *.
  rewrite Z.gcd_1_r in G. subst g. destruct D as [D1 D2].
  rewrite Z.mul_1_l in D1, D2. subst a b. reflexivity.
Qed.

Lemma exact_sum_integers (zs : list Z) :
  Qred (fold_right Qplus 0%Q (map inject_Z zs)) = inject_Z (fold_right Z.add 0%Z zs).
Proof.
  rewrite <- (Qred_inject_Z (fold_right Z.add 0%Z zs)). apply Qred_complete, sum_inject_Z.
Qed.

Lemma exact_mean_integers (zs : list Z) (k : Z) :
  zs <> [] ->
  fold_right Z.add 0%Z zs = (k * Z.of_nat (List.length zs))%Z ->
  Qred (Qdiv (fold_right Qplus 0%Q (map inject_Z zs))
             (inject_Z (Z.of_nat (List.length (map inject_Z zs)))))
  = inject_Z k.
Proof.
  intros Hne E. rewrite <- (Qred_inject_Z k). apply Qred_complete.
  rewrite length_map, sum_inject_Z, E, inject_Z_mult.
  apply Qdiv_mult_l. intros F.
  assert (Hz : Z.of_nat (List.length zs) = 0%Z).
  { unfold Qeq, inject_Z in F. cbn in F. lia. }
  destruct zs; [now apply Hne | discriminate].
Qed.

Definition exact_arith : Float64 :=
  {| float_sum := fun l => Qred (fold_right Qplus 0%Q l);
     float_mean := fun l =>
       Qred (Qdiv (fold_right Qplus 0%Q l) (inject_Z (Z.of_nat (List.length l))));
     float_sum_integers := fun zs _ => exact_sum_integers zs;
     float_mean_integers := fun zs k Hne _ E => exact_mean_integers zs k Hne E |}.

#[local] Existing Instance exact_arith.

Lemma df_mesmo_municipio_wf : wf df_mesmo_municipio.
Proof.
  split; [repeat constructor; simpl; intuition discriminate|].
  repeat constructor.
Qed.

Lemma gdf_exemplo_wf : wf gdf_exemplo.
Proof.
  split; [repeat constructor; simpl; intuition discriminate|].
  repeat constructor.
Qed.

(** C1 on the code path: two features, a table with one record each. *)
Lemma C1_cardinality_witness :
  exists merged matches,
    preparar_codigos repr_integral_float gdf_exemplo df_um_ano "CD_MUN" "municipio_cod"
    = Some (merged, matches)
    /\ len gdf_exemplo <= len merged
    /\ (NoDup (map (code6 repr_integral_float 6) [Int 310620; Int 317020])
        -> len merged = len gdf_exemplo)
    /\ joins_through
         (code_indexer repr_integral_float
            (mkSeries object [Txt "3106200"; Txt "3170206"])
            (mkSeries int64 [Int 310620; Int 317020]))
         gdf_exemplo df_um_ano merged transient_columns
    /\ (forall i a,
           nth_error [Txt "3106200"; Txt "3170206"] i = Some a ->
           count_occ Nat.eq_dec
             (map fst (code_indexer repr_integral_float
                         (mkSeries object [Txt "3106200"; Txt "3170206"])
                         (mkSeries int64 [Int 310620; Int 317020]))) i
           = rows_for (code6 repr_integral_float 6) [Int 310620; Int 317020]
               (code6 repr_integral_float 7 a)).
Proof.
  exact (proj1 (C1_cardinality repr_integral_float gdf_exemplo df_um_ano
                  "CD_MUN" "municipio_cod" "NM_MUN" gdf_exemplo_wf)
           (mkSeries object [Txt "3106200"; Txt "3170206"])
           (mkSeries int64 [Int 310620; Int 317020]) eq_refl eq_refl).
Defined.

(** C1 as stated fails on both paths: one feature of [gdf_exemplo] has two
    records in [df_longo] (same code, same name), and the joined frame has
    three rows for two features.  So has the frame [main] exports, by code
    for [df_sem_ano] and by name for [df_sem_ano_sem_codigo]. *)
Lemma C1_counterexample :
  len gdf_exemplo = 2
  /\ option_map (fun r => len (fst r))
       (preparar_codigos repr_integral_float gdf_exemplo df_longo "CD_MUN" "municipio_cod")
     = Some 3
  /\ option_map len (merge_por_nome repr_integral_float gdf_exemplo df_longo "NM_MUN")
     = Some 3
  /\ match main repr_integral_float gdf_exemplo df_sem_ano with
     | Ok e => total e = 3
     | _ => False
     end
  /\ match main repr_integral_float gdf_exemplo df_sem_ano_sem_codigo with
     | Ok e => total e = 3
     | _ => False
     end.
Proof. repeat split; vm_compute; reflexivity. Qed.

(** C2 at concrete codes: the shapefile code 3106200 and a CSV code written
    with punctuation. *)
Lemma C2_truncation_symmetry_witness :
  code6 repr_integral_float 7 (Int 3106200) = "310620"
  /\ code6 repr_integral_float 6 (Txt "31.062-0") = code6 repr_integral_float 7 (Int 3106200).
Proof.
  apply (proj1 (proj2 (C2_truncation_symmetry repr_integral_float))
           (Int 3106200) (Txt "31.062-0")); vm_compute; try reflexivity; lia.
Defined.

(** C2 as stated fails: the CSV code 31062 is padded to 031062, which is
    not the key 310620 of the shapefile code 3106200. *)
Lemma C2_counterexample :
  code6 repr_integral_float 6 (Int 31062) = "031062"
  /\ code6 repr_integral_float 6 (Int 31062) <> code6 repr_integral_float 7 (Int 3106200).
Proof. split; [reflexivity | vm_compute; discriminate]. Qed.

(** C3 on the code path, at the feature and the record without identifiers. *)
Lemma C3_missing_keys_match_witness :
  code6 repr_integral_float 7 NA = "000000"
  /\ code6 repr_integral_float 6 NA = "000000"
  /\ exists merged matches r,
       preparar_codigos repr_integral_float gdf_sem_id df_sem_id "CD_MUN" "municipio_cod"
       = Some (merged, matches)
       /\ row_pairs gdf_sem_id df_sem_id merged transient_columns r 0 0.
Proof.
  apply (proj1 (C3_missing_keys_match repr_integral_float gdf_sem_id df_sem_id
                  "CD_MUN" "municipio_cod" "NM_MUN" 0 0 NA NA)
           (mkSeries object [NA]) (mkSeries float64 [NA]));
    reflexivity.
Defined.

(** C3 as stated fails on both paths: the feature without code and name
    receives the attributes of the record without code and name; the code
    join counts it as a match, and so does [main]. *)
Lemma C3_counterexample :
  cell_at gdf_sem_id "CD_MUN" 0 = Some NA
  /\ cell_at df_sem_id "municipio_cod" 0 = Some NA
  /\ option_map (fun r => (cell_at (fst r) "total_violencia_domestica" 0, snd r))
       (preparar_codigos repr_integral_float gdf_sem_id df_sem_id "CD_MUN" "municipio_cod")
     = Some (Some (Int 7), 1)
  /\ cell_at gdf_sem_id "NM_MUN" 0 = Some NA
  /\ cell_at df_sem_id "municipio_nome" 0 = Some NA
  /\ option_map (fun m => cell_at m "total_violencia_domestica" 0)
       (merge_por_nome repr_integral_float gdf_sem_id df_sem_id "NM_MUN")
     = Some (Some (Int 7))
  /\ match main repr_integral_float gdf_sem_id df_sem_id with
     | Ok e => with_data e = 1
     | _ => False
     end.
Proof. repeat split; vm_compute; reflexivity. Qed.

(** C4 as stated fails: the hyphen of [del-Rei] survives, so the accented
    spelling and the lower-case spelling get different tokens. *)
Lemma C4_counterexample :
  normalizar_nome repr_integral_float (Txt nome_acentuado)
  <> normalizar_nome repr_integral_float (Txt nome_minusculo).
Proof. vm_compute. discriminate. Qed.

Lemma df_X_wf : wf df_X.
Proof.
  split; [repeat constructor; simpl; intuition discriminate|].
  repeat constructor.
Qed.



(** C6 on the two records of one municipality. *)
Lemma C6_single_year_aggregation_witness :
  exists out,
    agrupar_por_municipio df_mesmo_municipio "municipio_cod" = Some out
    /\ out = mkDF 1 [("municipio_cod", mkSeries int64 [Int 310620]);
                     ("taxa_feminicidio", mkSeries float64 [Flt (Qmake 3 1)]);
                     ("total_violencia_domestica", mkSeries int64 [Int 25])].
Proof.
  destruct (proj2 (proj1 C6_single_year_aggregation df_mesmo_municipio "municipio_cod"
                     (mkSeries int64 [Int 310620; Int 310620])
                     df_mesmo_municipio_wf eq_refl))
    as (out & E & H).
  exists out. split; [exact E|]. exact H.
Defined.

(** C6 as stated fails: with nothing to aggregate the year column is not
    dropped. *)
Lemma C6_counterexample :
  option_map columns (agrupar_por_municipio df_codigo_ano "municipio_cod")
  = Some ["municipio_cod"; "ano"].
Proof. reflexivity. Qed.

(** C7 on the scenario's shapefile and the long table: three rows, each
    with a record. *)
Lemma C7_match_count_witness :
  exists merged matches,
    preparar_codigos repr_integral_float gdf_exemplo df_longo "CD_MUN" "municipio_cod"
    = Some (merged, matches)
    /\ matches = rows_with "total_violencia_domestica" merged
    /\ Forall (fun col => mem col (columns merged) = false) transient_columns
    /\ merged
       = joined_suffixed
           (code_indexer repr_integral_float
              (mkSeries object [Txt "3106200"; Txt "3170206"])
              (mkSeries int64 [Int 310620; Int 310620; Int 317020]))
           gdf_exemplo df_longo
    /\ matches = 3.
Proof.
  destruct (proj1 (C7_match_count repr_integral_float)
              gdf_exemplo df_longo "CD_MUN" "municipio_cod"
              (mkSeries object [Txt "3106200"; Txt "3170206"])
              (mkSeries int64 [Int 310620; Int 310620; Int 317020]) eq_refl eq_refl)
    as (merged & matches & E & _ & Hrows & _ & Hcols & Hexact).
  destruct (Hexact eq_refl) as [Hm Hcount].
  exists merged, matches. split; [exact E|]. split; [exact Hrows|]. split; [exact Hcols|].
  split; [exact Hm|]. exact (Hcount eq_refl).
Defined.

(** C7 as stated fails.  On a table whose only metric is [feminicidios] the
    count is 0 although both rows of the joined frame have that metric.  On
    a table that has a column labelled like a helper column, the key column
    of the features stays in the returned frame, under its suffixed label.
    And [main], which joins the reshaped table, reports 0 features with data
    for the long table, whose metric columns are by then named after the
    years. *)
Lemma C7_counterexample :
  option_map (fun r => (snd r, rows_with "feminicidios" (fst r),
                        rows_with_any METRIC_COLUMNS (fst r)))
    (preparar_codigos repr_integral_float gdf_exemplo df_so_feminicidios
       "CD_MUN" "municipio_cod")
  = Some (0, 2, 2)
  /\ option_map (fun r => getitem (fst r) "__shp_code6_x")
       (preparar_codigos repr_integral_float gdf_exemplo df_rotulo_auxiliar
          "CD_MUN" "municipio_cod")
     = Some (Some (mkSeries object [Txt "310620"; Txt "317020"]))
  /\ match main repr_integral_float gdf_exemplo df_longo with
     | Ok e => total e = 2 /\ with_data e = 0
               /\ rows_with "total_violencia_domestica_2022" (combined e) = 2
     | _ => False
     end.
Proof.
  split; [vm_compute; reflexivity|]. split; [vm_compute; reflexivity|].
  vm_compute. repeat split.
Qed.

(** C8 where neither side has a code column but both have names. *)
Lemma C8_fallback_witness :
  exists merged,
    merge_por_nome repr_integral_float gdf_so_nome df_so_nome "NM_MUN" = Some merged
    /\ main repr_integral_float gdf_so_nome df_so_nome
       = Ok (mkExports merged (len merged) (count_with_data merged) []).
Proof.
  apply (C8_fallback repr_integral_float gdf_so_nome df_so_nome df_so_nome None);
    [reflexivity | left; reflexivity].
Defined.

(** C9 on the table without code column. *)
Lemma C9_missing_code_column_witness :
  agrupar_por_municipio df_sem_codigo "municipio_cod" = Some df_sem_codigo.
Proof. apply (C9_missing_code_column df_sem_codigo "municipio_cod"). reflexivity. Defined.

(** C9 as stated fails: the two equal rows of [df_sem_codigo] both come
    back. *)
Lemma C9_counterexample :
  row (map snd (series df_sem_codigo)) 0 = row (map snd (series df_sem_codigo)) 1
  /\ option_map len (agrupar_por_municipio df_sem_codigo "municipio_cod") = Some 2.
Proof. split; reflexivity. Qed.


(** * The further properties at concrete inputs *)

Lemma df_longo_wf : wf df_longo.
Proof.
  split; [repeat constructor; simpl; intuition discriminate|].
  repeat constructor.
Qed.

(** X3 on a key column of the shapefile side. *)
Lemma code_keys_six_digits_witness :
  let keys :=
    str_slice_to 6 (code_digits repr_integral_float 7
                      (mkSeries object [Txt "3106200"; Txt "31-062"; NA])) in
  Forall six_digits (values keys)
  /\ values (str_slice_to 6 (code_digits repr_integral_float 6 keys)) = values keys
  /\ values (str_slice_to 6 (code_digits repr_integral_float 7 keys))
     = map (fun c => Txt (String "0" (Py.take 5 (to_str repr_integral_float c))))
           (values keys).
Proof.
  apply (code_keys_six_digits repr_integral_float 7
           (mkSeries object [Txt "3106200"; Txt "31-062"; NA])).
  repeat constructor.
Defined.

(** X6 on the long table: Belo Horizonte has two records, Uberaba one. *)
Lemma join_row_count_witness :
  exists merged matches,
    preparar_codigos repr_integral_float gdf_exemplo df_longo "CD_MUN" "municipio_cod"
    = Some (merged, matches)
    /\ len merged
       = list_sum (map (fun g => rows_for (code6 repr_integral_float 6)
                                   [Int 310620; Int 310620; Int 317020]
                                   (code6 repr_integral_float 7 g))
                       [Txt "3106200"; Txt "3170206"]).
Proof.
  apply (proj1 (join_row_count repr_integral_float gdf_exemplo df_longo
                  "CD_MUN" "municipio_cod" "NM_MUN")
           (mkSeries object [Txt "3106200"; Txt "3170206"])
           (mkSeries int64 [Int 310620; Int 310620; Int 317020]));
    reflexivity.
Defined.

(** X7 on the code path, for the long table. *)
Lemma joins_frame_witness :
  option_map fst
    (preparar_codigos repr_integral_float gdf_exemplo df_longo "CD_MUN" "municipio_cod")
  = Some (joined (code_indexer repr_integral_float
                    (mkSeries object [Txt "3106200"; Txt "3170206"])
                    (mkSeries int64 [Int 310620; Int 310620; Int 317020]))
            (series gdf_exemplo) (series df_longo)).
Proof.
  apply (proj1 (joins_frame repr_integral_float gdf_exemplo df_longo eq_refl)
           "CD_MUN" "municipio_cod"); reflexivity.
Defined.

(** X8 on the code path, for the table of one year. *)
Lemma joins_keep_features_witness :
  exists idx,
    option_map fst
      (preparar_codigos repr_integral_float gdf_exemplo df_um_ano "CD_MUN" "municipio_cod")
    = Some (mkDF (nrows gdf_exemplo)
              (series gdf_exemplo
               ++ map (fun ls => (fst ls, take_right idx (snd ls))) (series df_um_ano)))
    /\ map fst idx = seq 0 (nrows gdf_exemplo)
    /\ map snd idx
       = map (code_match repr_integral_float (mkSeries int64 [Int 310620; Int 317020]))
             [Txt "3106200"; Txt "3170206"].
Proof.
  apply (proj1 (joins_keep_features repr_integral_float gdf_exemplo df_um_ano
                  (mkSeries object [Txt "3106200"; Txt "3170206"])
                  (mkSeries int64 [Int 310620; Int 317020])
                  gdf_exemplo_wf eq_refl)
           "CD_MUN" "municipio_cod"); try reflexivity.
  vm_compute. repeat constructor; simpl; intuition discriminate.
Defined.

(** X10 on the shapefile of the country: the rows MG and mg are kept. *)
Lemma carregar_shapefile_filter_witness :
  exists gdf_mg kept,
    carregar_shapefile repr_integral_float None (Some gdf_brasil_exemplo) = Ok gdf_mg
    /\ columns gdf_mg = columns gdf_brasil_exemplo
    /\ getitem gdf_mg "SIGLA" = Some (mkSeries object kept)
    /\ kept = filter (fun c => String.eqb (Py.lower (to_str repr_integral_float c)) "mg")
                     [Txt "MG"; Txt "SP"; Txt "mg"]
    /\ len gdf_mg = List.length kept
    /\ carregar_shapefile repr_integral_float None (Some gdf_mg) = Ok gdf_mg.
Proof.
  apply (carregar_shapefile_filter repr_integral_float gdf_brasil_exemplo
           (mkSeries object [Txt "MG"; Txt "SP"; Txt "mg"])).
  reflexivity.
Defined.

(** X11 with a shapefile of the country that has no [SIGLA] column. *)
Lemma exit_status_witness :
  1%Z = 1%Z
  /\ (Some df_longo = None
      \/ (@None DataFrame = None /\ Some gdf_exemplo = None)
      \/ (@None DataFrame = None
          /\ exists gdf_brasil, Some gdf_exemplo = Some gdf_brasil
                                /\ mem "SIGLA" (columns gdf_brasil) = false)
      \/ exists gdf df_raw df anos,
           Some df_longo = Some df_raw
           /\ carregar_shapefile repr_integral_float None (Some gdf_exemplo) = Ok gdf
           /\ pivotar_dados_por_ano df_raw = Some (df, anos)
           /\ (detect_code_column (columns gdf) = None \/ csv_code_column df = None)
           /\ (detect_name_column (columns gdf) = None
               \/ mem "municipio_nome" (columns df) = false)).
Proof.
  apply (exit_status repr_integral_float (Some df_longo) None (Some gdf_exemplo) 1).
  reflexivity.
Defined.

(** X12 on the end-to-end scenario. *)
Lemma main_code_join_witness :
  exists merged matches,
    preparar_codigos repr_integral_float gdf_exemplo df_sem_ano "CD_MUN" "municipio_cod"
    = Some (merged, matches)
    /\ match main repr_integral_float gdf_exemplo df_sem_ano with
       | Ok e => combined e = merged /\ total e = len merged /\ with_data e = matches
       | Exit _ => False
       | Raised => exists ano rest,
                     @None (list cell) = Some (ano :: rest)
                     /\ export_years repr_integral_float gdf_exemplo df_sem_ano
                          "CD_MUN" "municipio_cod" (ano :: rest) = None
       end.
Proof.
  apply (main_code_join repr_integral_float gdf_exemplo df_sem_ano df_sem_ano None
           "CD_MUN" "municipio_cod"); reflexivity.
Defined.

(** X13 on the long table, pivoted and exported year by year. *)
Lemma main_keeps_features_witness :
  exists e,
    main repr_integral_float gdf_exemplo df_longo = Ok e
    /\ len gdf_exemplo <= total e
    /\ total e = len (combined e)
    /\ Forall (fun yf => len gdf_exemplo <= len (snd yf)) (by_year e).
Proof.
  eexists. split; [vm_compute; reflexivity|].
  apply (main_keeps_features repr_integral_float gdf_exemplo df_longo _ gdf_exemplo_wf).
  vm_compute. reflexivity.
Defined.

(** X14 on the long table: the years 2022 and 2023. *)
Lemma export_years_every_year_witness :
  exists out,
    export_years repr_integral_float gdf_exemplo df_longo "CD_MUN" "municipio_cod"
      (sorted_unique_notna (mkSeries int64 [Int 2022; Int 2023; Int 2022]))
    = Some out
    /\ map (fun ano => int_of ano)
           (sorted_unique_notna (mkSeries int64 [Int 2022; Int 2023; Int 2022]))
       = map (fun yf => Some (fst yf)) out
    /\ List.length out
       = List.length (sorted_unique_notna (mkSeries int64 [Int 2022; Int 2023; Int 2022])).
Proof.
  apply (export_years_every_year repr_integral_float gdf_exemplo df_longo
           "CD_MUN" "municipio_cod" (mkSeries int64 [Int 2022; Int 2023; Int 2022])
           df_longo_wf); reflexivity.
Defined.

(** X16 on the table with code and year only. *)
Lemma agrupar_por_municipio_dedup_witness :
  exists out codes,
    agrupar_por_municipio df_codigo_ano "municipio_cod" = Some out
    /\ columns out = columns df_codigo_ano
    /\ getitem out "municipio_cod" = Some (mkSeries int64 codes)
    /\ codes = unique cell_eqb [Int 310620; Int 310620]
    /\ len out = List.length codes
    /\ NoDupA cell_eq codes
    /\ (forall c, InA cell_eq c codes <-> InA cell_eq c [Int 310620; Int 310620]).
Proof.
  apply (agrupar_por_municipio_dedup df_codigo_ano "municipio_cod"
           (mkSeries int64 [Int 310620; Int 310620])); reflexivity.
Defined.

(** X20 on the records of municipality X. *)
Lemma pivotar_columns_witness :
  exists (out : DataFrame) (cols : list (string * Z)) (anos : list cell),
    pivotar_dados_por_ano df_X = Some (out, Some anos)
    /\ columns out
       = ("municipio_cod"
            :: (if mem "municipio_nome" (columns df_X) then ["municipio_nome"] else []))
         ++ map (fun my => (fst my ++ "_" ++ Py.str_int (snd my))%string) cols
    /\ Forall (fun my => In (fst my) METRIC_COLUMNS /\ mem (fst my) (columns df_X) = true)
              cols
    /\ mem YEAR_COLUMN (columns out) = false
    /\ csv_code_column out = Some "municipio_cod"
    /\ Sorted (fun a b => cell_leb a b = true) anos
    /\ NoDupA cell_eq anos
    /\ (forall c, InA cell_eq c anos
                  <-> notna c = true /\ InA cell_eq c (values (column df_X YEAR_COLUMN))).
Proof.
  apply (pivotar_columns df_X df_X_wf); try reflexivity.
  - intros c [<-|[<-|[]]] _; eexists; reflexivity.
  - intros m [<-|[]] H; discriminate H.
Defined.
